(** * bootimgtool: the item exchange between a boot image and plain files

    A shallow embedding of [bootimgtool/bootimgtool.cpp]: the two
    sub-commands [unpack_main] and [pack_main], the helpers
    [read_file_data], [write_file_fmt], [write_file_data] and
    [str_to_uint32], and the parts of the C library they rely on
    ([getopt_long], [strtoul], [fscanf], [fgets], [fopen]).

    Machine integers are [Z] with the wrap-around written out, C strings are
    [string], blobs are [list byte], the file system and the
    [std::unordered_map<int, bool>] of value overrides are [gmap]s, and the
    process state (file system, [errno], what was printed, which files were
    opened) is threaded through a small state monad with early return. *)

From Stdlib Require Import ZArith Lia List Ascii String Bool.
From Stdlib Require Import Strings.Byte.
From stdpp Require Import gmap strings list fin_maps functions.

Local Open Scope string_scope.
Local Open Scope list_scope.
Local Open Scope Z_scope.

(** ** Characters and C strings *)

Definition char_code (c : ascii) : Z := Z.of_N (N_of_ascii c).

(** [isspace] in the C locale: space, and the controls \t \n \v \f \r. *)
Definition isspace (c : ascii) : bool :=
  let n := char_code c in (n =? 32) || ((9 <=? n) && (n <=? 13)).

(** The value of a character as a hexadecimal digit ([isxdigit] is
    [xdigit_val c <> None]). *)
Definition xdigit_val (c : ascii) : option Z :=
  let n := char_code c in
  if (48 <=? n) && (n <=? 57) then Some (n - 48)
  else if (97 <=? n) && (n <=? 102) then Some (n - 87)
  else if (65 <=? n) && (n <=? 70) then Some (n - 55)
  else None.

(** The value of a character as a digit of the given base, as [strtoul]
    accepts it. *)
Definition digit_val (radix : Z) (c : ascii) : option Z :=
  match xdigit_val c with
  | Some d => if d <? radix then Some d else None
  | None => None
  end.

Fixpoint skip_space (s : string) : string :=
  match s with
  | String c r => if isspace c then skip_space r else s
  | EmptyString => s
  end.

Definition is_x (c : ascii) : bool :=
  let n := char_code c in (n =? 120) || (n =? 88).

Definition is_sign (c : ascii) : bool :=
  let n := char_code c in (n =? 43) || (n =? 45).

Definition is_minus (c : ascii) : bool := char_code c =? 45.

Definition is_dash (c : ascii) : bool := char_code c =? 45.

Definition string_eqb (a b : string) : bool := bool_decide (a = b).

Definition is_empty (s : string) : bool :=
  match s with EmptyString => true | String _ _ => false end.

(** ** Unsigned 32-bit arithmetic *)

Definition UINT32_MOD : Z := 2 ^ 32.

(** Conversion of a wider unsigned value to [uint32_t]. *)
Definition to_uint32 (n : Z) : Z := n mod UINT32_MOD.

Definition add32 (a b : Z) : Z := to_uint32 (a + b).
Definition sub32 (a b : Z) : Z := to_uint32 (a - b).

Definition is_uint32 (n : Z) : Prop := 0 <= n < UINT32_MOD.

(** ** errno values used by the program *)

Definition ENOENT : Z := 2.
Definition EIO : Z := 5.
Definition EACCES : Z := 13.
Definition ERANGE : Z := 34.

(** ** [strtoul]

    The C library function, for a given width of [unsigned long]
    ([ULONG_MAX] is [2^32 - 1] on ILP32 and LLP64 platforms and [2^64 - 1]
    on LP64 ones).  It skips white space, takes an optional sign and, for
    base 16, an optional [0x] prefix, then the longest run of digits.  The
    result is the converted value, the unconverted rest of the string (what
    [end] points to) and whether [errno] was set to [ERANGE]. *)

(** The digits: the accumulated value, whether it left the range of
    [unsigned long], how many digits were taken and the rest. *)
Fixpoint strtoul_digits (ULONG_MAX radix : Z) (s : string) (acc : Z)
    (ovf : bool) (n : nat) : Z * bool * nat * string :=
  match s with
  | String c r =>
      match digit_val radix c with
      | Some d =>
          let acc' := acc * radix + d in
          if ovf || (ULONG_MAX <? acc')
          then strtoul_digits ULONG_MAX radix r ULONG_MAX true (S n)
          else strtoul_digits ULONG_MAX radix r acc' false (S n)
      | None => (acc, ovf, n, s)
      end
  | EmptyString => (acc, ovf, n, s)
  end.

(** A [0x] or [0X] prefix counts only when a hexadecimal digit follows;
    otherwise the [0] alone is the number and [end] points to the [x]. *)
Definition strip_0x (radix : Z) (s : string) : string :=
  match s with
  | String c0 (String c1 (String c2 r)) =>
      if (radix =? 16) && (char_code c0 =? 48) && is_x c1
         && bool_decide (xdigit_val c2 <> None)
      then String c2 r else s
  | _ => s
  end.

Definition strtoul (ULONG_MAX : Z) (str : string) (radix : Z)
    : Z * string * bool :=
  let s1 := skip_space str in
  let '(neg, s2) :=
    match s1 with
    | String c r => if is_sign c then (is_minus c, r) else (false, s1)
    | EmptyString => (false, s1)
    end in
  let s3 := strip_0x radix s2 in
  let '(acc, ovf, n, rest) := strtoul_digits ULONG_MAX radix s3 0 false 0 in
  match n with
  | O => (0, str, false)
  | S _ =>
      if ovf then (ULONG_MAX, rest, true)
      else ((if neg then (- acc) mod (ULONG_MAX + 1) else acc), rest, false)
  end.

(** ** [str_to_uint32] (bootimgtool.cpp, lines 334-347)

    [errno] is cleared, [strtoul] is called and its [unsigned long] result
    is stored in a [uint32_t]; the conversion is refused when [errno] is
    [ERANGE], when the string is empty or when something is left after the
    number.  The result pairs the value written to [*out] (if any) with the
    value of [errno] on return. *)
Definition str_to_uint32 (ULONG_MAX : Z) (str : string) (radix : Z)
    : option Z * Z :=
  let '(num, rest, erange) := strtoul ULONG_MAX str radix in
  let num32 := to_uint32 num in
  if erange then (None, ERANGE)
  else if is_empty str || negb (is_empty rest) then (None, 0)
  else (Some num32, 0).

Definition ULONG_MAX_32 : Z := 2 ^ 32 - 1.
Definition ULONG_MAX_64 : Z := 2 ^ 64 - 1.

(** ** [printf] conversions used for the item files *)

Definition digit_char (d : Z) : ascii :=
  ascii_of_N (Z.to_N (if d <? 10 then 48 + d else 87 + d)).

(** The [n] low hexadecimal digits of [v], most significant first, in
    front of [acc]. *)
Fixpoint hex_digits (n : nat) (v : Z) (acc : string) : string :=
  match n with
  | O => acc
  | S k => hex_digits k (v / 16) (String (digit_char (v mod 16)) acc)
  end.

(** ["%08x"] applied to an [unsigned int]: eight lower-case digits. *)
Definition fmt_08x (v : Z) : string := hex_digits 8 v "".

Fixpoint dec_digits (fuel : nat) (v : Z) (acc : string) : string :=
  match fuel with
  | O => acc
  | S k =>
      let acc' := String (digit_char (v mod 10)) acc in
      if v / 10 =? 0 then acc' else dec_digits k (v / 10) acc'
  end.

(** ["%u"] applied to an [unsigned int] (at most ten digits). *)
Definition fmt_u (v : Z) : string := dec_digits 10 v "".

Definition newline : ascii := ascii_of_N 10.
Definition nl : string := String newline "".

(** ** [fscanf] with one unsigned conversion

    The conversions ["%08x"] (field width 8, base 16) and ["%u"] (no field
    width, written [-1], base 10) as the C library performs them: white
    space is skipped and is not counted in the width; an optional sign, a
    leading [0] and, in base 16, a following [x] each use up one character
    of the width; then digits are taken while the width lasts.  The
    characters kept are converted with [strtoul] and stored in an
    [unsigned int]. *)

Inductive scan_result :=
  | ScanEOF                (* fscanf returns EOF: end of input before a number *)
  | ScanFail               (* fscanf returns 0: matching failure *)
  | ScanOK (v : Z).        (* fscanf returns 1 and stores v *)

Definition dec_width (w : Z) : Z := if 0 <? w then w - 1 else w.

Fixpoint scan_digits (radix : Z) (s : string) (width : Z) : string * string :=
  match s with
  | String c r =>
      if width =? 0 then ("", s)
      else match digit_val radix c with
           | Some _ =>
               let '(ds, rest) := scan_digits radix r (dec_width width) in
               (String c ds, rest)
           | None => ("", s)
           end
  | EmptyString => ("", s)
  end.

Definition scan_number (ULONG_MAX radix width : Z) (input : string)
    : scan_result :=
  match skip_space input with
  | EmptyString => ScanEOF
  | String c r as s0 =>
      let '(sign, s1, w1) :=
        if is_sign c then (String c "", r, dec_width width)
        else ("", s0, width) in
      let '(zero, s2, w2) :=
        match s1 with
        | String c1 r1 =>
            if negb (w1 =? 0) && (char_code c1 =? 48) then
              let w' := dec_width w1 in
              match r1 with
              | String c2 r2 =>
                  if negb (w' =? 0) && is_x c2 && (radix =? 16)
                  then ("0", r2, dec_width w')
                  else ("0", r1, w')
              | EmptyString => ("0", r1, w')
              end
            else ("", s1, w1)
        | EmptyString => ("", s1, w1)
        end in
      let '(digits, _) := scan_digits radix s2 w2 in
      let buf := sign +:+ zero +:+ digits in
      if is_empty buf || (negb (is_empty sign) && is_empty (zero +:+ digits))
      then ScanFail
      else
        let '(num, rest, _) := strtoul ULONG_MAX buf radix in
        if string_eqb rest buf then ScanFail else ScanOK (to_uint32 num)
  end.

Definition scan_08x (ULONG_MAX : Z) : string -> scan_result :=
  scan_number ULONG_MAX 16 8.

Definition scan_u (ULONG_MAX : Z) : string -> scan_result :=
  scan_number ULONG_MAX 10 (-1).

(** ** [fgets] into a zero-filled buffer, read back as a C string

    [fgets (buf, size, fp)] stores at most [size - 1] characters and stops
    after a newline; at end of file with nothing read the buffer keeps its
    zeros.  [buf.data ()] converted to [std::string] stops at the first NUL. *)

Fixpoint fgets (n : nat) (s : string) : string :=
  match n, s with
  | S k, String c r => if bool_decide (c = newline) then String c "" else String c (fgets k r)
  | _, _ => ""
  end.

Fixpoint c_str (s : string) : string :=
  match s with
  | String c r => if char_code c =? 0 then "" else String c (c_str r)
  | EmptyString => ""
  end.

(** [pos = s.find ('\n'); if (pos != npos) s.erase (pos);] *)
Fixpoint erase_from_newline (s : string) : string :=
  match s with
  | String c r => if bool_decide (c = newline) then "" else String c (erase_from_newline r)
  | EmptyString => ""
  end.

Definition read_line (size : Z) (content : string) : string :=
  erase_from_newline (c_str (fgets (Z.to_nat (size - 1)) content)).

(** ** The items

    One constructor per exchanged item, in the order of the option tables
    and of the reading and writing code.  The first twelve are the scalar
    items (two text fields, nine hexadecimal words and the decimal page
    size), the others are blobs.  [Aboot] exists only when packing. *)

Inductive item :=
  | Cmdline | Board | Base | KernelOffset | RamdiskOffset | SecondOffset
  | TagsOffset | IplAddress | RpmAddress | AppsblAddress | Entrypoint
  | PageSize
  | Kernel | Ramdisk | Second | Dt | Aboot | Ipl | Rpm | Appsbl | Sin | Sinhdr.

#[global] Instance item_eq_dec : EqDecision item.
Proof. solve_decision. Defined.

(** The file name suffix and option name of an item. *)
Definition key (i : item) : string :=
  match i with
  | Cmdline => "cmdline" | Board => "board" | Base => "base"
  | KernelOffset => "kernel_offset" | RamdiskOffset => "ramdisk_offset"
  | SecondOffset => "second_offset" | TagsOffset => "tags_offset"
  | IplAddress => "ipl_address" | RpmAddress => "rpm_address"
  | AppsblAddress => "appsbl_address" | Entrypoint => "entrypoint"
  | PageSize => "page_size"
  | Kernel => "kernel" | Ramdisk => "ramdisk" | Second => "second"
  | Dt => "dt" | Aboot => "aboot" | Ipl => "ipl" | Rpm => "rpm"
  | Appsbl => "appsbl" | Sin => "sin" | Sinhdr => "sinhdr"
  end.

Definition text_items : list item := [Cmdline; Board].

Definition hex_items : list item :=
  [Base; KernelOffset; RamdiskOffset; SecondOffset; TagsOffset;
   IplAddress; RpmAddress; AppsblAddress; Entrypoint].

Definition scalar_items : list item := text_items ++ hex_items ++ [PageSize].

Definition pack_blob_items : list item :=
  [Kernel; Ramdisk; Second; Dt; Aboot; Ipl; Rpm; Appsbl; Sin; Sinhdr].

Definition unpack_blob_items : list item :=
  [Kernel; Ramdisk; Second; Dt; Ipl; Rpm; Appsbl; Sin; Sinhdr].

Definition pack_items : list item := scalar_items ++ pack_blob_items.
Definition unpack_items : list item := scalar_items ++ unpack_blob_items.

Definition is_scalar (i : item) : bool := bool_decide (i ∈ scalar_items).

(** ** The boot image codec (libmbp)

    Modelled from the spec: the class [mbp::BootImage] is not part of the
    sources.  Its field set is the one of the spec (command line, board
    name, the four addresses kernel/ramdisk/second/tags, the addresses
    ipl/rpm/appsbl and the entry point, the page size and the ten blobs);
    the getters read a field and the setters store their argument. *)

Inductive image_type := Android | Bump | Loki | SonyElf.

#[global] Instance image_type_eq_dec : EqDecision image_type.
Proof. solve_decision. Defined.

Record BootImage := mkBootImage {
  kernelCmdline : string;
  boardName : string;
  kernelAddress : Z;
  ramdiskAddress : Z;
  secondBootloaderAddress : Z;
  kernelTagsAddress : Z;
  iplAddress : Z;
  rpmAddress : Z;
  appsblAddress : Z;
  entrypointAddress : Z;
  pageSize : Z;
  kernelImage : list byte;
  ramdiskImage : list byte;
  secondBootloaderImage : list byte;
  deviceTreeImage : list byte;
  abootImage : list byte;
  iplImage : list byte;
  rpmImage : list byte;
  appsblImage : list byte;
  sinImage : list byte;
  sinHeader : list byte;
  targetType : image_type
}.

(** Modelled from the spec: [BootImage::setAddresses] is not part of the
    sources; the spec says that the four addresses are reconstructed as
    [base + offset], in unsigned 32-bit arithmetic. *)
Definition setAddresses (base kernel_offset ramdisk_offset second_offset
    tags_offset : Z) (bi : BootImage) : BootImage :=
  mkBootImage (kernelCmdline bi) (boardName bi)
    (add32 base kernel_offset) (add32 base ramdisk_offset)
    (add32 base second_offset) (add32 base tags_offset)
    (iplAddress bi) (rpmAddress bi) (appsblAddress bi) (entrypointAddress bi)
    (pageSize bi)
    (kernelImage bi) (ramdiskImage bi) (secondBootloaderImage bi)
    (deviceTreeImage bi) (abootImage bi) (iplImage bi) (rpmImage bi)
    (appsblImage bi) (sinImage bi) (sinHeader bi) (targetType bi).

(** The other setters that [pack_main] calls, in its order: command line,
    board, page size, the ten blobs and the target type.  The addresses
    ipl/rpm/appsbl and the entry point are not among them. *)
Definition setPayload (cmdline board : string) (page_size : Z)
    (blob : item -> list byte) (type : image_type) (bi : BootImage)
    : BootImage :=
  mkBootImage cmdline board
    (kernelAddress bi) (ramdiskAddress bi) (secondBootloaderAddress bi)
    (kernelTagsAddress bi)
    (iplAddress bi) (rpmAddress bi) (appsblAddress bi) (entrypointAddress bi)
    page_size
    (blob Kernel) (blob Ramdisk) (blob Second) (blob Dt) (blob Aboot)
    (blob Ipl) (blob Rpm) (blob Appsbl) (blob Sin) (blob Sinhdr) type.

(** What the program takes from its libraries and its platform: the width
    of [unsigned long], the constants of [mbp::BootImage], a freshly
    constructed image, the codec's parser and builder, the path functions
    of libmbpio, and two things that the sources leave open: whether the C
    library passes a content on to the file during the call that writes it
    ([writeThrough]: it does when the content does not fit the buffer of
    the stream) or only at [fclose], and what a build that fails leaves in
    the output file ([leftOnFailure]: nothing, or a part of an image). *)
Record Lib := mkLib {
  ULONG_MAX : Z;
  DefaultCmdline : string;
  DefaultBoard : string;
  DefaultBase : Z;
  DefaultKernelOffset : Z;
  DefaultRamdiskOffset : Z;
  DefaultSecondOffset : Z;
  DefaultTagsOffset : Z;
  DefaultIplAddress : Z;
  DefaultRpmAddress : Z;
  DefaultAppsblAddress : Z;
  DefaultEntrypointAddress : Z;
  DefaultPageSize : Z;
  BootArgsSize : Z;
  BootNameSize : Z;
  newBootImage : BootImage;
  parseImage : string -> option BootImage;
  buildImage : BootImage -> option string;
  pathJoin : list string -> string;
  baseName : string -> string;
  createDirectories : string -> bool;
  writeThrough : string -> bool;
  leftOnFailure : BootImage -> option string
}.

(** The codec's default for a numeric item that has no file. *)
Definition default_num (L : Lib) (i : item) : Z :=
  match i with
  | Base => DefaultBase L
  | KernelOffset => DefaultKernelOffset L
  | RamdiskOffset => DefaultRamdiskOffset L
  | SecondOffset => DefaultSecondOffset L
  | TagsOffset => DefaultTagsOffset L
  | IplAddress => DefaultIplAddress L
  | RpmAddress => DefaultRpmAddress L
  | AppsblAddress => DefaultAppsblAddress L
  | Entrypoint => DefaultEntrypointAddress L
  | PageSize => DefaultPageSize L
  | _ => 0
  end.

Definition default_text (L : Lib) (i : item) : string :=
  match i with
  | Cmdline => DefaultCmdline L
  | Board => DefaultBoard L
  | _ => ""
  end.

Definition text_size (L : Lib) (i : item) : Z :=
  match i with
  | Cmdline => BootArgsSize L
  | Board => BootNameSize L
  | _ => 0
  end.

(** ** The process state *)

(** A file as the program meets it in one run, by what the C library does
    with its path in the accesses of that run: pack only reads the item
    files and unpack only writes them.

    - [NoAccess e]: [fopen] fails with [errno = e]: no permission
      ([EACCES]), a path through a missing directory ([ENOENT]), a
      directory opened for writing ([EISDIR]), and so on.
    - [Regular content]: an ordinary file on a device that works.
    - [Faulty e empty]: [fopen] succeeds and every transfer on the stream
      then fails with [errno = e]: a file on a failing or full device, a
      directory opened for reading.  [empty] tells what [ftell] gives at
      the end of the stream, which [read_file_data] takes as the size: 0
      when [empty] holds, a positive size otherwise.
    - A path with no entry does not exist; it can be created.

    A path stands for the file itself.  Two strings that name one file
    ([./x] and [x], links), devices that swallow what is written, and the
    exhaustion of memory (a size that [std::vector] cannot allocate ends
    the process with [std::bad_alloc]) are outside the model. *)
Inductive file :=
  | NoAccess (e : Z)
  | Regular (content : string)
  | Faulty (e : Z) (empty : bool).

Inductive stream := stdout | stderr.

#[global] Instance stream_eq_dec : EqDecision stream.
Proof. solve_decision. Defined.

(** What the program prints, by message. *)
Inductive msg :=
  | MainUsage
  | UnpackUsage
  | PackUsage
  | Invalid (what optarg : string)      (* "Invalid <what>: <optarg>" *)
  | AbootNeeded    (* "An aboot image must be specified to create a loki image" *)
  | PathError (path : string) (e : Z)   (* "<path>: <strerror (e)>" *)
  | FormatError (path fmt : string)     (* "<path>: Error: expected '<fmt>' format" *)
  | MkdirError (dir : string)           (* "<dir>: Failed to create directory: ..." *)
  | LoadError (path : string)           (* error_to_string (bi.error ()) *)
  | CreateError                         (* "Failed to create boot image" *)
  | FilesHeader (output : bool)         (* "Output files:" or "Input files:" *)
  | ItemPath (i : item) (path : string) (* "- <item>: (path) <path>" *)
  | ItemValue (i : item) (value : string)   (* "- <item>: (value) <value>" *)
  | Done.

(** What the program does, by call: a message printed, a call of [fopen]
    with its result, the one call of [vfprintf] or [fwrite] on a stream
    opened for writing, with what it was given and whether it reported
    success, and the calls of the codec and of [io::createDirectories]. *)
Inductive event :=
  | Print (s : stream) (m : msg)
  | Fopen (path mode : string) (ok : bool)
  | LoadFile (path : string)
  | CreateFile (bi : BootImage) (path : string)
  | Mkdirs (dir : string)
  | Fwrite (path content : string) (ok : bool).

Record world := mkWorld {
  fs : gmap string file;
  errno : Z;
  log : list event
}.

(** The program either goes on with a value or returns from the
    sub-command's main function with its boolean result. *)
Inductive outcome (A : Type) :=
  | Return (b : bool)
  | Next (a : A).
Arguments Return {A} b.
Arguments Next {A} a.

Definition prog (A : Type) : Type := world -> outcome A * world.

Definition ret {A} (a : A) : prog A := fun w => (Next a, w).

Definition bind {A B} (m : prog A) (k : A -> prog B) : prog B :=
  fun w =>
    match m w with
    | (Next a, w') => k a w'
    | (Return b, w') => (Return b, w')
    end.

Notation "x <- m ;; k" := (bind m (fun x => k))
  (at level 100, m at next level, right associativity).
Notation "m ;;; k" := (bind m (fun _ => k))
  (at level 100, right associativity).

Definition return_ {A} (b : bool) : prog A := fun w => (Return b, w).

Definition emit (e : event) : prog unit :=
  fun w => (Next tt, mkWorld (fs w) (errno w) (log w ++ [e])).

Definition fprintf (s : stream) (m : msg) : prog unit := emit (Print s m).

Definition get_errno : prog Z := fun w => (Next (errno w), w).

Definition set_errno (e : Z) : prog unit :=
  fun w => (Next tt, mkWorld (fs w) e (log w)).

Definition set_file (path : string) (f : file) : prog unit :=
  fun w => (Next tt, mkWorld (<[path := f]> (fs w)) (errno w) (log w)).

(** An open stream for reading: the content still to be read, or a stream
    whose reads fail. *)
Inductive rstream :=
  | Readable (content : string)
  | Broken (e : Z) (empty : bool).

(** [fopen (path, "rb")]: the empty path and a path with no entry fail
    with [ENOENT]. *)
Definition fopen_rb (path : string) : prog (option rstream) :=
  fun w =>
    let look := if is_empty path then None else fs w !! path in
    match look with
    | None =>
        (Next None, mkWorld (fs w) ENOENT (log w ++ [Fopen path "rb" false]))
    | Some (NoAccess e) =>
        (Next None, mkWorld (fs w) e (log w ++ [Fopen path "rb" false]))
    | Some (Regular c) =>
        (Next (Some (Readable c)),
         mkWorld (fs w) (errno w) (log w ++ [Fopen path "rb" true]))
    | Some (Faulty e empty) =>
        (Next (Some (Broken e empty)),
         mkWorld (fs w) (errno w) (log w ++ [Fopen path "rb" true]))
    end.

(** [fopen (path, "wb")]: fails on the empty path and on a file that
    cannot be opened; otherwise the stream is open, and an ordinary file is
    created or truncated. *)
Definition fopen_wb (path : string) : prog bool :=
  fun w =>
    if is_empty path then
      (Next false, mkWorld (fs w) ENOENT (log w ++ [Fopen path "wb" false]))
    else
      match fs w !! path with
      | Some (NoAccess e) =>
          (Next false, mkWorld (fs w) e (log w ++ [Fopen path "wb" false]))
      | Some (Faulty e empty) =>
          (Next true,
           mkWorld (fs w) (errno w) (log w ++ [Fopen path "wb" true]))
      | _ =>
          (Next true,
           mkWorld (<[path := Regular ""]> (fs w)) (errno w)
                   (log w ++ [Fopen path "wb" true]))
      end.

(** ** The file helpers (bootimgtool.cpp, lines 271-332) *)

(** [write_file_fmt] and [write_file_data]: open for writing, then one
    call of [vfprintf] or [fwrite], whose result is the result; [fclose] is
    the deleter of the stream and its result is not looked at.  On an
    ordinary file the content is written.  On a faulty one the transfer
    fails: the call reports it ([vfprintf] negative, [fwrite] short with
    the error indicator set) and the function returns false with [errno]
    set when the C library passes the content on during the call
    ([writeThrough]), and the function returns true with nothing written
    when the content stays in the buffer of the stream until [fclose].
    [fwrite] of no bytes returns 0, which is the size asked for. *)
Definition write_file (L : Lib) (path content : string) : prog bool :=
  ok <- fopen_wb path ;;
  if ok then
    fun w =>
      match fs w !! path with
      | Some (Faulty e _) =>
          if negb (is_empty content) && writeThrough L content
          then (Next false,
                mkWorld (fs w) e (log w ++ [Fwrite path content false]))
          else (Next true,
                mkWorld (fs w) (errno w)
                  (log w ++ [Fwrite path content true]))
      | _ =>
          (Next true,
           mkWorld (<[path := Regular content]> (fs w)) (errno w)
             (log w ++ [Fwrite path content true]))
      end
  else ret false.

Definition write_file_fmt (L : Lib) (path text : string) : prog bool :=
  write_file L path text.

Definition write_file_data (L : Lib) (path : string) (data : list byte)
    : prog bool :=
  write_file L path (string_of_list_byte data).

(** [read_file_data]: [None] is the [false] result, which leaves [*out]
    as it was.  The results of [fseek] and [ftell] are not checked: the
    size is what [ftell] gives, and the function returns true when [fread]
    returns that size.  On a faulty stream [fread] returns 0 and sets
    [errno]: the result is false, unless the size was 0, and then it is
    true with no bytes, [fread] having had nothing to transfer. *)
Definition read_file_data (path : string) : prog (option (list byte)) :=
  fp <- fopen_rb path ;;
  match fp with
  | None => ret None
  | Some (Readable c) => ret (Some (list_byte_of_string c))
  | Some (Broken e empty) =>
      if empty then ret (Some []) else set_errno e ;;; ret None
  end.

(** ** [getopt_long]

    The GNU C library function as the two sub-commands use it: an option
    string without a leading [+], [-] or [:], and a table of long options
    whose [flag] member is null.  The model returns what the successive
    calls return until [-1], each with its [optarg], and the arguments left
    at [argv[optind]] and after: the non-options are permuted behind the
    options, and [--] ends the options.  An unknown or ambiguous option, or
    a missing argument, is reported as ['?'].  With ['?'] the library also
    prints a diagnostic of its own to stderr ([opterr] is left at 1); the
    model leaves this line out, so the messages that the log holds for
    stderr are those of the program. *)

Inductive has_arg_t := no_argument | required_argument | optional_argument.

#[global] Instance has_arg_eq_dec : EqDecision has_arg_t.
Proof. solve_decision. Defined.

Record long_option := mkOption {
  opt_name : string;
  opt_has_arg : has_arg_t;
  opt_val : Z
}.

Definition opt_unknown : Z := char_code "?".

Fixpoint short_lookup (optstring : string) (c : ascii) : option has_arg_t :=
  match optstring with
  | String o r =>
      if bool_decide (o = c) && negb (bool_decide (c = ":"%char)) then
        match r with
        | String c1 (String c2 _) =>
            if bool_decide (c1 = ":"%char) then
              if bool_decide (c2 = ":"%char) then Some optional_argument
              else Some required_argument
            else Some no_argument
        | String c1 EmptyString =>
            if bool_decide (c1 = ":"%char) then Some required_argument
            else Some no_argument
        | EmptyString => Some no_argument
        end
      else short_lookup r c
  | EmptyString => None
  end.

(** The characters of one argument after its [-]: the options found, and
    the option that still waits for the next argument as its [optarg]. *)
Fixpoint short_cluster (optstring s : string)
    : list (Z * string) * option Z :=
  match s with
  | EmptyString => ([], None)
  | String c r =>
      match short_lookup optstring c with
      | None =>
          let '(evs, pending) := short_cluster optstring r in
          ((opt_unknown, "") :: evs, pending)
      | Some no_argument =>
          let '(evs, pending) := short_cluster optstring r in
          ((char_code c, "") :: evs, pending)
      | Some required_argument =>
          if is_empty r then ([], Some (char_code c))
          else ([(char_code c, r)], None)
      | Some optional_argument => ([(char_code c, r)], None)
      end
  end.

(** [name] or [name=value]. *)
Fixpoint split_eq (s : string) : string * option string :=
  match s with
  | EmptyString => ("", None)
  | String c r =>
      if bool_decide (c = "="%char) then ("", Some r)
      else let '(n, v) := split_eq r in (String c n, v)
  end.

Definition same_option (a b : long_option) : bool :=
  bool_decide (opt_has_arg a = opt_has_arg b) && (opt_val a =? opt_val b).

(** An exact name wins; otherwise the name may be abbreviated as long as
    all the options it abbreviates are the same option. *)
Definition long_lookup (longopts : list long_option) (n : string)
    : option long_option :=
  match List.find (fun o => string_eqb (opt_name o) n) longopts with
  | Some o => Some o
  | None =>
      match List.filter (fun o => String.prefix n (opt_name o)) longopts with
      | o :: others => if forallb (same_option o) others then Some o else None
      | [] => None
      end
  end.

Inductive long_result :=
  | LongEvent (opt : Z) (optarg : string)
  | LongPending (opt : Z).

Definition long_option_arg (longopts : list long_option) (s : string)
    : long_result :=
  let '(n, v) := split_eq s in
  match long_lookup longopts n with
  | None => LongEvent opt_unknown ""
  | Some o =>
      match opt_has_arg o, v with
      | no_argument, None => LongEvent (opt_val o) ""
      | no_argument, Some _ => LongEvent opt_unknown ""
      | required_argument, Some a => LongEvent (opt_val o) a
      | required_argument, None => LongPending (opt_val o)
      | optional_argument, Some a => LongEvent (opt_val o) a
      | optional_argument, None => LongEvent (opt_val o) ""
      end
  end.

Fixpoint getopt_scan (optstring : string) (longopts : list long_option)
    (args : list string) (pending : option Z)
    : list (Z * string) * list string :=
  match args with
  | [] =>
      match pending with
      | Some _ => ([(opt_unknown, "")], [])
      | None => ([], [])
      end
  | a :: rest =>
      match pending with
      | Some opt =>
          let '(evs, pos) := getopt_scan optstring longopts rest None in
          ((opt, a) :: evs, pos)
      | None =>
          let non_option :=
            let '(evs, pos) := getopt_scan optstring longopts rest None in
            (evs, a :: pos) in
          match a with
          | String c0 (String c1 r) =>
              if negb (is_dash c0) then non_option
              else if negb (is_dash c1) then
                let '(evs1, p) := short_cluster optstring (String c1 r) in
                let '(evs, pos) := getopt_scan optstring longopts rest p in
                (evs1 ++ evs, pos)
              else if is_empty r then ([], rest)
              else
                match long_option_arg longopts r with
                | LongEvent opt optarg =>
                    let '(evs, pos) :=
                      getopt_scan optstring longopts rest None in
                    ((opt, optarg) :: evs, pos)
                | LongPending opt =>
                    getopt_scan optstring longopts rest (Some opt)
                end
          | _ => non_option
          end
      end
  end.

(** [argv[0]] is not an argument. *)
Definition getopt_long (argv : list string) (optstring : string)
    (longopts : list long_option) : list (Z * string) * list string :=
  getopt_scan optstring longopts (tail argv) None.

(** ** [unpack_main] (bootimgtool.cpp, lines 349-712) *)

Definition OPT_OUTPUT (i : item) : Z :=
  match i with
  | Cmdline => 10000 + 1 | Board => 10000 + 2 | Base => 10000 + 3
  | KernelOffset => 10000 + 4 | RamdiskOffset => 10000 + 5
  | SecondOffset => 10000 + 6 | TagsOffset => 10000 + 7
  | IplAddress => 10000 + 8 | RpmAddress => 10000 + 9
  | AppsblAddress => 10000 + 10 | Entrypoint => 10000 + 11
  | PageSize => 10000 + 12
  | Kernel => 10000 + 13 | Ramdisk => 10000 + 14 | Second => 10000 + 15
  | Dt => 10000 + 16 | Ipl => 10000 + 17 | Rpm => 10000 + 18
  | Appsbl => 10000 + 19 | Sin => 10000 + 20 | Sinhdr => 10000 + 21
  | Aboot => -1
  end.

Definition unpack_optstring : string := "o:p:n".

Definition unpack_long_options : list long_option :=
  [ mkOption "output" required_argument (char_code "o");
    mkOption "prefix" required_argument (char_code "p");
    mkOption "noprefix" required_argument (char_code "n") ]
  ++ map (fun i => mkOption ("output-" +:+ key i) required_argument
                     (OPT_OUTPUT i)) unpack_items.

Record unpack_vars := mkUnpack {
  u_no_prefix : bool;
  u_output_dir : string;
  u_prefix : string;
  u_path : item -> string
}.

Definition unpack_init : unpack_vars := mkUnpack false "" "" (fun _ => "").

(** The body of the option loop. *)
Definition unpack_option (opt : Z) (optarg : string) (v : unpack_vars)
    : prog unpack_vars :=
  if opt =? char_code "o" then
    ret (mkUnpack (u_no_prefix v) optarg (u_prefix v) (u_path v))
  else if opt =? char_code "p" then
    ret (mkUnpack (u_no_prefix v) (u_output_dir v) optarg (u_path v))
  else if opt =? char_code "n" then
    ret (mkUnpack true (u_output_dir v) (u_prefix v) (u_path v))
  else
    match List.find (fun i => OPT_OUTPUT i =? opt) unpack_items with
    | Some i =>
        ret (mkUnpack (u_no_prefix v) (u_output_dir v) (u_prefix v)
               (<[i := optarg]> (u_path v)))
    | None =>
        if opt =? char_code "h" then
          fprintf stdout UnpackUsage ;;; return_ true
        else
          fprintf stderr UnpackUsage ;;; return_ false
    end.

Fixpoint unpack_options (evs : list (Z * string)) (v : unpack_vars)
    : prog unpack_vars :=
  match evs with
  | [] => ret v
  | (opt, optarg) :: r =>
      v' <- unpack_option opt optarg v ;; unpack_options r v'
  end.

(** The prefix in front of the item names (lines 481-488, 1025-1032). *)
Definition effective_prefix (L : Lib) (no_prefix : bool)
    (prefix image_file : string) : string :=
  if no_prefix then ""
  else (if is_empty prefix then baseName L image_file else prefix) +:+ "-".

Definition effective_dir (dir : string) : string :=
  if is_empty dir then "." else dir.

Definition default_path (L : Lib) (dir prefix : string) (i : item) : string :=
  pathJoin L [dir; prefix +:+ key i].

(** [if (path_x.empty ()) path_x = io::pathJoin ({dir, prefix + "x"});] *)
Definition resolve_path (L : Lib) (dir prefix : string)
    (path : item -> string) (i : item) : item -> string :=
  if is_empty (path i) then <[i := default_path L dir prefix i]> path
  else path.

Definition unpack_paths (L : Lib) (dir prefix : string)
    (path : item -> string) : item -> string :=
  fold_left (resolve_path L dir prefix) unpack_items path.

(** The offsets written by unpack (lines 576-581). *)
Definition unpack_base (L : Lib) (bi : BootImage) : Z :=
  sub32 (kernelAddress bi) (DefaultKernelOffset L).

Definition unpack_num (L : Lib) (bi : BootImage) (i : item) : Z :=
  match i with
  | Base => unpack_base L bi
  | KernelOffset => DefaultKernelOffset L
  | RamdiskOffset => sub32 (ramdiskAddress bi) (unpack_base L bi)
  | SecondOffset => sub32 (secondBootloaderAddress bi) (unpack_base L bi)
  | TagsOffset => sub32 (kernelTagsAddress bi) (unpack_base L bi)
  | IplAddress => iplAddress bi
  | RpmAddress => rpmAddress bi
  | AppsblAddress => appsblAddress bi
  | Entrypoint => entrypointAddress bi
  | PageSize => pageSize bi
  | _ => 0
  end.

(** What [write_file_fmt] prints for a scalar item. *)
Definition unpack_text (L : Lib) (bi : BootImage) (i : item) : string :=
  match i with
  | Cmdline => c_str (kernelCmdline bi) +:+ nl
  | Board => c_str (boardName bi) +:+ nl
  | PageSize => fmt_u (unpack_num L bi i) +:+ nl
  | _ => fmt_08x (unpack_num L bi i) +:+ nl
  end.

Definition image_blob (bi : BootImage) (i : item) : list byte :=
  match i with
  | Kernel => kernelImage bi
  | Ramdisk => ramdiskImage bi
  | Second => secondBootloaderImage bi
  | Dt => deviceTreeImage bi
  | Aboot => abootImage bi
  | Ipl => iplImage bi
  | Rpm => rpmImage bi
  | Appsbl => appsblImage bi
  | Sin => sinImage bi
  | Sinhdr => sinHeader bi
  | _ => []
  end.

(** One "write or report and return false" block. *)
Definition write_item (path : string) (w : prog bool) : prog unit :=
  ok <- w ;;
  if ok then ret tt
  else e <- get_errno ;; fprintf stderr (PathError path e) ;;; return_ false.

Fixpoint for_each {A} (f : A -> prog unit) (l : list A) : prog unit :=
  match l with
  | [] => ret tt
  | a :: r => f a ;;; for_each f r
  end.

(** Modelled from the spec: [BootImage::loadFile] is not part of the
    sources.  The spec gives the codec a parse operation that decodes an
    existing image file into the field set, or reports an error. *)
Definition loadFile (L : Lib) (path : string) : prog (option BootImage) :=
  emit (LoadFile path) ;;;
  fun w =>
    match fs w !! path with
    | Some (Regular c) => (Next (parseImage L c), w)
    | _ => (Next None, w)
    end.

Definition unpack_main (L : Lib) (argv : list string) : prog bool :=
  let '(evs, args) := getopt_long argv unpack_optstring unpack_long_options in
  v <- unpack_options evs unpack_init ;;
  match args with
  | [input_file] =>
      let prefix :=
        effective_prefix L (u_no_prefix v) (u_prefix v) input_file in
      let output_dir := effective_dir (u_output_dir v) in
      let path := unpack_paths L output_dir prefix (u_path v) in
      fprintf stdout (FilesHeader true) ;;;
      for_each (fun i => fprintf stdout (ItemPath i (path i))) unpack_items ;;;
      emit (Mkdirs output_dir) ;;;
      if createDirectories L output_dir then
        obi <- loadFile L input_file ;;
        match obi with
        | Some bi =>
            for_each (fun i =>
              write_item (path i)
                (write_file_fmt L (path i) (unpack_text L bi i)))
              scalar_items ;;;
            for_each (fun i =>
              write_item (path i)
                (write_file_data L (path i) (image_blob bi i)))
              unpack_blob_items ;;;
            fprintf stdout Done ;;;
            ret true
        | None => fprintf stderr (LoadError input_file) ;;; return_ false
        end
      else fprintf stderr (MkdirError output_dir) ;;; return_ false
  | _ => fprintf stderr UnpackUsage ;;; return_ false
  end.

(** ** [pack_main] (bootimgtool.cpp, lines 714-1466) *)

Definition OPT_INPUT (i : item) : Z :=
  match i with
  | Cmdline => 10000 + 1 | Board => 10000 + 2 | Base => 10000 + 3
  | KernelOffset => 10000 + 4 | RamdiskOffset => 10000 + 5
  | SecondOffset => 10000 + 6 | TagsOffset => 10000 + 7
  | IplAddress => 10000 + 8 | RpmAddress => 10000 + 9
  | AppsblAddress => 10000 + 10 | Entrypoint => 10000 + 11
  | PageSize => 10000 + 12
  | Kernel => 10000 + 13 | Ramdisk => 10000 + 14 | Second => 10000 + 15
  | Dt => 10000 + 16 | Aboot => 10000 + 17 | Ipl => 10000 + 18
  | Rpm => 10000 + 19 | Appsbl => 10000 + 20 | Sin => 10000 + 21
  | Sinhdr => 10000 + 22
  end.

(** Only the scalar items have a value option. *)
Definition OPT_VALUE (i : item) : Z :=
  match i with
  | Cmdline => 20000 + 1 | Board => 20000 + 2 | Base => 20000 + 3
  | KernelOffset => 20000 + 4 | RamdiskOffset => 20000 + 5
  | SecondOffset => 20000 + 6 | TagsOffset => 20000 + 7
  | IplAddress => 20000 + 8 | RpmAddress => 20000 + 9
  | AppsblAddress => 20000 + 10 | Entrypoint => 20000 + 11
  | PageSize => 20000 + 12
  | _ => -1
  end.

Definition pack_optstring : string := "i:p:nt:".

Definition pack_long_options : list long_option :=
  [ mkOption "input" required_argument (char_code "i");
    mkOption "prefix" required_argument (char_code "p");
    mkOption "noprefix" required_argument (char_code "n");
    mkOption "type" required_argument (char_code "t") ]
  ++ map (fun i => mkOption ("input-" +:+ key i) required_argument
                     (OPT_INPUT i)) pack_items
  ++ map (fun i => mkOption ("value-" +:+ key i) required_argument
                     (OPT_VALUE i)) scalar_items.

(** The local variables of [pack_main]: the [path_x] strings by item, the
    map [values], the texts [cmdline] and [board], the numbers [base] to
    [page_size] ([num], which C leaves uninitialised and the code never
    reads before it writes them), the blobs and the type. *)
Record pack_vars := mkPack {
  no_prefix : bool;
  input_dir : string;
  prefix : string;
  path : item -> string;
  values : gmap Z bool;
  text : item -> string;
  num : item -> Z;
  blob : item -> list byte;
  type : image_type
}.

Definition pack_init : pack_vars :=
  mkPack false "" "" (fun _ => "") ∅ (fun _ => "") (fun _ => 0)
         (fun _ => []) Android.

Definition set_path (p : item -> string) (v : pack_vars) : pack_vars :=
  mkPack (no_prefix v) (input_dir v) (prefix v) p (values v) (text v)
         (num v) (blob v) (type v).

Definition set_text (i : item) (t : string) (v : pack_vars) : pack_vars :=
  mkPack (no_prefix v) (input_dir v) (prefix v) (path v) (values v)
         (<[i := t]> (text v)) (num v) (blob v) (type v).

Definition set_num (i : item) (n : Z) (v : pack_vars) : pack_vars :=
  mkPack (no_prefix v) (input_dir v) (prefix v) (path v) (values v) (text v)
         (<[i := n]> (num v)) (blob v) (type v).

Definition set_blob (i : item) (d : list byte) (v : pack_vars) : pack_vars :=
  mkPack (no_prefix v) (input_dir v) (prefix v) (path v) (values v) (text v)
         (num v) (<[i := d]> (blob v)) (type v).

(** [path_x.clear (); values[opt] = true;] *)
Definition set_value_flag (i : item) (opt : Z) (v : pack_vars) : pack_vars :=
  mkPack (no_prefix v) (input_dir v) (prefix v) (<[i := ""]> (path v))
         (<[opt := true]> (values v)) (text v) (num v) (blob v) (type v).

(** [values[k]] as a condition: a key that was never set reads as false. *)
Definition has_value (v : pack_vars) (k : Z) : bool :=
  default false (values v !! k).

Definition value_radix (i : item) : Z :=
  if bool_decide (i = PageSize) then 10 else 16.

Definition parse_type (optarg : string) : option image_type :=
  if string_eqb optarg "android" then Some Android
  else if string_eqb optarg "bump" then Some Bump
  else if string_eqb optarg "loki" then Some Loki
  else if string_eqb optarg "sonyelf" then Some SonyElf
  else None.

(** The body of the option loop (lines 858-1009). *)
Definition pack_option (L : Lib) (opt : Z) (optarg : string) (v : pack_vars)
    : prog pack_vars :=
  if opt =? char_code "i" then
    ret (mkPack (no_prefix v) optarg (prefix v) (path v) (values v) (text v)
           (num v) (blob v) (type v))
  else if opt =? char_code "p" then
    ret (mkPack (no_prefix v) (input_dir v) optarg (path v) (values v)
           (text v) (num v) (blob v) (type v))
  else if opt =? char_code "n" then
    ret (mkPack true (input_dir v) (prefix v) (path v) (values v) (text v)
           (num v) (blob v) (type v))
  else
    match List.find (fun i => OPT_INPUT i =? opt) pack_items with
    | Some i => ret (set_path (<[i := optarg]> (path v)) v)
    | None =>
        match List.find (fun i => OPT_VALUE i =? opt) scalar_items with
        | Some i =>
            let v1 := set_value_flag i opt v in
            if bool_decide (i ∈ text_items) then ret (set_text i optarg v1)
            else
              let '(r, e) :=
                str_to_uint32 (ULONG_MAX L) optarg (value_radix i) in
              set_errno e ;;;
              match r with
              | Some n => ret (set_num i n v1)
              | None =>
                  fprintf stderr (Invalid (key i) optarg) ;;; return_ false
              end
        | None =>
            if opt =? char_code "t" then
              match parse_type optarg with
              | Some t =>
                  ret (mkPack (no_prefix v) (input_dir v) (prefix v) (path v)
                         (values v) (text v) (num v) (blob v) t)
              | None => fprintf stderr (Invalid "type" optarg) ;;; return_ false
              end
            else if opt =? char_code "h" then
              fprintf stdout PackUsage ;;; return_ true
            else
              fprintf stderr PackUsage ;;; return_ false
        end
    end.

Fixpoint pack_options (L : Lib) (evs : list (Z * string)) (v : pack_vars)
    : prog pack_vars :=
  match evs with
  | [] => ret v
  | (opt, optarg) :: r =>
      v' <- pack_option L opt optarg v ;; pack_options L r v'
  end.

(** [if (path_x.empty () && !values[OPT_VALUE_X]) path_x = ...] *)
Definition resolve_scalar_path (L : Lib) (dir pfx : string)
    (v : pack_vars) (p : item -> string) (i : item) : item -> string :=
  if is_empty (p i) && negb (has_value v (OPT_VALUE i))
  then <[i := default_path L dir pfx i]> p
  else p.

(** The default paths (lines 1038-1079): the twelve scalar items, then
    kernel, ramdisk, second, dt, ipl, rpm, appsbl, sin and sinhdr. *)
Definition pack_paths (L : Lib) (dir pfx : string) (v : pack_vars)
    : item -> string :=
  fold_left (resolve_path L dir pfx) unpack_blob_items
    (fold_left (resolve_scalar_path L dir pfx v) scalar_items (path v)).

(** The listing of the inputs (lines 1081-1139). *)
Definition show_value (v : pack_vars) (i : item) : string :=
  if bool_decide (i ∈ text_items) then text v i
  else if bool_decide (i = PageSize) then fmt_u (num v i)
  else fmt_08x (num v i).

Definition pack_listing (v : pack_vars) : prog unit :=
  fprintf stdout (FilesHeader false) ;;;
  for_each (fun i =>
    if negb (is_empty (path v i)) then fprintf stdout (ItemPath i (path v i))
    else fprintf stdout (ItemValue i (show_value v i))) scalar_items ;;;
  for_each (fun i => fprintf stdout (ItemPath i (path v i))) unpack_blob_items.

(** Reading a text item (lines 1146-1188). *)
Definition read_text (L : Lib) (i : item) (v : pack_vars) : prog pack_vars :=
  if has_value v (OPT_VALUE i) then ret v
  else
    fp <- fopen_rb (path v i) ;;
    match fp with
    | Some (Readable c) => ret (set_text i (read_line (text_size L i) c) v)
    | Some (Broken e _) =>
        set_errno e ;;;
        fprintf stderr (PathError (path v i) e) ;;; return_ false
    | None => ret (set_text i (default_text L i) v)
    end.

(** Reading a numeric item (lines 1190-1378): [scan] is [fscanf] with the
    item's format. *)
Definition scan_format (i : item) : string :=
  if bool_decide (i = PageSize) then "%u" else "%08x".

Definition scan_item (L : Lib) (i : item) : string -> scan_result :=
  if bool_decide (i = PageSize) then scan_u (ULONG_MAX L)
  else scan_08x (ULONG_MAX L).

Definition read_num (L : Lib) (i : item) (v : pack_vars) : prog pack_vars :=
  if has_value v (OPT_VALUE i) then ret v
  else
    fp <- fopen_rb (path v i) ;;
    match fp with
    | Some (Readable c) =>
        match scan_item L i c with
        | ScanOK n => ret (set_num i n v)
        | _ =>
            fprintf stderr (FormatError (path v i) (scan_format i)) ;;;
            return_ false
        end
    | Some (Broken e _) =>
        set_errno e ;;;
        fprintf stderr (PathError (path v i) e) ;;; return_ false
    | None => ret (set_num i (default_num L i) v)
    end.

Definition read_scalar (L : Lib) (i : item) (v : pack_vars) : prog pack_vars :=
  if bool_decide (i ∈ text_items) then read_text L i v else read_num L i v.

(** Reading a blob (lines 1380-1438): kernel and ramdisk must be read;
    for the others a failure with [errno == ENOENT] is passed over. *)
Definition required_blob (i : item) : bool :=
  bool_decide (i = Kernel) || bool_decide (i = Ramdisk).

Definition read_blob (i : item) (v : pack_vars) : prog pack_vars :=
  r <- read_file_data (path v i) ;;
  match r with
  | Some d => ret (set_blob i d v)
  | None =>
      e <- get_errno ;;
      if required_blob i || negb (e =? ENOENT) then
        fprintf stderr (PathError (path v i) e) ;;; return_ false
      else ret v
  end.

Fixpoint read_all (f : item -> pack_vars -> prog pack_vars) (l : list item)
    (v : pack_vars) : prog pack_vars :=
  match l with
  | [] => ret v
  | i :: r => v' <- f i v ;; read_all f r v'
  end.

(** The image handed to the codec (lines 1440-1455). *)
Definition pack_image (L : Lib) (v : pack_vars) : BootImage :=
  setPayload (text v Cmdline) (text v Board) (num v PageSize) (blob v) (type v)
    (setAddresses (num v Base) (num v KernelOffset) (num v RamdiskOffset)
       (num v SecondOffset) (num v TagsOffset) (newBootImage L)).

(** Modelled from the spec: [BootImage::createFile] is not part of the
    sources.  The spec gives the codec a build operation that encodes the
    field set and writes the new image to the output path, or reports an
    error, and says that after a failure no partial output file is
    guaranteed removed: a build that fails may leave a part of an image in
    the output file. *)
Definition createFile (L : Lib) (bi : BootImage) (output_file : string)
    : prog bool :=
  emit (CreateFile bi output_file) ;;;
  match buildImage L bi with
  | Some c => set_file output_file (Regular c) ;;; ret true
  | None =>
      match leftOnFailure L bi with
      | Some c => set_file output_file (Regular c) ;;; ret false
      | None => ret false
      end
  end.

(** What follows the option loop. *)
Definition pack_run (L : Lib) (v : pack_vars) (args : list string)
    : prog bool :=
  if bool_decide (type v = Loki) && is_empty (path v Aboot) then
    fprintf stderr AbootNeeded ;;; return_ false
  else
    match args with
    | [output_file] =>
        let pfx := effective_prefix L (no_prefix v) (prefix v) output_file in
        let dir := effective_dir (input_dir v) in
        let v := set_path (pack_paths L dir pfx v) v in
        pack_listing v ;;;
        v <- read_all (read_scalar L) scalar_items v ;;
        v <- read_all read_blob pack_blob_items v ;;
        ok <- createFile L (pack_image L v) output_file ;;
        if ok then fprintf stdout Done ;;; ret true
        else fprintf stderr CreateError ;;; return_ false
    | _ => fprintf stderr PackUsage ;;; return_ false
    end.

Definition pack_main (L : Lib) (argv : list string) : prog bool :=
  let '(evs, args) := getopt_long argv pack_optstring pack_long_options in
  v <- pack_options L evs pack_init ;;
  pack_run L v args.

(** ** [main] (lines 1468-1489): the exit status *)

Definition EXIT_SUCCESS : Z := 0.
Definition EXIT_FAILURE : Z := 1.

Definition exit_status {A} (r : outcome A * world) (ok : A -> bool) : Z :=
  match fst r with
  | Return b => if b then EXIT_SUCCESS else EXIT_FAILURE
  | Next a => if ok a then EXIT_SUCCESS else EXIT_FAILURE
  end.

Definition main (L : Lib) (argv : list string) (w : world) : Z * world :=
  match argv with
  | _ :: command :: _ =>
      if string_eqb command "unpack" then
        let r := unpack_main L (tail argv) w in
        (exit_status r (fun b => b), snd r)
      else if string_eqb command "pack" then
        let r := pack_main L (tail argv) w in
        (exit_status r (fun b => b), snd r)
      else
        (EXIT_FAILURE, snd (fprintf stderr MainUsage w))
  | _ => (EXIT_FAILURE, snd (fprintf stdout MainUsage w))
  end.

(** ** A concrete library for the examples

    Modelled from the spec: [io::pathJoin] and [io::baseName] (libmbpio) are
    not part of the sources.  The spec joins the directory and the file
    name into one path, and its examples give [out/boot.img-kernel] for the
    directory [out/]: the separator is not doubled.  The base name is the
    last component of a path. *)

Fixpoint ends_with_slash (s : string) : bool :=
  match s with
  | String c EmptyString => bool_decide (c = "/"%char)
  | String _ r => ends_with_slash r
  | EmptyString => false
  end.

Fixpoint spec_pathJoin (components : list string) : string :=
  match components with
  | [] => ""
  | [a] => a
  | a :: r =>
      if ends_with_slash a then a +:+ spec_pathJoin r
      else a +:+ "/" +:+ spec_pathJoin r
  end.

(** The characters after the last [/]: [acc] holds the component read so
    far. *)
Fixpoint last_component (s acc : string) : string :=
  match s with
  | String c r =>
      if bool_decide (c = "/"%char) then last_component r ""
      else last_component r (acc +:+ String c "")
  | EmptyString => acc
  end.

Definition spec_baseName (path : string) : string := last_component path "".

(** A stand-in for the codec: an image file is the text [ANDROID!], which
    parses to [demo_image]; every image can be built.  The constants are
    libmbp's usual ones. *)
Definition demo_image : BootImage :=
  mkBootImage "console=ttyS0" "herolte"
    268468224 16777216 4293918720 268435712
    0 0 0 0 2048
    (list_byte_of_string "KERNEL") (list_byte_of_string "RAMDISK") [] [] []
    [] [] [] [] [] Android.

Definition demo_new_image : BootImage :=
  mkBootImage "" "" 268468224 285212672 284164096 268435712 0 0 0 0 2048
    [] [] [] [] [] [] [] [] [] [] Android.

Definition demo_lib (ulong_max : Z) : Lib :=
  mkLib ulong_max "" "" 268435456 32768 16777216 15728640 256 0 0 0 0 2048
    512 16 demo_new_image
    (fun c => if string_eqb c "ANDROID!" then Some demo_image else None)
    (fun _ => Some "ANDROID!")
    spec_pathJoin spec_baseName (fun _ => true)
    (fun c => Nat.leb 4096 (String.length c)) (fun _ => None).

Definition lib64 : Lib := demo_lib ULONG_MAX_64.
Definition lib32 : Lib := demo_lib ULONG_MAX_32.

Definition world0 (files : list (string * file)) : world :=
  mkWorld (list_to_map files) 0 [].

(** The paths opened successfully, in order. *)
Definition opened (l : list event) : list string :=
  omap (fun e => match e with
                 | Fopen p _ true => Some p
                 | _ => None
                 end) l.

(** The images handed to the codec. *)
Definition created (l : list event) : list BootImage :=
  omap (fun e => match e with
                 | CreateFile bi _ => Some bi
                 | _ => None
                 end) l.

Definition printed (s : stream) (l : list event) : list msg :=
  omap (fun e => match e with
                 | Print s' m => if bool_decide (s' = s) then Some m else None
                 | _ => None
                 end) l.

Definition is_print (e : event) : bool :=
  match e with Print _ _ => true | _ => false end.

(** ** Reading a command line

    The argument of the last occurrence of an option among what
    [getopt_long] returned. *)
Fixpoint last_arg (code : Z) (evs : list (Z * string)) : option string :=
  match evs with
  | [] => None
  | (c, a) :: r =>
      match last_arg code r with
      | Some x => Some x
      | None => if c =? code then Some a else None
      end
  end.

(** The literal of a value option as the item's value. *)
Definition holds_literal (L : Lib) (v : pack_vars) (i : item) (lit : string)
    : Prop :=
  if bool_decide (i ∈ text_items) then text v i = lit
  else fst (str_to_uint32 (ULONG_MAX L) lit (value_radix i)) = Some (num v i).

(** The file that the reading step of a scalar item opens, if any. *)
Definition read_target (v : pack_vars) (i : item) : option string :=
  if has_value v (OPT_VALUE i) then None else Some (path v i).

(** The paths of all calls of [fopen], in order. *)
Definition fopens (l : list event) : list string :=
  omap (fun e => match e with
                 | Fopen p _ _ => Some p
                 | _ => None
                 end) l.

(** Two worlds with the same files and the same images created. *)
Definition quiet (w w' : world) : Prop :=
  fs w' = fs w /\ created (log w') = created (log w).

(** A path at which [fopen] finds no file. *)
Definition missing (w : world) (path : string) : Prop :=
  path = "" \/ fs w !! path = None.

(** The paths that pack uses for an output file [f]. *)
Definition resolved (L : Lib) (v : pack_vars) (f : string) : pack_vars :=
  set_path
    (pack_paths L (effective_dir (input_dir v))
       (effective_prefix L (no_prefix v) (prefix v) f) v) v.

Definition required_items : list item := [Kernel; Ramdisk].

(** The values that [getopt_long] can return for an option string and a
    table of long options: ['?'], a character of the option string, or the
    [val] of a long option. *)
Definition returns (optstring : string) (longopts : list long_option)
    (c : Z) : Prop :=
  c = opt_unknown \/
  (exists ch x, short_lookup optstring ch = Some x /\ c = char_code ch) \/
  (exists o, o ∈ longopts /\ c = opt_val o).

(** The variables after pack's option loop on a command line. *)
Definition parsed (L : Lib) (argv : list string) : pack_vars :=
  match pack_options L (fst (getopt_long argv pack_optstring pack_long_options))
          pack_init (world0 []) with
  | (Next v, _) => v
  | _ => pack_init
  end.

Definition argv_value_then_path : list string :=
  ["pack"; "out.img"; "--value-base"; "20000000"; "--input-base"; "/no/base"].

Definition argv_path_then_value : list string :=
  ["pack"; "out.img"; "--input-base"; "/no/base"; "--value-base"; "20000000"].

Definition argv_path_only : list string :=
  ["pack"; "out.img"; "--input-base"; "/no/base"].

Definition argv_plain : list string := ["pack"; "out.img"].

(** The paths created or truncated by [fopen (path, "wb")], in order. *)
Definition written (l : list event) : list string :=
  omap (fun e => match e with
                 | Fopen p "wb" true => Some p
                 | _ => None
                 end) l.

Definition boot_img : world := world0 [("boot.img", Regular "ANDROID!")].

(** ** Hexadecimal texts *)

Definition isxdigit (c : ascii) : bool :=
  match xdigit_val c with Some _ => true | None => false end.

Fixpoint all_xdigits (s : string) : bool :=
  match s with
  | String c r => isxdigit c && all_xdigits r
  | EmptyString => true
  end.

(** The number that a string of hexadecimal digits denotes. *)
Fixpoint hex_acc (a : Z) (s : string) : Z :=
  match s with
  | String c r => hex_acc (a * 16 + default 0 (xdigit_val c)) r
  | EmptyString => a
  end.

Definition hex_value (s : string) : Z := hex_acc 0 s.

(** What may follow the digits of a number in a file: nothing, or a
    character that is neither a digit nor an [x] (a newline, say). *)
Definition ends_number (rest : string) : bool :=
  match rest with
  | String c _ => negb (isxdigit c) && negb (is_x c)
  | EmptyString => true
  end.

(** A content in which [fscanf] finds no number: after the white space
    and an optional sign, the end of the file or a character that is no
    hexadecimal digit. *)
Definition lacks_number (content : string) : bool :=
  match skip_space content with
  | EmptyString => true
  | String c r =>
      if is_sign c then
        match r with
        | String d _ => negb (isxdigit d)
        | EmptyString => true
        end
      else negb (isxdigit c)
  end.

Definition address_items : list item :=
  [Base; KernelOffset; RamdiskOffset; SecondOffset; TagsOffset].

(** The numbers unpack writes for [demo_image], whose ramdisk address lies
    below the base. *)
Definition demo_packed : pack_vars :=
  mkPack false "" "" (fun _ => "") ∅ (fun _ => "") (unpack_num lib64 demo_image)
         (fun _ => []) Android.

Definition kernel_and_ramdisk : list (string * file) :=
  [("./out.img-kernel", Regular "KERNEL");
   ("./out.img-ramdisk", Regular "RAMDISK")].

Definition scalar_default (L : Lib) (i : item) (v : pack_vars) : pack_vars :=
  if bool_decide (i ∈ text_items) then set_text i (default_text L i) v
  else set_num i (default_num L i) v.

Definition base_unreadable : world :=
  world0 (("./out.img-base", NoAccess EACCES) :: kernel_and_ramdisk).

Definition with_base_path : pack_vars :=
  set_path (<[Base := "./out.img-base"]> (path pack_init)) pack_init.

(** What one option does to the variables when the loop goes on. *)
Record option_effect (L : Lib) (c : Z) (a : string) (v v' : pack_vars) := {
  eff_path : forall X,
    path v' X =
      if bool_decide (c = OPT_INPUT X) then a
      else if bool_decide (c = OPT_VALUE X /\ X ∈ scalar_items) then ""
      else path v X;
  eff_flag : forall X, X ∈ scalar_items ->
    has_value v' (OPT_VALUE X)
    = bool_decide (c = OPT_VALUE X) || has_value v (OPT_VALUE X);
  eff_text : forall X, X ∈ text_items ->
    text v' X = if bool_decide (c = OPT_VALUE X) then a else text v X;
  eff_num : forall X, X ∈ scalar_items -> X ∉ text_items ->
    if bool_decide (c = OPT_VALUE X)
    then fst (str_to_uint32 (ULONG_MAX L) a (value_radix X)) = Some (num v' X)
    else num v' X = num v X;
  eff_blob : blob v' = blob v;
  eff_type :
    if c =? char_code "t" then parse_type a = Some (type v')
    else type v' = type v
}.

Definition empty_kernel : world :=
  world0 [("./out.img-kernel", Regular "")].

Definition out_img_vars : pack_vars := resolved lib64 pack_init "out.img".

Definition short_base : world :=
  world0 (("./out.img-base", Regular "1234") :: kernel_and_ramdisk).

Definition with_short_base : pack_vars := resolved lib64 pack_init "out.img".

(** ** Decimal texts *)

Definition isdigit (c : ascii) : bool :=
  let n := char_code c in (48 <=? n) && (n <=? 57).

Fixpoint all_digits (s : string) : bool :=
  match s with
  | String c r => isdigit c && all_digits r
  | EmptyString => true
  end.

(** The number that a string of decimal digits denotes. *)
Fixpoint dec_acc (a : Z) (s : string) : Z :=
  match s with
  | String c r => dec_acc (a * 10 + (char_code c - 48)) r
  | EmptyString => a
  end.

Definition dec_value (s : string) : Z := dec_acc 0 s.

(** What may follow the digits of a decimal number: nothing, or a character
    that is no hexadecimal digit (a newline, say). *)
Definition ends_decimal (rest : string) : bool :=
  match rest with
  | String c _ => negb (isxdigit c)
  | EmptyString => true
  end.

(** The first [n] characters of a string. *)
Fixpoint string_take (n : nat) (s : string) : string :=
  match n, s with
  | S k, String c r => String c (string_take k r)
  | _, _ => ""
  end.

(** A text without NUL characters. *)
Fixpoint no_nul (s : string) : bool :=
  match s with
  | String c r => negb (char_code c =? 0) && no_nul r
  | EmptyString => true
  end.

(** A text without newlines. *)
Fixpoint no_newline (s : string) : bool :=
  match s with
  | String c r => negb (bool_decide (c = newline)) && no_newline r
  | EmptyString => true
  end.

(** The text field of an image that a text item holds. *)
Definition image_text (bi : BootImage) (i : item) : string :=
  match i with
  | Cmdline => kernelCmdline bi
  | Board => boardName bi
  | _ => ""
  end.

Definition numeric_items : list item := hex_items ++ [PageSize].

Definition after_unpack : world :=
  snd (unpack_main lib64 ["unpack"; "boot.img"; "-o"; "out/"] boot_img).

Definition boot_img_vars : pack_vars :=
  resolved lib64 (parsed lib64 ["pack"; "boot.img"; "-i"; "out/"]) "boot.img".

(** A file that [fopen] cannot open, with an error other than "no such
    file". *)
Definition unopenable (w : world) (path : string) (e : Z) : Prop :=
  path <> "" /\ e <> ENOENT /\ fs w !! path = Some (NoAccess e).

Definition dt_unopenable : world :=
  world0 (("./out.img-dt", NoAccess EACCES) :: kernel_and_ramdisk).

(** The paths that unpack uses for an input file. *)
Definition unpack_resolved (L : Lib) (v : unpack_vars) (input_file : string)
    : item -> string :=
  unpack_paths L (effective_dir (u_output_dir v))
    (effective_prefix L (u_no_prefix v) (u_prefix v) input_file) (u_path v).

(** What unpack writes to the file of an item. *)
Definition item_content (L : Lib) (bi : BootImage) (i : item) : string :=
  if bool_decide (i ∈ scalar_items) then unpack_text L bi i
  else string_of_list_byte (image_blob bi i).

(** One block of unpack's writing code. *)
Definition write_block (L : Lib) (path content : item -> string) (i : item)
    : prog unit :=
  write_item (path i) (write_file L (path i) (content i)).

(** The path and the content of a call of [vfprintf] or [fwrite] that
    reported success. *)
Definition sent (e : event) : option (string * string) :=
  match e with
  | Fwrite p c true => Some (p, c)
  | _ => None
  end.

(** What was handed to the files opened for writing, in order. *)
Definition writes (l : list event) : list (string * string) := omap sent l.

(** The path that an event created or truncated, if any. *)
Definition wrote (e : event) : option string :=
  match e with
  | Fopen p mode true => if string_eqb mode "wb" then Some p else None
  | _ => None
  end.

(** An event that opens no file for writing and writes to none. *)
Definition no_output (e : event) : Prop := wrote e = None /\ sent e = None.

(** What [unpack_main] does after its option loop, for one input file. *)
Definition unpack_body (L : Lib) (v : unpack_vars) (input_file : string)
    : prog bool :=
  let path := unpack_resolved L v input_file in
  let output_dir := effective_dir (u_output_dir v) in
  fprintf stdout (FilesHeader true) ;;;
  for_each (fun i => fprintf stdout (ItemPath i (path i))) unpack_items ;;;
  emit (Mkdirs output_dir) ;;;
  if createDirectories L output_dir then
    obi <- loadFile L input_file ;;
    match obi with
    | Some bi =>
        for_each (write_block L path (unpack_text L bi)) scalar_items ;;;
        for_each (write_block L path
                    (fun i => string_of_list_byte (image_blob bi i)))
          unpack_blob_items ;;;
        fprintf stdout Done ;;;
        ret true
    | None => fprintf stderr (LoadError input_file) ;;; return_ false
    end
  else fprintf stderr (MkdirError output_dir) ;;; return_ false.

(** The image that [loadFile] finds in a file, if any. *)
Definition loaded (L : Lib) (w : world) (input_file : string)
    : option BootImage :=
  match fs w !! input_file with
  | Some (Regular c) => parseImage L c
  | _ => None
  end.


(** The files that unpack is to write for a command line, in the order of
    the writing; none when the command line is refused. *)
Definition unpack_plan (L : Lib) (argv : list string) (w : world)
    : list string :=
  match getopt_long argv unpack_optstring unpack_long_options with
  | (evs, [input_file]) =>
      match unpack_options evs unpack_init w with
      | (Next v, _) => map (unpack_resolved L v input_file) unpack_items
      | _ => []
      end
  | _ => []
  end.

(** Whether unpack gets as far as its writing code: the command line is
    accepted, the output directory is made and the codec parses the input
    file. *)
Definition unpack_ready (L : Lib) (argv : list string) (w : world) : bool :=
  match getopt_long argv unpack_optstring unpack_long_options with
  | (evs, [input_file]) =>
      match unpack_options evs unpack_init w with
      | (Next v, _) =>
          createDirectories L (effective_dir (u_output_dir v)) &&
          match loaded L w input_file with Some _ => true | None => false end
      | _ => false
      end
  | _ => false
  end.

(** An output directory in which the file of the base cannot be created. *)
Definition base_unwritable : world :=
  world0 [("boot.img", Regular "ANDROID!");
          ("out/boot.img-base", NoAccess EACCES)].

(** The four numbers that pack reads and lists but hands to no setter. *)
Definition unused_items : list item :=
  [IplAddress; RpmAddress; AppsblAddress; Entrypoint].


(** The text that pack reads back from the file unpack wrote for a text
    item: up to the first NUL or newline, cut to the field size less one. *)
Definition read_back (L : Lib) (bi : BootImage) (i : item) : string :=
  string_take (Z.to_nat (text_size L i - 1))
    (erase_from_newline (c_str (image_text bi i))).

(** The variables after pack has read the file unpack wrote for a scalar
    item. *)
Definition scalar_read_back (L : Lib) (bi : BootImage) (i : item)
    (v : pack_vars) : pack_vars :=
  if bool_decide (i ∈ text_items) then set_text i (read_back L bi i) v
  else set_num i (unpack_num L bi i) v.

(** The blobs after pack has read the files unpack wrote: aboot has no
    file of unpack's. *)
Definition blobs_read_back (bi : BootImage) (v : pack_vars) (i : item)
    : list byte :=
  if bool_decide (i ∈ unpack_blob_items) then image_blob bi i else blob v i.

(** * Properties *)

(** ** The C library models on examples *)

Example str_to_uint32_hex :
  str_to_uint32 ULONG_MAX_64 "10000000" 16 = (Some 268435456, 0).
Proof. reflexivity. Qed.

Example str_to_uint32_prefix :
  str_to_uint32 ULONG_MAX_32 "0x8000" 16 = (Some 32768, 0).
Proof. reflexivity. Qed.

Example str_to_uint32_junk :
  str_to_uint32 ULONG_MAX_32 "2048k" 10 = (None, 0).
Proof. reflexivity. Qed.

Example str_to_uint32_empty :
  str_to_uint32 ULONG_MAX_32 "" 10 = (None, 0).
Proof. reflexivity. Qed.

Example str_to_uint32_range32 :
  str_to_uint32 ULONG_MAX_32 "100000000" 16 = (None, ERANGE).
Proof. reflexivity. Qed.

Example fmt_08x_ex : fmt_08x 32768 = "00008000". Proof. reflexivity. Qed.
Example fmt_08x_ex2 : fmt_08x 4294967295 = "ffffffff". Proof. reflexivity. Qed.
Example fmt_u_ex : fmt_u 2048 = "2048". Proof. reflexivity. Qed.
Example fmt_u_ex0 : fmt_u 0 = "0". Proof. reflexivity. Qed.
Example scan_ex1 : scan_08x ULONG_MAX_64 ("00008000" +:+ nl) = ScanOK 32768. Proof. reflexivity. Qed.
Example scan_ex2 : scan_08x ULONG_MAX_64 "1234" = ScanOK 4660. Proof. reflexivity. Qed.
Example scan_ex3 : scan_08x ULONG_MAX_64 "" = ScanEOF. Proof. reflexivity. Qed.
Example scan_ex4 : scan_08x ULONG_MAX_64 "zz" = ScanFail. Proof. reflexivity. Qed.
Example scan_ex5 : scan_08x ULONG_MAX_64 "123456789" = ScanOK 305419896. Proof. reflexivity. Qed.
Example scan_ex6 : scan_08x ULONG_MAX_64 "0x1234567" = ScanOK 1193046. Proof. reflexivity. Qed.
Example scan_ex7 : scan_u ULONG_MAX_64 ("2048" +:+ nl) = ScanOK 2048. Proof. reflexivity. Qed.
Example scan_ex8 : scan_08x ULONG_MAX_64 "-1" = ScanOK 4294967295. Proof. reflexivity. Qed.
Example scan_ex9 : scan_08x ULONG_MAX_64 "+" = ScanFail. Proof. reflexivity. Qed.
Example scan_ex10 : scan_08x ULONG_MAX_64 "0x" = ScanOK 0. Proof. reflexivity. Qed.
Example scan_ex11 : scan_08x ULONG_MAX_64 (" +12" +:+ nl) = ScanOK 18. Proof. reflexivity. Qed.
Example read_line_ex : read_line 512 ("console=ttyS0 quiet" +:+ nl +:+ "junk") = "console=ttyS0 quiet". Proof. reflexivity. Qed.
Example read_line_ex2 : read_line 4 "abcdef" = "abc". Proof. reflexivity. Qed.

(** ** Unsigned 32-bit arithmetic *)

Lemma to_uint32_small n : is_uint32 n -> to_uint32 n = n.
Proof. intros H. apply Z.mod_small. exact H. Qed.

Lemma to_uint32_range n : is_uint32 (to_uint32 n).
Proof. apply Z.mod_pos_bound. reflexivity. Qed.

Lemma add32_sub32_l a b : is_uint32 a -> add32 (sub32 a b) b = a.
Proof.
  intros H. unfold add32, sub32, to_uint32.
  rewrite Zplus_mod_idemp_l.
  replace (a - b + b) with a by lia.
  apply Z.mod_small, H.
Qed.

Lemma add32_sub32_r a b : is_uint32 a -> add32 b (sub32 a b) = a.
Proof.
  intros H. unfold add32, sub32, to_uint32.
  rewrite Zplus_mod_idemp_r.
  replace (b + (a - b)) with a by lia.
  apply Z.mod_small, H.
Qed.

(** ** C1: the addresses survive unpack followed by pack *)

(** C1.  Unpack writes [base = kernelAddress - DefaultKernelOffset], the
    kernel offset [DefaultKernelOffset] and the ramdisk, second and tags
    offsets [address - base], all modulo 2^32.  When pack holds these five
    numbers, the image it hands to the codec has the four addresses of the
    unpacked image, whatever 32-bit values they are (also when an address
    is below the base and the subtraction wraps). *)
Theorem address_round_trip (L : Lib) (bi : BootImage) (v : pack_vars) :
  is_uint32 (kernelAddress bi) ->
  is_uint32 (ramdiskAddress bi) ->
  is_uint32 (secondBootloaderAddress bi) ->
  is_uint32 (kernelTagsAddress bi) ->
  (forall i, i ∈ address_items -> num v i = unpack_num L bi i) ->
  kernelAddress (pack_image L v) = kernelAddress bi /\
  ramdiskAddress (pack_image L v) = ramdiskAddress bi /\
  secondBootloaderAddress (pack_image L v) = secondBootloaderAddress bi /\
  kernelTagsAddress (pack_image L v) = kernelTagsAddress bi.
Proof.
  intros Hk Hr Hs Ht Hnum.
  assert (Hb : num v Base = unpack_base L bi)
    by (apply (Hnum Base); unfold address_items; set_solver).
  assert (Hko : num v KernelOffset = DefaultKernelOffset L)
    by (apply (Hnum KernelOffset); unfold address_items; set_solver).
  assert (Hro : num v RamdiskOffset = sub32 (ramdiskAddress bi) (unpack_base L bi))
    by (apply (Hnum RamdiskOffset); unfold address_items; set_solver).
  assert (Hso : num v SecondOffset
                = sub32 (secondBootloaderAddress bi) (unpack_base L bi))
    by (apply (Hnum SecondOffset); unfold address_items; set_solver).
  assert (Hto : num v TagsOffset = sub32 (kernelTagsAddress bi) (unpack_base L bi))
    by (apply (Hnum TagsOffset); unfold address_items; set_solver).
  unfold pack_image; cbn [setPayload setAddresses kernelAddress ramdiskAddress
    secondBootloaderAddress kernelTagsAddress].
  rewrite Hb, Hko, Hro, Hso, Hto. unfold unpack_base.
  repeat split.
  - apply add32_sub32_l, Hk.
  - apply add32_sub32_r, Hr.
  - apply add32_sub32_r, Hs.
  - apply add32_sub32_r, Ht.
Qed.

Lemma address_round_trip_witness :
  num demo_packed RamdiskOffset = 4043309056 /\
  (kernelAddress (pack_image lib64 demo_packed) = kernelAddress demo_image /\
   ramdiskAddress (pack_image lib64 demo_packed) = ramdiskAddress demo_image /\
   secondBootloaderAddress (pack_image lib64 demo_packed)
     = secondBootloaderAddress demo_image /\
   kernelTagsAddress (pack_image lib64 demo_packed)
     = kernelTagsAddress demo_image).
Proof.
  split; [reflexivity |].
  apply (address_round_trip lib64 demo_image demo_packed).
  - unfold is_uint32; simpl; split; [lia | reflexivity].
  - unfold is_uint32; simpl; split; [lia | reflexivity].
  - unfold is_uint32; simpl; split; [lia | reflexivity].
  - unfold is_uint32; simpl; split; [lia | reflexivity].
  - intros i _; reflexivity.
Defined.

(** ** C8: the help option *)

(** C8, on the code: neither option string has an [h] and neither table of
    long options has a [help], so [getopt_long] reports ['?'] for [-h] and
    for [--help]; both sub-commands then print their usage text on the
    standard error stream and return false (exit status 1), and the branch
    that prints on the standard output and returns true is not taken. *)
Theorem help_option_is_rejected (L : Lib) (w : world) :
  getopt_long ["unpack"; "-h"] unpack_optstring unpack_long_options
    = ([(opt_unknown, "")], []) /\
  unpack_main L ["unpack"; "-h"] w
    = (Return false,
       mkWorld (fs w) (errno w) (log w ++ [Print stderr UnpackUsage])) /\
  unpack_main L ["unpack"; "--help"] w
    = (Return false,
       mkWorld (fs w) (errno w) (log w ++ [Print stderr UnpackUsage])) /\
  pack_main L ["pack"; "-h"] w
    = (Return false,
       mkWorld (fs w) (errno w) (log w ++ [Print stderr PackUsage])) /\
  pack_main L ["pack"; "--help"] w
    = (Return false,
       mkWorld (fs w) (errno w) (log w ++ [Print stderr PackUsage])) /\
  fst (main L ["bootimgtool"; "unpack"; "-h"] w) = EXIT_FAILURE /\
  fst (main L ["bootimgtool"; "pack"; "--help"] w) = EXIT_FAILURE.
Proof.
  repeat split; vm_compute; reflexivity.
Qed.

(** ** Running the monad *)

Lemma bind_inv {A B} (m : prog A) (k : A -> prog B) w r w' :
  bind m k w = (r, w') ->
  (exists a w1, m w = (Next a, w1) /\ k a w1 = (r, w')) \/
  (exists b, m w = (Return b, w') /\ r = Return b).
Proof.
  unfold bind. destruct (m w) as [[b | a] w1]; intros H.
  - right. exists b. inversion H; subst. split; reflexivity.
  - left. exists a, w1. split; [reflexivity | exact H].
Qed.

Lemma bind_Next {A B} (m : prog A) (k : A -> prog B) w a w1 :
  m w = (Next a, w1) -> bind m k w = k a w1.
Proof. intros H. unfold bind. rewrite H. reflexivity. Qed.

Lemma bind_Return {A B} (m : prog A) (k : A -> prog B) w b w1 :
  m w = (Return b, w1) -> bind m k w = (Return b, w1).
Proof. intros H. unfold bind. rewrite H. reflexivity. Qed.

Lemma is_empty_false s : s <> "" -> is_empty s = false.
Proof. destruct s; [congruence | reflexivity]. Qed.

Lemma is_empty_true s : is_empty s = true -> s = "".
Proof. destruct s; [reflexivity | discriminate]. Qed.

(** [fopen] by the state of the path. *)
Lemma fopen_rb_missing path w :
  path = "" \/ fs w !! path = None ->
  fopen_rb path w
  = (Next None, mkWorld (fs w) ENOENT (log w ++ [Fopen path "rb" false])).
Proof.
  intros [-> | H]; unfold fopen_rb.
  - reflexivity.
  - rewrite H. destruct (is_empty path); reflexivity.
Qed.

Lemma fopen_rb_noaccess path w e :
  path <> "" -> fs w !! path = Some (NoAccess e) ->
  fopen_rb path w
  = (Next None, mkWorld (fs w) e (log w ++ [Fopen path "rb" false])).
Proof.
  intros Hp H. unfold fopen_rb. rewrite (is_empty_false _ Hp), H. reflexivity.
Qed.

Lemma fopen_rb_regular path w c :
  path <> "" -> fs w !! path = Some (Regular c) ->
  fopen_rb path w
  = (Next (Some (Readable c)),
     mkWorld (fs w) (errno w) (log w ++ [Fopen path "rb" true])).
Proof.
  intros Hp H. unfold fopen_rb. rewrite (is_empty_false _ Hp), H. reflexivity.
Qed.

(** ** C9: the literal of a value option *)

(** C9, on the code: [str_to_uint32] leaves the range check to [strtoul],
    whose range is that of [unsigned long].  Where [unsigned long] has 64
    bits the hexadecimal literal [100000000] (2^32) is not out of range; the
    value is cut to 32 bits and [--value-base 100000000] is accepted as the
    base 0: pack goes on and builds an image with the kernel at
    [0 + DefaultKernelOffset].  Where [unsigned long] has 32 bits the same
    literal is refused.  A negative literal is negated by [strtoul] and
    accepted on both. *)
Theorem value_literal_out_of_range :
  str_to_uint32 ULONG_MAX_64 "100000000" 16 = (Some 0, 0) /\
  str_to_uint32 ULONG_MAX_32 "100000000" 16 = (None, ERANGE) /\
  str_to_uint32 ULONG_MAX_32 "-1" 10 = (Some 4294967295, 0) /\
  str_to_uint32 ULONG_MAX_64 "-1" 10 = (Some 4294967295, 0) /\
  (let r := pack_main lib64 ["pack"; "out.img"; "--value-base"; "100000000"]
              (world0 kernel_and_ramdisk) in
   fst r = Next true /\
   printed stderr (log (snd r)) = [] /\
   map kernelAddress (created (log (snd r))) = [32768]) /\
  (let r := pack_main lib32 ["pack"; "out.img"; "--value-base"; "100000000"]
              (world0 kernel_and_ramdisk) in
   fst r = Return false /\
   log (snd r) = [Print stderr (Invalid "base" "100000000")]).
Proof.
  repeat split; vm_compute; reflexivity.
Qed.

(** ** C4: a scalar file that cannot be opened *)

(** C4, on the code: the scalar blocks test only whether [fopen] gave a
    stream.  A file that exists and cannot be opened (for instance [EACCES])
    is treated like a missing one: the codec's default is taken, nothing is
    printed and pack goes on. *)
Theorem unopenable_scalar_file_gets_default (L : Lib) (i : item)
    (v : pack_vars) (w : world) (e : Z) :
  i ∈ scalar_items ->
  has_value v (OPT_VALUE i) = false ->
  path v i <> "" ->
  fs w !! path v i = Some (NoAccess e) ->
  read_scalar L i v w
  = (Next (scalar_default L i v),
     mkWorld (fs w) e (log w ++ [Fopen (path v i) "rb" false])).
Proof.
  intros _ Hv Hp Hf.
  unfold read_scalar, scalar_default, read_text, read_num.
  rewrite Hv.
  destruct (bool_decide (i ∈ text_items));
    rewrite (bind_Next _ _ _ _ _ (fopen_rb_noaccess _ _ _ Hp Hf));
    reflexivity.
Qed.

Lemma unopenable_scalar_file_gets_default_witness :
  read_scalar lib64 Base with_base_path base_unreadable
  = (Next (set_num Base 268435456 with_base_path),
     mkWorld (fs base_unreadable) EACCES [Fopen "./out.img-base" "rb" false]).
Proof.
  apply (unopenable_scalar_file_gets_default lib64 Base with_base_path
           base_unreadable EACCES).
  - compute_done.
  - reflexivity.
  - discriminate.
  - reflexivity.
Defined.

Example pack_with_unreadable_base :
  let r := pack_main lib64 ["pack"; "out.img"] base_unreadable in
  fst r = Next true /\
  printed stderr (log (snd r)) = [] /\
  map kernelAddress (created (log (snd r))) = [268468224].
Proof. repeat split; vm_compute; reflexivity. Qed.

(** ** The option codes *)

Lemma OPT_INPUT_range i : 10001 <= OPT_INPUT i <= 10022.
Proof. destruct i; cbn; lia. Qed.

Lemma OPT_VALUE_range i : i ∈ scalar_items -> 20001 <= OPT_VALUE i <= 20012.
Proof.
  intros H. destruct i; cbn; try lia; exfalso; revert H; compute_done.
Qed.

Lemma OPT_VALUE_cases i : OPT_VALUE i = -1 \/ i ∈ scalar_items.
Proof. destruct i; first [left; reflexivity | right; compute_done]. Qed.

Lemma OPT_INPUT_inj i j : OPT_INPUT i = OPT_INPUT j -> i = j.
Proof. destruct i, j; cbn; intros H; first [reflexivity | discriminate H]. Qed.

Lemma OPT_VALUE_inj i j :
  i ∈ scalar_items -> OPT_VALUE i = OPT_VALUE j -> i = j.
Proof.
  intros Hi. apply OPT_VALUE_range in Hi. revert Hi.
  destruct i, j; cbn; intros Hi H; first [reflexivity | lia].
Qed.

Lemma find_input_Some c i :
  List.find (fun i => OPT_INPUT i =? c) pack_items = Some i -> c = OPT_INPUT i.
Proof. intros H. apply find_some in H as [_ H]. symmetry. apply Z.eqb_eq, H. Qed.

Lemma find_input_code i :
  List.find (fun j => OPT_INPUT j =? OPT_INPUT i) pack_items = Some i.
Proof. destruct i; reflexivity. Qed.

Lemma find_value_Some c i :
  List.find (fun i => OPT_VALUE i =? c) scalar_items = Some i ->
  c = OPT_VALUE i /\ i ∈ scalar_items.
Proof.
  intros H. apply find_some in H as [Hin H]. split.
  - symmetry. apply Z.eqb_eq, H.
  - apply list_elem_of_In, Hin.
Qed.

Lemma find_value_code i :
  i ∈ scalar_items ->
  List.find (fun j => OPT_VALUE j =? OPT_VALUE i) scalar_items = Some i.
Proof. intros H. destruct i; first [reflexivity | exfalso; revert H; compute_done]. Qed.

(** ** One turn of pack's option loop *)

Lemma has_value_insert v' v k c :
  values v' = <[c := true]> (values v) ->
  has_value v' k = bool_decide (c = k) || has_value v k.
Proof.
  intros H. unfold has_value. rewrite H.
  destruct (decide (c = k)) as [-> | Hne].
  - rewrite lookup_insert_eq, bool_decide_eq_true_2 by reflexivity. reflexivity.
  - rewrite lookup_insert_ne, bool_decide_eq_false_2 by assumption. reflexivity.
Qed.

Lemma text_is_scalar X : X ∈ text_items -> X ∈ scalar_items.
Proof. intros H. unfold scalar_items. apply elem_of_app. left. exact H. Qed.

Lemma short_code_not_input c X :
  0 <= c < 256 -> c <> OPT_INPUT X.
Proof. pose proof (OPT_INPUT_range X). lia. Qed.

Lemma short_code_not_value c X :
  0 <= c < 256 -> X ∈ scalar_items -> c <> OPT_VALUE X.
Proof. intros Hc HX. apply OPT_VALUE_range in HX. lia. Qed.

Lemma char_code_range ch : 0 <= char_code ch < 256.
Proof.
  unfold char_code. pose proof (N_ascii_bounded ch) as H. lia.
Qed.

(** An option that is no item option leaves the item variables alone. *)
Lemma effect_of_plain_option L c a v v' :
  (forall X, c <> OPT_INPUT X) ->
  (forall X, X ∈ scalar_items -> c <> OPT_VALUE X) ->
  path v' = path v -> values v' = values v -> text v' = text v ->
  num v' = num v -> blob v' = blob v ->
  (if c =? char_code "t" then parse_type a = Some (type v')
   else type v' = type v) ->
  option_effect L c a v v'.
Proof.
  intros Hin Hva Hp Hv Ht Hn Hb Hty. split.
  - intros X. rewrite Hp.
    rewrite bool_decide_eq_false_2 by apply Hin.
    rewrite bool_decide_eq_false_2; [reflexivity |].
    intros [E HX]. exact (Hva X HX E).
  - intros X HX. unfold has_value. rewrite Hv.
    rewrite bool_decide_eq_false_2 by (apply Hva, HX). reflexivity.
  - intros X HX. rewrite Ht.
    rewrite bool_decide_eq_false_2; [reflexivity |].
    apply Hva, text_is_scalar, HX.
  - intros X HX _. rewrite Hn.
    rewrite bool_decide_eq_false_2 by (apply Hva, HX). reflexivity.
  - exact Hb.
  - exact Hty.
Qed.

Lemma pack_option_Next L c a v w v' w' :
  pack_option L c a v w = (Next v', w') ->
  fs w' = fs w /\ log w' = log w /\ option_effect L c a v v'.
Proof.
  unfold pack_option.
  destruct (Z.eqb_spec c (char_code "i")) as [Hi | Hi].
  { intros H; inversion H; subst v' w'; clear H.
    split; [reflexivity|]. split; [reflexivity|].
    apply effect_of_plain_option; try reflexivity.
    - intros X. apply short_code_not_input. rewrite Hi. apply char_code_range.
    - intros X. apply short_code_not_value. rewrite Hi. apply char_code_range.
    - cbn [type]. rewrite Hi. reflexivity. }
  destruct (Z.eqb_spec c (char_code "p")) as [Hp | Hp].
  { intros H; inversion H; subst v' w'; clear H.
    split; [reflexivity|]. split; [reflexivity|].
    apply effect_of_plain_option; try reflexivity.
    - intros X. apply short_code_not_input. rewrite Hp. apply char_code_range.
    - intros X. apply short_code_not_value. rewrite Hp. apply char_code_range.
    - cbn [type]. rewrite Hp. reflexivity. }
  destruct (Z.eqb_spec c (char_code "n")) as [Hn | Hn].
  { intros H; inversion H; subst v' w'; clear H.
    split; [reflexivity|]. split; [reflexivity|].
    apply effect_of_plain_option; try reflexivity.
    - intros X. apply short_code_not_input. rewrite Hn. apply char_code_range.
    - intros X. apply short_code_not_value. rewrite Hn. apply char_code_range.
    - cbn [type]. rewrite Hn. reflexivity. }
  destruct (List.find (fun i => OPT_INPUT i =? c) pack_items) as [i |] eqn:Hfi.
  { apply find_input_Some in Hfi. subst c.
    intros H; inversion H; subst v' w'; clear H.
    split; [reflexivity|]. split; [reflexivity|].
    pose proof (OPT_INPUT_range i) as Hr.
    split; cbn [path values text num blob type set_path].
    - intros X. destruct (decide (i = X)) as [-> | Hne].
      + rewrite bool_decide_eq_true_2 by reflexivity. apply fn_lookup_insert.
      + rewrite bool_decide_eq_false_2
          by (intros E; apply Hne, OPT_INPUT_inj, E).
        rewrite bool_decide_eq_false_2.
        * apply fn_lookup_insert_ne, Hne.
        * intros [E HX]. apply OPT_VALUE_range in HX. lia.
    - intros X HX. apply OPT_VALUE_range in HX. unfold has_value. cbn [values].
      rewrite bool_decide_eq_false_2 by lia. reflexivity.
    - intros X HX.
      apply text_is_scalar, OPT_VALUE_range in HX.
      rewrite bool_decide_eq_false_2 by lia. reflexivity.
    - intros X HX _. apply OPT_VALUE_range in HX.
      rewrite bool_decide_eq_false_2 by lia. reflexivity.
    - reflexivity.
    - replace (OPT_INPUT i =? char_code "t") with false; [reflexivity |].
      symmetry. apply Z.eqb_neq. change (char_code "t") with 116. lia. }
  destruct (List.find (fun i => OPT_VALUE i =? c) scalar_items)
    as [i |] eqn:Hfv.
  { apply find_value_Some in Hfv as [-> Hsc].
    pose proof (OPT_VALUE_range i Hsc) as Hr.
    assert (Hflag : forall v1, values v1 = <[OPT_VALUE i := true]> (values v) ->
              forall X, X ∈ scalar_items ->
              has_value v1 (OPT_VALUE X)
              = bool_decide (OPT_VALUE i = OPT_VALUE X)
                || has_value v (OPT_VALUE X)).
    { intros v1 Hv1 X _. apply has_value_insert, Hv1. }
    assert (Hpath : forall v1, path v1 = <[i := ""]> (path v) -> forall X,
              path v1 X =
                if bool_decide (OPT_VALUE i = OPT_INPUT X) then a
                else if bool_decide (OPT_VALUE i = OPT_VALUE X /\ X ∈ scalar_items)
                     then "" else path v X).
    { intros v1 Hv1 X. rewrite Hv1. pose proof (OPT_INPUT_range X).
      rewrite bool_decide_eq_false_2 by lia.
      destruct (decide (i = X)) as [-> | Hne].
      - rewrite bool_decide_eq_true_2 by (split; [reflexivity | exact Hsc]).
        apply fn_lookup_insert.
      - rewrite bool_decide_eq_false_2.
        + apply fn_lookup_insert_ne, Hne.
        + intros [E _]. apply Hne, (OPT_VALUE_inj _ _ Hsc E). }
    assert (Hty : (OPT_VALUE i =? char_code "t") = false)
      by (apply Z.eqb_neq; change (char_code "t") with 116; lia).
    destruct (bool_decide (i ∈ text_items)) eqn:Htext.
    - apply bool_decide_eq_true_1 in Htext.
      intros H; inversion H; subst v' w'; clear H.
      split; [reflexivity|]. split; [reflexivity|]. split.
      + apply Hpath. reflexivity.
      + apply Hflag. reflexivity.
      + intros X HX. cbn [text set_text set_value_flag].
        destruct (decide (i = X)) as [-> | Hne].
        * rewrite bool_decide_eq_true_2 by reflexivity. apply fn_lookup_insert.
        * rewrite bool_decide_eq_false_2
            by (intros E; apply Hne, (OPT_VALUE_inj _ _ Hsc E)).
          apply fn_lookup_insert_ne, Hne.
      + intros X HX HnX. cbn [num set_text set_value_flag].
        rewrite bool_decide_eq_false_2; [reflexivity |].
        intros E. apply HnX. rewrite <- (OPT_VALUE_inj _ _ Hsc E). exact Htext.
      + reflexivity.
      + cbn [type set_text set_value_flag]. rewrite Hty. reflexivity.
    - apply bool_decide_eq_false_1 in Htext.
      destruct (str_to_uint32 (ULONG_MAX L) a (value_radix i)) as [[n |] e]
        eqn:Hconv; unfold bind, set_errno, fprintf, emit, return_, ret;
        intros H; inversion H; subst v' w'; clear H.
      split; [reflexivity|]. split; [reflexivity|]. split.
      + apply Hpath. reflexivity.
      + apply Hflag. reflexivity.
      + intros X HX. cbn [text set_num set_value_flag].
        rewrite bool_decide_eq_false_2; [reflexivity |].
        intros E. apply Htext. rewrite (OPT_VALUE_inj _ _ Hsc E). exact HX.
      + intros X HX HnX. cbn [num set_num set_value_flag].
        destruct (decide (i = X)) as [-> | Hne].
        * rewrite bool_decide_eq_true_2 by reflexivity.
          rewrite Hconv. cbn. rewrite fn_lookup_insert. reflexivity.
        * rewrite bool_decide_eq_false_2
            by (intros E; apply Hne, (OPT_VALUE_inj _ _ Hsc E)).
          apply fn_lookup_insert_ne, Hne.
      + reflexivity.
      + cbn [type set_num set_value_flag]. rewrite Hty. reflexivity. }
  assert (Hnin : forall X, c <> OPT_INPUT X).
  { intros X E. subst c. rewrite find_input_code in Hfi. discriminate. }
  assert (Hnva : forall X, X ∈ scalar_items -> c <> OPT_VALUE X).
  { intros X HX E. subst c. rewrite (find_value_code _ HX) in Hfv. discriminate. }
  destruct (c =? char_code "t") eqn:Ht.
  { destruct (parse_type a) as [t |] eqn:Hpt;
      unfold bind, fprintf, emit, return_, ret;
      intros H; inversion H; subst v' w'; clear H.
    split; [reflexivity|]. split; [reflexivity|].
    apply effect_of_plain_option; try assumption; try reflexivity.
    cbn [type]. rewrite Ht. exact Hpt. }
  destruct (c =? char_code "h");
    unfold bind, fprintf, emit, return_; intros H; inversion H.
Qed.

Lemma pack_option_Return L c a v w b w' :
  pack_option L c a v w = (Return b, w') ->
  fs w' = fs w /\
  (exists m, log w' = log w ++ [Print (if b then stdout else stderr) m]) /\
  (b = true -> c = char_code "h").
Proof.
  unfold pack_option.
  repeat match goal with
  | |- context [if ?x =? ?y then _ else _] => destruct (Z.eqb_spec x y)
  | |- context [match List.find ?f ?l with _ => _ end] => destruct (List.find f l)
  | |- context [if bool_decide ?P then _ else _] => destruct (bool_decide P)
  | |- context [let '(_, _) := ?x in _] => destruct x as [[?|] ?]
  | |- context [match parse_type ?x with _ => _ end] => destruct (parse_type x)
  end;
  unfold bind, set_errno, fprintf, emit, return_, ret;
  intros H; inversion H; subst; cbn [fs log];
  (split; [reflexivity | split; [eexists; reflexivity | ]]);
  first [intros; first [assumption | reflexivity] | discriminate].
Qed.

(** ** The whole option loop *)

Lemma pack_options_Return L evs v w b w' :
  pack_options L evs v w = (Return b, w') ->
  fs w' = fs w /\
  (exists m, log w' = log w ++ [Print (if b then stdout else stderr) m]) /\
  (b = true -> exists a, (char_code "h", a) ∈ evs).
Proof.
  revert v w. induction evs as [| [c a] r IH]; intros v w H.
  - discriminate H.
  - cbn [pack_options] in H. apply bind_inv in H as [(v1 & w1 & H1 & H2) | (b' & H1 & E)].
    + apply pack_option_Next in H1 as (Hfs & Hlog & _).
      apply IH in H2 as (Hfs2 & (m & Hlog2) & Hb).
      split; [congruence |]. split.
      * exists m. congruence.
      * intros Eb. destruct (Hb Eb) as [a' Ha']. exists a'.
        apply elem_of_cons. right. exact Ha'.
    + inversion E; subst b'; clear E.
      apply pack_option_Return in H1 as (Hfs & Hlog & Hb).
      split; [exact Hfs |]. split; [exact Hlog |].
      intros Eb. exists a. rewrite <- (Hb Eb). apply elem_of_cons. left. reflexivity.
Qed.

Lemma last_arg_cons_None code c a r :
  last_arg code ((c, a) :: r) = None -> last_arg code r = None /\ c <> code.
Proof.
  cbn. destruct (last_arg code r); [discriminate |].
  destruct (Z.eqb_spec c code); [discriminate |]. intros _. split; [reflexivity | assumption].
Qed.

(** After the loop: the world is as before, and a scalar item that got no
    value option keeps its flag, text and number; the path of an item is
    the argument of its last input option, if any. *)
Lemma pack_options_Next L evs v w v' w' :
  pack_options L evs v w = (Next v', w') ->
  fs w' = fs w /\ log w' = log w /\ blob v' = blob v /\
  (forall X, (X ∈ scalar_items -> last_arg (OPT_VALUE X) evs = None) ->
     path v' X = default (path v X) (last_arg (OPT_INPUT X) evs)) /\
  (forall X, X ∈ scalar_items -> last_arg (OPT_VALUE X) evs = None ->
     has_value v' (OPT_VALUE X) = has_value v (OPT_VALUE X) /\
     (X ∈ text_items -> text v' X = text v X) /\
     (X ∉ text_items -> num v' X = num v X)) /\
  (forall X lit, X ∈ scalar_items -> last_arg (OPT_VALUE X) evs = Some lit ->
     has_value v' (OPT_VALUE X) = true /\ holds_literal L v' X lit) /\
  (match last_arg (char_code "t") evs with
   | Some a => parse_type a = Some (type v')
   | None => type v' = type v
   end).
Proof.
  revert v w. induction evs as [| [c a] r IH]; intros v w H.
  - inversion H; subst.
    do 3 (split; [reflexivity |]).
    split; [intros; reflexivity |].
    split; [intros; repeat split; intros; reflexivity |].
    split; [| reflexivity].
    intros X lit _ E. discriminate E.
  - cbn [pack_options] in H.
    apply bind_inv in H as [(v1 & w1 & H1 & H2) | (b' & _ & E)];
      [| discriminate E].
    apply pack_option_Next in H1 as (Hfs & Hlog & Heff).
    apply IH in H2 as (Hfs2 & Hlog2 & Hblob & Hpath & Hkeep & Hlit & Hty).
    split; [congruence |]. split; [congruence |].
    split; [rewrite Hblob; apply (eff_blob _ _ _ _ _ Heff) |].
    split; [| split; [| split]].
    + intros X HX.
      assert (HXr : X ∈ scalar_items -> last_arg (OPT_VALUE X) r = None)
        by (intros Hs; apply (last_arg_cons_None _ _ _ _ (HX Hs))).
      rewrite (Hpath X HXr), (eff_path _ _ _ _ _ Heff X).
      cbn [last_arg]. destruct (last_arg (OPT_INPUT X) r); [reflexivity |].
      destruct (Z.eqb_spec c (OPT_INPUT X)) as [E | E].
      * rewrite bool_decide_eq_true_2 by exact E. reflexivity.
      * rewrite bool_decide_eq_false_2 by exact E.
        rewrite bool_decide_eq_false_2; [reflexivity |].
        intros [E' Hs]. apply (last_arg_cons_None _ _ _ _ (HX Hs)), E'.
    + intros X Hs HX. apply last_arg_cons_None in HX as [HXr Hne].
      destruct (Hkeep X Hs HXr) as (Hf & Ht & Hn).
      rewrite Hf, (eff_flag _ _ _ _ _ Heff X Hs).
      rewrite bool_decide_eq_false_2 by exact Hne.
      split; [reflexivity |]. split.
      * intros Htx. rewrite (Ht Htx), (eff_text _ _ _ _ _ Heff X Htx).
        rewrite bool_decide_eq_false_2 by exact Hne. reflexivity.
      * intros Htx. rewrite (Hn Htx).
        pose proof (eff_num _ _ _ _ _ Heff X Hs Htx) as En.
        rewrite bool_decide_eq_false_2 in En by exact Hne. exact En.
    + intros X lit Hs HX. cbn [last_arg] in HX.
      destruct (last_arg (OPT_VALUE X) r) as [x |] eqn:Hr.
      * inversion HX; subst x. apply (Hlit X lit Hs Hr).
      * destruct (Z.eqb_spec c (OPT_VALUE X)) as [E | E]; [| discriminate HX].
        inversion HX; subst a; clear HX.
        destruct (Hkeep X Hs Hr) as (Hf & Ht & Hn).
        rewrite Hf, (eff_flag _ _ _ _ _ Heff X Hs).
        rewrite bool_decide_eq_true_2 by exact E.
        split; [reflexivity |]. unfold holds_literal.
        destruct (bool_decide (X ∈ text_items)) eqn:Htx.
        -- apply bool_decide_eq_true_1 in Htx.
           rewrite (Ht Htx), (eff_text _ _ _ _ _ Heff X Htx).
           rewrite bool_decide_eq_true_2 by exact E. reflexivity.
        -- apply bool_decide_eq_false_1 in Htx. rewrite (Hn Htx).
           pose proof (eff_num _ _ _ _ _ Heff X Hs Htx) as En.
           rewrite bool_decide_eq_true_2 in En by exact E. exact En.
    + cbn [last_arg]. destruct (last_arg (char_code "t") r) as [x |].
      * exact Hty.
      * pose proof (eff_type _ _ _ _ _ Heff) as Hty1.
        destruct (c =? char_code "t"); congruence.
Qed.

(** ** The default paths *)

Lemma fold_resolve_path L dir pfx l p i :
  fold_left (resolve_path L dir pfx) l p i
  = if bool_decide (i ∈ l) && is_empty (p i) then default_path L dir pfx i
    else p i.
Proof.
  revert p. induction l as [| a l IH]; intros p.
  - reflexivity.
  - cbn [fold_left]. rewrite IH. unfold resolve_path.
    destruct (decide (i = a)) as [-> | Hne].
    + rewrite (bool_decide_eq_true_2 (a ∈ a :: l)) by (apply elem_of_cons; left; reflexivity).
      destruct (is_empty (p a)) eqn:Hp.
      * rewrite fn_lookup_insert.
        destruct (bool_decide (a ∈ l) && is_empty (default_path L dir pfx a));
          reflexivity.
      * rewrite Hp, andb_false_r. reflexivity.
    + assert (Hp : (if is_empty (p a)
                    then <[a := default_path L dir pfx a]> p else p) i = p i).
      { destruct (is_empty (p a)); [| reflexivity].
        apply fn_lookup_insert_ne. congruence. }
      rewrite Hp.
      assert (Hin : bool_decide (i ∈ a :: l) = bool_decide (i ∈ l)).
      { apply bool_decide_ext. rewrite elem_of_cons. tauto. }
      rewrite Hin. reflexivity.
Qed.

Lemma fold_resolve_scalar_path L dir pfx v l p i :
  fold_left (resolve_scalar_path L dir pfx v) l p i
  = if bool_decide (i ∈ l) && is_empty (p i)
       && negb (has_value v (OPT_VALUE i))
    then default_path L dir pfx i
    else p i.
Proof.
  revert p. induction l as [| a l IH]; intros p.
  - reflexivity.
  - cbn [fold_left]. rewrite IH. unfold resolve_scalar_path.
    destruct (decide (i = a)) as [-> | Hne].
    + rewrite (bool_decide_eq_true_2 (a ∈ a :: l)) by (apply elem_of_cons; left; reflexivity).
      cbn [andb].
      destruct (is_empty (p a) && negb (has_value v (OPT_VALUE a))) eqn:Hp.
      * rewrite fn_lookup_insert.
        destruct (bool_decide (a ∈ l) && is_empty (default_path L dir pfx a)
                  && negb (has_value v (OPT_VALUE a))); reflexivity.
      * rewrite <- andb_assoc, Hp, andb_false_r. reflexivity.
    + assert (Hp : (if is_empty (p a) && negb (has_value v (OPT_VALUE a))
                    then <[a := default_path L dir pfx a]> p else p) i = p i).
      { destruct (is_empty (p a) && negb (has_value v (OPT_VALUE a)));
          [| reflexivity].
        apply fn_lookup_insert_ne. congruence. }
      rewrite Hp.
      assert (Hin : bool_decide (i ∈ a :: l) = bool_decide (i ∈ l)).
      { apply bool_decide_ext. rewrite elem_of_cons. tauto. }
      rewrite Hin. reflexivity.
Qed.

Lemma scalar_not_blob i : i ∈ scalar_items -> i ∉ unpack_blob_items.
Proof. destruct i; intros H; first [compute_done | exfalso; revert H; compute_done]. Qed.

Lemma scalar_not_pack_blob i : i ∈ scalar_items -> i ∉ pack_blob_items.
Proof. destruct i; intros H; first [compute_done | exfalso; revert H; compute_done]. Qed.

(** The path of a scalar item after the resolution. *)
Lemma pack_paths_scalar L dir pfx v i :
  i ∈ scalar_items ->
  pack_paths L dir pfx v i
  = if is_empty (path v i) && negb (has_value v (OPT_VALUE i))
    then default_path L dir pfx i else path v i.
Proof.
  intros Hs. unfold pack_paths.
  rewrite fold_resolve_path, fold_resolve_scalar_path.
  rewrite (bool_decide_eq_false_2 _ (scalar_not_blob i Hs)).
  rewrite (bool_decide_eq_true_2 _ Hs). reflexivity.
Qed.

(** The path of a blob item after the resolution. *)
Lemma pack_paths_blob L dir pfx v i :
  i ∉ scalar_items ->
  pack_paths L dir pfx v i
  = if bool_decide (i ∈ unpack_blob_items) && is_empty (path v i)
    then default_path L dir pfx i else path v i.
Proof.
  intros Hs. unfold pack_paths.
  rewrite fold_resolve_path, fold_resolve_scalar_path.
  rewrite (bool_decide_eq_false_2 _ Hs). reflexivity.
Qed.

(** ** The reading steps *)

Lemma created_snoc l e :
  created (l ++ [e])
  = created l ++ match e with CreateFile bi _ => [bi] | _ => [] end.
Proof. unfold created. rewrite omap_app. destruct e; reflexivity. Qed.

Lemma fopens_snoc l e :
  fopens (l ++ [e])
  = fopens l ++ match e with Fopen p _ _ => [p] | _ => [] end.
Proof. unfold fopens. rewrite omap_app. destruct e; reflexivity. Qed.

Ltac crunch H :=
  unfold read_scalar, read_text, read_num, read_blob, read_file_data, bind,
    fopen_rb, set_errno, get_errno, fprintf, emit, return_, ret in H;
  cbv zeta in H;
  repeat match type of H with
  | context [match ?x with _ => _ end] =>
      lazymatch x with
      | context [match _ with _ => _ end] => fail
      | _ => destruct x eqn:?
      end
  end;
  inversion H; subst; clear H; cbn [fs log errno].

Ltac quiet_done :=
  unfold quiet; cbn [fs log errno];
  repeat rewrite created_snoc; cbn [app]; repeat rewrite app_nil_r;
  split; reflexivity.

Lemma read_scalar_frame L i v w r w' :
  read_scalar L i v w = (r, w') ->
  quiet w w' /\
  match r with
  | Return b => b = false
  | Next v' =>
      path v' = path v /\ blob v' = blob v /\ type v' = type v /\
      values v' = values v
  end.
Proof.
  intros H. crunch H; (split; [quiet_done |]);
    first [reflexivity | repeat split; reflexivity].
Qed.

Lemma read_blob_frame i v w r w' :
  read_blob i v w = (r, w') ->
  quiet w w' /\
  match r with
  | Return b => b = false
  | Next v' =>
      path v' = path v /\ type v' = type v /\ text v' = text v /\
      num v' = num v /\
      forall j, j <> i -> blob v' j = blob v j
  end.
Proof.
  intros H. crunch H; (split; [quiet_done |]);
    first [reflexivity
          | repeat split; first [reflexivity | intros j Hj; cbn [blob set_blob];
                                  first [reflexivity | apply fn_lookup_insert_ne; congruence]]].
Qed.

Lemma quiet_refl w : quiet w w.
Proof. split; reflexivity. Qed.

Lemma quiet_trans w1 w2 w3 : quiet w1 w2 -> quiet w2 w3 -> quiet w1 w3.
Proof. intros [A B] [C D]. split; congruence. Qed.

Lemma missing_quiet w w' p : quiet w w' -> missing w p -> missing w' p.
Proof. intros [Hfs _] [E | E]; [left | right]; congruence. Qed.

Lemma read_all_scalar_frame L l v w r w' :
  read_all (read_scalar L) l v w = (r, w') ->
  quiet w w' /\
  match r with
  | Return b => b = false
  | Next v' =>
      path v' = path v /\ blob v' = blob v /\ type v' = type v /\
      values v' = values v
  end.
Proof.
  revert v w. induction l as [| i l IH]; intros v w H.
  - inversion H; subst. split; [apply quiet_refl | repeat split; reflexivity].
  - cbn [read_all] in H.
    apply bind_inv in H as [(v1 & w1 & H1 & H2) | (b & H1 & ->)].
    + apply read_scalar_frame in H1 as (Q1 & P1 & B1 & T1 & V1).
      apply IH in H2 as (Q2 & F2).
      split; [exact (quiet_trans _ _ _ Q1 Q2) |].
      destruct r as [b | v']; [exact F2 |].
      destruct F2 as (P2 & B2 & T2 & V2). repeat split; congruence.
    + apply read_scalar_frame in H1 as (Q1 & F1). split; assumption.
Qed.

Lemma read_all_blob_frame l v w r w' :
  read_all read_blob l v w = (r, w') ->
  quiet w w' /\
  match r with
  | Return b => b = false
  | Next v' =>
      path v' = path v /\ type v' = type v /\ text v' = text v /\
      num v' = num v /\
      forall j, j ∉ l -> blob v' j = blob v j
  end.
Proof.
  revert v w. induction l as [| i l IH]; intros v w H.
  - inversion H; subst. split; [apply quiet_refl | repeat split; reflexivity].
  - cbn [read_all] in H.
    apply bind_inv in H as [(v1 & w1 & H1 & H2) | (b & H1 & ->)].
    + apply read_blob_frame in H1 as (Q1 & P1 & T1 & X1 & N1 & B1).
      apply IH in H2 as (Q2 & F2).
      split; [exact (quiet_trans _ _ _ Q1 Q2) |].
      destruct r as [b | v']; [exact F2 |].
      destruct F2 as (P2 & T2 & X2 & N2 & B2).
      repeat split; try congruence.
      intros j Hj. rewrite B2, B1; [reflexivity | |];
        intros E; apply Hj, elem_of_cons; [left | right]; assumption.
    + apply read_blob_frame in H1 as (Q1 & F1). split; assumption.
Qed.

(** The three ways a blob read can go (lines 1380-1438). *)
Lemma read_blob_missing_required i v w :
  required_blob i = true -> missing w (path v i) ->
  read_blob i v w
  = (Return false,
     mkWorld (fs w) ENOENT
       (log w ++ [Fopen (path v i) "rb" false]
              ++ [Print stderr (PathError (path v i) ENOENT)])).
Proof.
  intros Hr Hm. unfold read_blob, read_file_data.
  unfold bind at 1 2. rewrite (fopen_rb_missing _ _ Hm).
  unfold ret, get_errno, bind, fprintf, emit, return_; cbn [errno fs log].
  rewrite Hr. cbn [orb fs log errno]. rewrite <- app_assoc. reflexivity.
Qed.

Lemma read_blob_missing_optional i v w :
  required_blob i = false -> missing w (path v i) ->
  read_blob i v w
  = (Next v,
     mkWorld (fs w) ENOENT (log w ++ [Fopen (path v i) "rb" false])).
Proof.
  intros Hr Hm. unfold read_blob, read_file_data.
  unfold bind at 1 2. rewrite (fopen_rb_missing _ _ Hm).
  unfold ret, get_errno, bind; cbn [errno fs log].
  rewrite Hr. reflexivity.
Qed.

Lemma read_blob_regular i v w c :
  path v i <> "" -> fs w !! path v i = Some (Regular c) ->
  read_blob i v w
  = (Next (set_blob i (list_byte_of_string c) v),
     mkWorld (fs w) (errno w) (log w ++ [Fopen (path v i) "rb" true])).
Proof.
  intros Hp Hf. unfold read_blob, read_file_data.
  unfold bind at 1 2. rewrite (fopen_rb_regular _ _ _ Hp Hf). reflexivity.
Qed.

(** A blob whose file is missing is left as it was by the whole reading
    of the blobs. *)
Lemma read_all_blob_missing l v w v' w' i :
  read_all read_blob l v w = (Next v', w') ->
  required_blob i = false -> missing w (path v i) ->
  blob v' i = blob v i.
Proof.
  revert v w. induction l as [| j l IH]; intros v w H Hr Hm.
  - inversion H; subst. reflexivity.
  - cbn [read_all] in H.
    apply bind_inv in H as [(v1 & w1 & H1 & H2) | (b & _ & E)];
      [| discriminate E].
    destruct (decide (j = i)) as [-> | Hne].
    + rewrite (read_blob_missing_optional i v w Hr Hm) in H1.
      inversion H1; subst v1 w1; clear H1.
      apply (IH _ _ H2 Hr). destruct Hm as [E | E]; [left | right]; exact E.
    + pose proof (read_blob_frame _ _ _ _ _ H1) as (Q1 & P1 & _ & _ & _ & B1).
      rewrite <- (B1 i) by congruence.
      apply (IH _ _ H2 Hr). rewrite P1. exact (missing_quiet _ _ _ Q1 Hm).
Qed.

(** The listing prints and goes on. *)
Lemma for_each_prints {A} (f : A -> prog unit) (l : list A) w :
  (forall a, exists s m, f a = fprintf s m) ->
  exists w', for_each f l w = (Next tt, w') /\ quiet w w' /\
             fopens (log w') = fopens (log w).
Proof.
  intros Hf. revert w. induction l as [| a l IH]; intros w.
  - exists w. split; [reflexivity |]. split; [apply quiet_refl | reflexivity].
  - cbn [for_each]. destruct (Hf a) as (s & m & ->).
    destruct (IH (mkWorld (fs w) (errno w) (log w ++ [Print s m])))
      as (w' & Hrun & [Hfs Hcr] & Hfo).
    exists w'. split; [exact Hrun |]. cbn [fs log] in *.
    rewrite created_snoc, app_nil_r in Hcr. rewrite fopens_snoc, app_nil_r in Hfo.
    split; [split |]; assumption.
Qed.

Lemma pack_listing_runs v w :
  exists w', pack_listing v w = (Next tt, w') /\ quiet w w' /\
             fopens (log w') = fopens (log w).
Proof.
  unfold pack_listing.
  set (w0 := mkWorld (fs w) (errno w) (log w ++ [Print stdout (FilesHeader false)])).
  destruct (for_each_prints
    (fun i => if negb (is_empty (path v i))
              then fprintf stdout (ItemPath i (path v i))
              else fprintf stdout (ItemValue i (show_value v i)))
    scalar_items w0) as (w1 & H1 & [F1 C1] & O1).
  { intros i. destruct (negb (is_empty (path v i))); eexists _, _; reflexivity. }
  destruct (for_each_prints (fun i => fprintf stdout (ItemPath i (path v i)))
    unpack_blob_items w1) as (w2 & H2 & [F2 C2] & O2).
  { intros i. eexists _, _; reflexivity. }
  exists w2. split.
  - unfold bind at 1. unfold fprintf at 1, emit. fold w0.
    unfold bind. rewrite H1. exact H2.
  - subst w0. cbn [fs log] in *.
    rewrite created_snoc, app_nil_r in C1. rewrite fopens_snoc, app_nil_r in O1.
    split; [split |]; congruence.
Qed.

(** ** The run of pack after the options *)

Lemma createFile_log L bi f w :
  exists b w', createFile L bi f w = (Next b, w') /\
    log w' = log w ++ [CreateFile bi f].
Proof.
  unfold createFile, bind, emit, set_file, ret.
  destruct (buildImage L bi); [| destruct (leftOnFailure L bi)];
    eexists _, _; split; reflexivity.
Qed.

(** A run with one output file either fails without building an image, or
    lists, reads the scalars, reads the blobs and hands one image to the
    codec. *)
Lemma pack_run_inv L v f w r w' :
  pack_run L v [f] w = (r, w') ->
  (r = Return false /\ quiet w w') \/
  (exists v1 w1 v2 w2,
     path v1 = path (resolved L v f) /\ blob v1 = blob v /\ quiet w w1 /\
     read_all read_blob pack_blob_items v1 w1 = (Next v2, w2) /\
     created (log w') = created (log w) ++ [pack_image L v2]).
Proof.
  unfold pack_run.
  destruct (bool_decide (type v = Loki) && is_empty (path v Aboot)).
  { unfold bind, fprintf, emit, return_. intros H; inversion H; subst.
    left. split; [reflexivity |]. split; cbn [fs log]; [reflexivity |].
    rewrite created_snoc. apply app_nil_r. }
  cbv zeta. change (set_path _ v) with (resolved L v f).
  destruct (pack_listing_runs (resolved L v f) w) as (w0 & Hl & Q0 & _).
  rewrite (bind_Next _ _ _ _ _ Hl).
  destruct (read_all (read_scalar L) scalar_items (resolved L v f) w0)
    as [[b | v1] w1] eqn:Hs.
  { rewrite (bind_Return _ _ _ _ _ Hs). intros H; inversion H; subst.
    apply read_all_scalar_frame in Hs as (Q1 & ->).
    left. split; [reflexivity | exact (quiet_trans _ _ _ Q0 Q1)]. }
  rewrite (bind_Next _ _ _ _ _ Hs).
  apply read_all_scalar_frame in Hs as (Q1 & P1 & B1 & _).
  assert (Q01 : quiet w w1) by exact (quiet_trans _ _ _ Q0 Q1).
  destruct (read_all read_blob pack_blob_items v1 w1) as [[b | v2] w2] eqn:Hb.
  { rewrite (bind_Return _ _ _ _ _ Hb). intros H; inversion H; subst.
    apply read_all_blob_frame in Hb as (Q2 & ->).
    left. split; [reflexivity | exact (quiet_trans _ _ _ Q01 Q2)]. }
  rewrite (bind_Next _ _ _ _ _ Hb).
  destruct (createFile_log L (pack_image L v2) f w2) as (ok & w3 & Hc & Hlog).
  rewrite (bind_Next _ _ _ _ _ Hc).
  intros H. right. exists v1, w1, v2, w2.
  pose proof (read_all_blob_frame _ _ _ _ _ Hb) as (Q2 & _).
  split; [exact P1 |]. split; [exact B1 |]. split; [exact Q01 |].
  split; [exact Hb |].
  assert (Hw3 : created (log w3) = created (log w) ++ [pack_image L v2]).
  { rewrite Hlog, created_snoc, (proj2 Q2), (proj2 Q01). reflexivity. }
  destruct ok; unfold bind, fprintf, emit, ret, return_ in H;
    inversion H; subst; cbn [log]; rewrite created_snoc, app_nil_r; exact Hw3.
Qed.

(** With no output file, or more than one, nothing is read or built. *)
Lemma pack_run_usage L v args w r w' :
  pack_run L v args w = (r, w') ->
  (forall f, args <> [f]) ->
  r = Return false /\ quiet w w'.
Proof.
  unfold pack_run. intros H Hargs.
  assert (Hq : forall m, quiet w (mkWorld (fs w) (errno w) (log w ++ [Print stderr m]))).
  { intros m. split; cbn [fs log]; [reflexivity |].
    rewrite created_snoc. apply app_nil_r. }
  destruct (bool_decide (type v = Loki) && is_empty (path v Aboot)).
  { unfold bind, fprintf, emit, return_ in H. inversion H; subst.
    split; [reflexivity | apply Hq]. }
  destruct args as [| f [| g args]];
    [| exfalso; exact (Hargs f eq_refl) |];
    unfold bind, fprintf, emit, return_ in H; inversion H; subst;
    (split; [reflexivity | apply Hq]).
Qed.

(** The blobs cannot all be read when a required one is missing. *)
Lemma read_all_blob_required l v w v' w' i :
  read_all read_blob l v w = (Next v', w') ->
  i ∈ l -> required_blob i = true -> missing w (path v i) -> False.
Proof.
  revert v w. induction l as [| j l IH]; intros v w H Hin Hr Hm.
  - apply elem_of_nil in Hin. exact Hin.
  - cbn [read_all] in H.
    destruct (decide (j = i)) as [-> | Hne].
    + rewrite (bind_Return _ _ _ _ _ (read_blob_missing_required i v w Hr Hm)) in H.
      discriminate H.
    + apply bind_inv in H as [(v1 & w1 & H1 & H2) | (b & _ & E)];
        [| discriminate E].
      apply read_blob_frame in H1 as (Q1 & P1 & _).
      apply (IH _ _ H2).
      * apply elem_of_cons in Hin as [E | Hin]; [congruence | exact Hin].
      * exact Hr.
      * rewrite P1. exact (missing_quiet _ _ _ Q1 Hm).
Qed.

Lemma required_blob_in i : required_blob i = true -> i ∈ pack_blob_items.
Proof. destruct i; intros H; first [compute_done | discriminate H]. Qed.

Lemma pack_image_blob L v i :
  i ∈ pack_blob_items -> image_blob (pack_image L v) i = blob v i.
Proof. destruct i; intros H; first [reflexivity | exfalso; revert H; compute_done]. Qed.

(** An image that pack builds has an empty blob for an optional item whose
    file is missing, when the blob variable started empty. *)
Lemma pack_run_missing_blob L v args w r w' i bi :
  pack_run L v args w = (r, w') ->
  i ∈ pack_blob_items -> required_blob i = false -> blob v i = [] ->
  (forall f, args = [f] -> missing w (path (resolved L v f) i)) ->
  bi ∈ created (log w') ->
  bi ∈ created (log w) \/ image_blob bi i = [].
Proof.
  intros H Hin Hr Hb Hm Hbi.
  assert (Hcase : (exists f, args = [f]) \/ (forall f, args <> [f])).
  { destruct args as [| f [| g args]];
      [right; intros f; discriminate | left; exists f; reflexivity
      | right; intros f'; discriminate]. }
  destruct Hcase as [[f ->] | Hargs].
  - apply pack_run_inv in H
      as [[_ [_ Hc]] | (v1 & w1 & v2 & w2 & P1 & B1 & Q1 & Hrd & Hc)].
    + left. rewrite <- Hc. exact Hbi.
    + rewrite Hc in Hbi. apply elem_of_app in Hbi as [Hbi | Hbi];
        [left; exact Hbi | right].
      apply list_elem_of_singleton in Hbi. subst bi.
      rewrite (pack_image_blob _ _ _ Hin).
      rewrite (read_all_blob_missing _ _ _ _ _ i Hrd Hr).
      * rewrite B1. exact Hb.
      * rewrite P1. exact (missing_quiet _ _ _ Q1 (Hm f eq_refl)).
  - apply pack_run_usage in H as [_ [_ Hc]]; [| exact Hargs].
    left. rewrite <- Hc. exact Hbi.
Qed.

(** ** C5: the blobs *)

Lemma required_blob_true i : i ∈ required_items -> required_blob i = true.
Proof.
  intros H. apply elem_of_cons in H as [-> | H]; [reflexivity |].
  apply list_elem_of_singleton in H. subst i. reflexivity.
Qed.

Lemma required_blob_false i : i ∉ required_items -> required_blob i = false.
Proof.
  intros H. destruct i; try reflexivity; exfalso; apply H; compute_done.
Qed.

(** C5.  For a blob item other than kernel and ramdisk, a file that does
    not exist makes the read step go on with the variables unchanged, and
    every image that pack then builds has an empty blob for that item.  For
    kernel and ramdisk a missing file makes pack return false without
    building an image, whatever the type in [v].  A file that exists and is
    empty is read as the empty blob, for kernel and ramdisk too. *)
Theorem blob_resolution (L : Lib) (v : pack_vars) (w : world) (i : item) :
  i ∈ pack_blob_items ->
  (i ∉ required_items -> missing w (path v i) ->
     read_blob i v w
     = (Next v, mkWorld (fs w) ENOENT (log w ++ [Fopen (path v i) "rb" false]))) /\
  (i ∉ required_items -> blob v i = [] ->
     forall args r w' bi,
       pack_run L v args w = (r, w') ->
       (forall f, args = [f] -> missing w (path (resolved L v f) i)) ->
       bi ∈ created (log w') ->
       bi ∈ created (log w) \/ image_blob bi i = []) /\
  (i ∈ required_items ->
     forall f r w',
       missing w (path (resolved L v f) i) ->
       pack_run L v [f] w = (r, w') ->
       r = Return false /\ quiet w w') /\
  (path v i <> "" -> fs w !! path v i = Some (Regular "") ->
     read_blob i v w
     = (Next (set_blob i [] v),
        mkWorld (fs w) (errno w) (log w ++ [Fopen (path v i) "rb" true]))).
Proof.
  intros Hin. split; [| split; [| split]].
  - intros Hopt Hm.
    apply read_blob_missing_optional; [apply required_blob_false |]; assumption.
  - intros Hopt Hb args r w' bi Hrun Hm Hbi.
    apply (pack_run_missing_blob L v args w r w' i bi Hrun Hin
             (required_blob_false i Hopt) Hb Hm Hbi).
  - intros Hreq f r w' Hm Hrun.
    apply pack_run_inv in Hrun
      as [Hfail | (v1 & w1 & v2 & w2 & P1 & _ & Q1 & Hrd & _)];
      [exact Hfail | exfalso].
    apply (read_all_blob_required _ _ _ _ _ i Hrd Hin (required_blob_true i Hreq)).
    rewrite P1. exact (missing_quiet _ _ _ Q1 Hm).
  - intros Hp Hf. apply (read_blob_regular i v w "" Hp Hf).
Qed.

Lemma blob_resolution_witness :
  read_blob Second out_img_vars empty_kernel
  = (Next out_img_vars,
     mkWorld (fs empty_kernel) ENOENT [Fopen "./out.img-second" "rb" false]) /\
  read_blob Kernel out_img_vars empty_kernel
  = (Next (set_blob Kernel [] out_img_vars),
     mkWorld (fs empty_kernel) 0 [Fopen "./out.img-kernel" "rb" true]) /\
  fst (pack_run lib64 pack_init ["out.img"] empty_kernel) = Return false.
Proof.
  assert (HS : Second ∈ pack_blob_items) by compute_done.
  assert (HK : Kernel ∈ pack_blob_items) by compute_done.
  assert (HR : Ramdisk ∈ pack_blob_items) by compute_done.
  split; [| split].
  - apply (proj1 (blob_resolution lib64 out_img_vars empty_kernel Second HS)).
    + compute_done.
    + right. vm_compute. reflexivity.
  - apply (proj2 (proj2 (proj2
      (blob_resolution lib64 out_img_vars empty_kernel Kernel HK)))).
    + vm_compute. discriminate.
    + vm_compute. reflexivity.
  - apply (proj1 (proj2 (proj2
      (blob_resolution lib64 pack_init empty_kernel Ramdisk HR)))
      ltac:(compute_done) "out.img"
      (fst (pack_run lib64 pack_init ["out.img"] empty_kernel))
      (snd (pack_run lib64 pack_init ["out.img"] empty_kernel))).
    + right. vm_compute. reflexivity.
    + apply surjective_pairing.
Defined.

(** ** C10: aboot has no default path *)

Lemma other_blob_items i :
  i ∈ pack_blob_items -> i <> Aboot ->
  i ∈ unpack_blob_items /\ i ∉ scalar_items.
Proof.
  intros Hin Hne.
  destruct i; first [congruence | split; compute_done
                    | exfalso; revert Hin; compute_done].
Qed.

(** C10.  The resolution of the paths leaves the path of aboot as the
    command line gave it, while every other blob item with no path gets the
    default path.  With no aboot path the read step calls [fopen] on the
    empty path, which opens nothing, and goes on.  When the command line has
    no [--input-aboot], every image that pack hands to the codec has an
    empty aboot blob (for type loki pack builds no image at all). *)
Theorem aboot_has_no_default_path (L : Lib) (argv : list string) (w : world) :
  (forall v f, path (resolved L v f) Aboot = path v Aboot) /\
  (forall v f i, i ∈ pack_blob_items -> i <> Aboot -> path v i = "" ->
     path (resolved L v f) i
     = default_path L (effective_dir (input_dir v))
         (effective_prefix L (no_prefix v) (prefix v) f) i) /\
  (forall v, path v Aboot = "" ->
     read_blob Aboot v w
     = (Next v, mkWorld (fs w) ENOENT (log w ++ [Fopen "" "rb" false]))) /\
  (forall evs args r w' bi,
     getopt_long argv pack_optstring pack_long_options = (evs, args) ->
     last_arg (OPT_INPUT Aboot) evs = None ->
     pack_main L argv w = (r, w') ->
     bi ∈ created (log w') ->
     bi ∈ created (log w) \/ abootImage bi = []).
Proof.
  split; [| split; [| split]].
  - intros v f. unfold resolved. cbn [path set_path].
    rewrite pack_paths_blob by compute_done.
    rewrite (bool_decide_eq_false_2 (Aboot ∈ unpack_blob_items)) by compute_done.
    reflexivity.
  - intros v f i Hin Hne Hp. destruct (other_blob_items i Hin Hne) as [Hb Hs].
    unfold resolved. cbn [path set_path].
    rewrite (pack_paths_blob _ _ _ _ _ Hs), (bool_decide_eq_true_2 _ Hb), Hp.
    reflexivity.
  - intros v Hp.
    rewrite (read_blob_missing_optional Aboot v w eq_refl (or_introl Hp)), Hp.
    reflexivity.
  - intros evs args r w' bi Hget Hlast Hrun Hbi.
    unfold pack_main in Hrun. rewrite Hget in Hrun.
    apply bind_inv in Hrun as [(v & w1 & Ho & Hrun) | (b & Ho & _)].
    + apply pack_options_Next in Ho as (Hfs & Hlog & Hblob & Hpath & _).
      assert (Hpa : path v Aboot = "").
      { rewrite (Hpath Aboot), Hlast; [reflexivity |].
        intros Hs. exfalso. revert Hs. compute_done. }
      rewrite <- Hlog.
      apply (pack_run_missing_blob L v args w1 r w' Aboot bi Hrun);
        [compute_done | reflexivity | rewrite Hblob; reflexivity | | exact Hbi].
      intros f _. left.
      unfold resolved. cbn [path set_path].
      rewrite pack_paths_blob by compute_done.
      rewrite (bool_decide_eq_false_2 (Aboot ∈ unpack_blob_items)) by compute_done.
      exact Hpa.
    + apply pack_options_Return in Ho as (_ & (m & Hlog) & _).
      left. rewrite Hlog, created_snoc, app_nil_r in Hbi. exact Hbi.
Qed.

Lemma aboot_has_no_default_path_witness :
  created (log (snd (pack_main lib64 ["pack"; "out.img"]
                       (world0 kernel_and_ramdisk)))) <> [] /\
  forall bi,
    bi ∈ created (log (snd (pack_main lib64 ["pack"; "out.img"]
                              (world0 kernel_and_ramdisk)))) ->
    bi ∈ created (log (world0 kernel_and_ramdisk)) \/ abootImage bi = [].
Proof.
  split; [vm_compute; discriminate |].
  intros bi.
  apply (proj2 (proj2 (proj2
    (aboot_has_no_default_path lib64 ["pack"; "out.img"]
       (world0 kernel_and_ramdisk))))
    [] ["out.img"]
    (fst (pack_main lib64 ["pack"; "out.img"] (world0 kernel_and_ramdisk)))).
  - reflexivity.
  - reflexivity.
  - apply surjective_pairing.
Defined.

(** ** What [getopt_long] can return *)

Section Getopt.
Variable optstring : string.
Variable longopts : list long_option.

Let ok (e : Z * string) : Prop := returns optstring longopts (fst e).

Lemma short_cluster_returns s evs p :
  short_cluster optstring s = (evs, p) ->
  Forall ok evs /\ (forall q, p = Some q -> returns optstring longopts q).
Proof.
  revert evs p. induction s as [| c r IH]; intros evs p H.
  - inversion H; subst. split; [constructor | intros q E; discriminate E].
  - cbn [short_cluster] in H.
    destruct (short_lookup optstring c) as [[| |] |] eqn:Hl.
    + destruct (short_cluster optstring r) as [evs' p'].
      inversion H; subst. destruct (IH _ _ eq_refl) as [IH1 IH2].
      split; [| exact IH2]. constructor; [| exact IH1].
      right; left. exists c, no_argument. split; [exact Hl | reflexivity].
    + assert (Hc : returns optstring longopts (char_code c)).
      { right; left. exists c, required_argument. split; [exact Hl | reflexivity]. }
      destruct (is_empty r); inversion H; subst.
      * split; [constructor |]. intros q E. inversion E; subst. exact Hc.
      * split; [| intros q E; discriminate E].
        constructor; [exact Hc | constructor].
    + inversion H; subst. split; [| intros q E; discriminate E].
      constructor; [| constructor].
      right; left. exists c, optional_argument. split; [exact Hl | reflexivity].
    + destruct (short_cluster optstring r) as [evs' p'].
      inversion H; subst. destruct (IH _ _ eq_refl) as [IH1 IH2].
      split; [| exact IH2]. constructor; [| exact IH1]. left. reflexivity.
Qed.

Lemma long_lookup_in n o : long_lookup longopts n = Some o -> o ∈ longopts.
Proof.
  unfold long_lookup.
  destruct (List.find _ longopts) as [o' |] eqn:Hf.
  - intros E; inversion E; subst.
    apply find_some in Hf as [Hin _]. apply list_elem_of_In, Hin.
  - destruct (List.filter _ longopts) as [| o' others] eqn:Hfl;
      [discriminate |].
    destruct (forallb _ others); [| discriminate].
    intros E; inversion E; subst.
    assert (Hin : In o (List.filter (fun o0 => String.prefix n (opt_name o0))
                          longopts)) by (rewrite Hfl; left; reflexivity).
    apply filter_In in Hin as [Hin _]. apply list_elem_of_In, Hin.
Qed.

Lemma long_option_arg_returns s :
  match long_option_arg longopts s with
  | LongEvent c _ => returns optstring longopts c
  | LongPending c => returns optstring longopts c
  end.
Proof.
  unfold long_option_arg. destruct (split_eq s) as [n v].
  destruct (long_lookup longopts n) as [o |] eqn:Hl; [| left; reflexivity].
  apply long_lookup_in in Hl.
  assert (Ho : returns optstring longopts (opt_val o))
    by (right; right; exists o; split; [exact Hl | reflexivity]).
  destruct (opt_has_arg o), v; first [exact Ho | left; reflexivity].
Qed.

Lemma getopt_scan_returns args pending :
  (forall q, pending = Some q -> returns optstring longopts q) ->
  Forall ok (fst (getopt_scan optstring longopts args pending)).
Proof.
  revert pending. induction args as [| a rest IH]; intros pending Hp.
  - cbn. destruct pending; [| constructor].
    constructor; [left; reflexivity | constructor].
  - cbn [getopt_scan]. destruct pending as [q |].
    + specialize (IH None ltac:(intros q' E; discriminate E)).
      destruct (getopt_scan optstring longopts rest None) as [evs pos].
      cbn [fst] in *. constructor; [exact (Hp q eq_refl) | exact IH].
    + assert (Hnon :
        Forall ok (fst (let '(evs, pos) :=
                          getopt_scan optstring longopts rest None in
                        (evs, a :: pos)))).
      { specialize (IH None ltac:(intros q' E; discriminate E)).
        destruct (getopt_scan optstring longopts rest None) as [evs pos].
        exact IH. }
      destruct a as [| c0 [| c1 r]]; try exact Hnon.
      destruct (negb (is_dash c0)); [exact Hnon |].
      destruct (negb (is_dash c1)).
      * destruct (short_cluster optstring (String c1 r)) as [evs1 p] eqn:Hs.
        apply short_cluster_returns in Hs as [Hs1 Hs2].
        specialize (IH p Hs2).
        destruct (getopt_scan optstring longopts rest p) as [evs pos].
        cbn [fst] in *. apply Forall_app. split; assumption.
      * destruct (is_empty r); [constructor |].
        pose proof (long_option_arg_returns r) as Hl.
        destruct (long_option_arg longopts r) as [c a' | c].
        -- specialize (IH None ltac:(intros q' E; discriminate E)).
           destruct (getopt_scan optstring longopts rest None) as [evs pos].
           cbn [fst] in *. constructor; [exact Hl | exact IH].
        -- apply IH. intros q E. inversion E; subst. exact Hl.
Qed.
End Getopt.

Lemma char_code_inj a b : char_code a = char_code b -> a = b.
Proof.
  unfold char_code. intros H. apply N2Z.inj in H.
  rewrite <- (ascii_N_embedding a), <- (ascii_N_embedding b), H. reflexivity.
Qed.

(** Neither sub-command can see the option [h]. *)
Lemma no_help_code (optstring : string) (longopts : list long_option) c :
  short_lookup optstring "h" = None ->
  Forall (fun o => opt_val o <> char_code "h") longopts ->
  returns optstring longopts c -> c <> char_code "h".
Proof.
  intros Hs Hl [-> | [(ch & x & Hch & ->) | (o & Ho & ->)]].
  - discriminate.
  - intros E. apply char_code_inj in E. subst ch. congruence.
  - rewrite List.Forall_forall in Hl. apply Hl, list_elem_of_In, Ho.
Qed.

Lemma pack_never_sees_help argv a :
  (char_code "h", a)
    ∉ fst (getopt_long argv pack_optstring pack_long_options).
Proof.
  intros Hin.
  pose proof (getopt_scan_returns pack_optstring pack_long_options (tail argv)
                None ltac:(intros q E; discriminate E)) as H.
  rewrite List.Forall_forall in H.
  apply list_elem_of_In in Hin. specialize (H _ Hin). cbn [fst] in H.
  exact (no_help_code pack_optstring pack_long_options _ eq_refl
           ltac:(compute_done) H eq_refl).
Qed.

Lemma unpack_never_sees_help argv a :
  (char_code "h", a)
    ∉ fst (getopt_long argv unpack_optstring unpack_long_options).
Proof.
  intros Hin.
  pose proof (getopt_scan_returns unpack_optstring unpack_long_options
                (tail argv) None ltac:(intros q E; discriminate E)) as H.
  rewrite List.Forall_forall in H.
  apply list_elem_of_In in Hin. specialize (H _ Hin). cbn [fst] in H.
  exact (no_help_code unpack_optstring unpack_long_options _ eq_refl
           ltac:(compute_done) H eq_refl).
Qed.

(** ** C7: type loki needs an aboot image *)

(** C7.  When the last [-t] of the command line is [loki] and there is no
    [--input-aboot] (or its last path is empty), pack returns false; the
    file system is as before and all it has done is print one message on
    the standard error stream: no item file was opened and no image was
    handed to the codec.  When the other options are valid the message is
    the one asking for an aboot image. *)
Theorem loki_requires_aboot (L : Lib) (argv : list string) (w : world)
    (evs : list (Z * string)) (args : list string) :
  getopt_long argv pack_optstring pack_long_options = (evs, args) ->
  last_arg (char_code "t") evs = Some "loki" ->
  default "" (last_arg (OPT_INPUT Aboot) evs) = "" ->
  exists w',
    pack_main L argv w = (Return false, w') /\
    fs w' = fs w /\
    (exists m, log w' = log w ++ [Print stderr m]) /\
    (forall v w1, pack_options L evs pack_init w = (Next v, w1) ->
       log w' = log w ++ [Print stderr AbootNeeded]).
Proof.
  intros Hget Ht Ha. unfold pack_main. rewrite Hget.
  destruct (pack_options L evs pack_init w) as [[b | v] w1] eqn:Ho.
  - rewrite (bind_Return _ _ _ _ _ Ho).
    apply pack_options_Return in Ho as (Hfs & (m & Hlog) & Hb).
    destruct b.
    + exfalso. destruct (Hb eq_refl) as [a Hin].
      apply (pack_never_sees_help argv a). rewrite Hget. exact Hin.
    + exists w1. split; [reflexivity |]. split; [exact Hfs |].
      split; [exists m; exact Hlog |]. intros v w2 E. discriminate E.
  - rewrite (bind_Next _ _ _ _ _ Ho).
    apply pack_options_Next in Ho as (Hfs & Hlog & _ & Hpath & _ & _ & Hty).
    rewrite Ht in Hty. inversion Hty as [Hloki].
    assert (Hpa : path v Aboot = "").
    { rewrite (Hpath Aboot); [exact Ha |].
      intros Hs. exfalso. revert Hs. compute_done. }
    unfold pack_run. rewrite <- Hloki, Hpa.
    rewrite bool_decide_eq_true_2 by reflexivity. cbn [andb is_empty].
    eexists. split; [reflexivity |]. cbn [fs log].
    split; [exact Hfs |]. rewrite Hlog.
    split; [eexists; reflexivity |]. intros; reflexivity.
Qed.

Lemma loki_requires_aboot_witness :
  exists w',
    pack_main lib64 ["pack"; "out.img"; "-t"; "loki"]
      (world0 kernel_and_ramdisk) = (Return false, w') /\
    fs w' = fs (world0 kernel_and_ramdisk) /\
    (exists m, log w' = log (world0 kernel_and_ramdisk) ++ [Print stderr m]) /\
    (forall v w1,
       pack_options lib64 [(char_code "t", "loki")] pack_init
         (world0 kernel_and_ramdisk) = (Next v, w1) ->
       log w' = log (world0 kernel_and_ramdisk) ++ [Print stderr AbootNeeded]).
Proof.
  apply (loki_requires_aboot lib64 ["pack"; "out.img"; "-t"; "loki"]
           (world0 kernel_and_ramdisk) [(char_code "t", "loki")] ["out.img"]).
  - reflexivity.
  - reflexivity.
  - reflexivity.
Defined.

(** ** C3: value, path, default *)

Lemma has_value_init k : has_value pack_init k = false.
Proof. unfold has_value. cbn [values pack_init]. rewrite lookup_empty. reflexivity. Qed.

(** The read step of a scalar item calls [fopen] on its target and on
    nothing else. *)
Lemma read_scalar_fopens L X v w :
  fopens (log (snd (read_scalar L X v w)))
  = fopens (log w) ++ match read_target v X with
                      | Some p => [p]
                      | None => []
                      end.
Proof.
  unfold read_target.
  destruct (has_value v (OPT_VALUE X)) eqn:Hv.
  - unfold read_scalar, read_text, read_num. rewrite Hv.
    destruct (bool_decide (X ∈ text_items)); cbn; rewrite app_nil_r; reflexivity.
  - destruct (read_scalar L X v w) as [r w'] eqn:H.
    crunch H; cbn [snd log];
      repeat (rewrite fopens_snoc; cbn [app]);
      rewrite ?app_nil_r, <- ?app_assoc; first [reflexivity | congruence].
Qed.

(** C3.  After the option loop and the resolution of the paths, for a
    scalar item X: if a [--value-X] was given (with or without an
    [--input-X], before or after it), the read step does nothing at all, so
    no file is opened for X and the literal is the item's value; if only a
    non-empty [--input-X] path was given, that path is the one the read
    step opens; if neither was given, it is the default path.  The read
    step never calls [fopen] on anything but this one target. *)
Theorem override_precedence (L : Lib) (evs : list (Z * string)) (f : string)
    (w0 w : world) (v : pack_vars) (X : item) :
  X ∈ scalar_items ->
  pack_options L evs pack_init w0 = (Next v, w) ->
  (forall lit, last_arg (OPT_VALUE X) evs = Some lit ->
     read_target (resolved L v f) X = None /\
     holds_literal L (resolved L v f) X lit /\
     forall w1, read_scalar L X (resolved L v f) w1
                = (Next (resolved L v f), w1)) /\
  (forall p, last_arg (OPT_VALUE X) evs = None ->
     last_arg (OPT_INPUT X) evs = Some p -> p <> "" ->
     read_target (resolved L v f) X = Some p) /\
  (last_arg (OPT_VALUE X) evs = None ->
   default "" (last_arg (OPT_INPUT X) evs) = "" ->
   read_target (resolved L v f) X
   = Some (default_path L (effective_dir (input_dir v))
             (effective_prefix L (no_prefix v) (prefix v) f) X)) /\
  (forall w1,
     fopens (log (snd (read_scalar L X (resolved L v f) w1)))
     = fopens (log w1) ++ match read_target (resolved L v f) X with
                          | Some p => [p]
                          | None => []
                          end).
Proof.
  intros Hs Ho.
  apply pack_options_Next in Ho as (_ & _ & _ & Hpath & Hkeep & Hlit & _).
  assert (Hflag : has_value (resolved L v f) (OPT_VALUE X)
                  = has_value v (OPT_VALUE X)) by reflexivity.
  assert (Hres : path (resolved L v f) X
                 = if is_empty (path v X) && negb (has_value v (OPT_VALUE X))
                   then default_path L (effective_dir (input_dir v))
                          (effective_prefix L (no_prefix v) (prefix v) f) X
                   else path v X)
    by (apply pack_paths_scalar, Hs).
  split; [| split; [| split]].
  - intros lit Hl. destruct (Hlit X lit Hs Hl) as [Hv Hh].
    split; [| split].
    + unfold read_target. rewrite Hflag, Hv. reflexivity.
    + exact Hh.
    + intros w1. unfold read_scalar, read_text, read_num.
      rewrite Hflag, Hv. destruct (bool_decide (X ∈ text_items)); reflexivity.
  - intros p Hn Hp Hne. destruct (Hkeep X Hs Hn) as (Hv & _).
    rewrite has_value_init in Hv.
    unfold read_target. rewrite Hflag, Hv, Hres, Hv.
    rewrite (Hpath X (fun _ => Hn)), Hp. cbn [from_option id].
    rewrite (is_empty_false _ Hne). reflexivity.
  - intros Hn Hp. destruct (Hkeep X Hs Hn) as (Hv & _).
    rewrite has_value_init in Hv.
    unfold read_target. rewrite Hflag, Hv, Hres, Hv.
    rewrite (Hpath X (fun _ => Hn)). cbn [path pack_init]. rewrite Hp.
    reflexivity.
  - intros w1. apply read_scalar_fopens.
Qed.

Lemma override_precedence_witness :
  (read_target (resolved lib64 (parsed lib64 argv_value_then_path) "out.img")
     Base = None /\
   num (parsed lib64 argv_value_then_path) Base = 536870912) /\
  (read_target (resolved lib64 (parsed lib64 argv_path_then_value) "out.img")
     Base = None /\
   forall w1,
     read_scalar lib64 Base
       (resolved lib64 (parsed lib64 argv_path_then_value) "out.img") w1
     = (Next (resolved lib64 (parsed lib64 argv_path_then_value) "out.img"),
        w1)) /\
  read_target (resolved lib64 (parsed lib64 argv_path_only) "out.img") Base
    = Some "/no/base" /\
  read_target (resolved lib64 (parsed lib64 argv_plain) "out.img") Base
    = Some "./out.img-base".
Proof.
  assert (HB : Base ∈ scalar_items) by compute_done.
  split; [| split; [| split]].
  - split; [| reflexivity].
    apply (proj1 (override_precedence lib64
      [(OPT_VALUE Base, "20000000"); (OPT_INPUT Base, "/no/base")] "out.img"
      (world0 []) (world0 []) (parsed lib64 argv_value_then_path) Base HB
      ltac:(vm_compute; reflexivity)) "20000000" eq_refl).
  - pose proof (proj1 (override_precedence lib64
      [(OPT_INPUT Base, "/no/base"); (OPT_VALUE Base, "20000000")] "out.img"
      (world0 []) (world0 []) (parsed lib64 argv_path_then_value) Base HB
      ltac:(vm_compute; reflexivity)) "20000000" eq_refl) as (H1 & _ & H3).
    split; [exact H1 | exact H3].
  - apply (proj1 (proj2 (override_precedence lib64
      [(OPT_INPUT Base, "/no/base")] "out.img"
      (world0 []) (world0 []) (parsed lib64 argv_path_only) Base HB
      ltac:(vm_compute; reflexivity))) "/no/base" eq_refl eq_refl).
    discriminate.
  - apply (proj1 (proj2 (proj2 (override_precedence lib64
      [] "out.img"
      (world0 []) (world0 []) (parsed lib64 argv_plain) Base HB
      ltac:(vm_compute; reflexivity)))) eq_refl eq_refl).
Defined.

(** ** C6: the default paths and the prefix *)

(** C6 as it is stated fails for aboot: pack computes no default path for
    it, so with no [--input-aboot] its path stays empty. *)
Lemma default_path_for_every_item_fails :
  ~ (forall i, i ∈ pack_items ->
       path (parsed lib64 argv_plain) i = "" ->
       path (resolved lib64 (parsed lib64 argv_plain) "out.img") i
       = default_path lib64 "." "out.img-" i).
Proof.
  intros H. specialize (H Aboot ltac:(compute_done) eq_refl).
  vm_compute in H. discriminate H.
Qed.

Lemma pack_item_cases i :
  i ∈ pack_items -> i <> Aboot ->
  i ∈ scalar_items \/ ((i ∉ scalar_items) /\ i ∈ unpack_blob_items).
Proof.
  intros Hin Hne.
  destruct i; first [congruence | left; compute_done
                    | right; split; compute_done].
Qed.

(** C6, amended.  The prefix in front of the item names is the given prefix
    and ["-"], or the base name of the image file and ["-"] when no prefix
    was given, or empty in no-prefix mode.  Unpack gives every item without
    a path of its own the path [pathJoin {dir, prefix + key}]; pack does so
    for every item but aboot (whose path stays as given), provided a scalar
    item has no value option.  With the path functions of the spec,
    [unpack boot.img -o out/] writes [out/boot.img-cmdline] and so on, and
    with [-n] it writes [out/cmdline] and so on. *)
Theorem default_paths (L : Lib) :
  (forall p file, p <> "" -> effective_prefix L false p file = p +:+ "-") /\
  (forall file, effective_prefix L false "" file = baseName L file +:+ "-") /\
  (forall p file, effective_prefix L true p file = "") /\
  (forall dir pfx paths i, i ∈ unpack_items -> paths i = "" ->
     unpack_paths L dir pfx paths i = pathJoin L [dir; pfx +:+ key i]) /\
  (forall dir pfx paths i, paths i <> "" ->
     unpack_paths L dir pfx paths i = paths i) /\
  (forall v f i, i ∈ pack_items -> i <> Aboot -> path v i = "" ->
     has_value v (OPT_VALUE i) = false ->
     path (resolved L v f) i
     = pathJoin L [effective_dir (input_dir v);
                   effective_prefix L (no_prefix v) (prefix v) f +:+ key i]) /\
  (forall v f i, i ∈ pack_items -> path v i <> "" ->
     path (resolved L v f) i = path v i) /\
  (forall v f, path (resolved L v f) Aboot = path v Aboot) /\
  written (log (snd (unpack_main lib64 ["unpack"; "boot.img"; "-o"; "out/"]
                       boot_img)))
    = map (fun i => ("out/boot.img-" +:+ key i)) unpack_items /\
  written (log (snd (unpack_main lib64 ["unpack"; "boot.img"; "-o"; "out/"; "-n"]
                       boot_img)))
    = map (fun i => ("out/" +:+ key i)) unpack_items.
Proof.
  split; [| split; [| split; [| split; [| split; [| split; [| split; [| split;
    [| split]]]]]]]].
  - intros p file Hp. unfold effective_prefix.
    rewrite (is_empty_false _ Hp). reflexivity.
  - reflexivity.
  - reflexivity.
  - intros dir pfx paths i Hin Hp. unfold unpack_paths.
    rewrite fold_resolve_path, (bool_decide_eq_true_2 _ Hin), Hp. reflexivity.
  - intros dir pfx paths i Hp. unfold unpack_paths.
    rewrite fold_resolve_path, (is_empty_false _ Hp), andb_false_r. reflexivity.
  - intros v f i Hin Hne Hp Hv. unfold resolved. cbn [path set_path].
    destruct (pack_item_cases i Hin Hne) as [Hs | [Hs Hb]].
    + rewrite (pack_paths_scalar _ _ _ _ _ Hs), Hp, Hv. reflexivity.
    + rewrite (pack_paths_blob _ _ _ _ _ Hs), (bool_decide_eq_true_2 _ Hb), Hp.
      reflexivity.
  - intros v f i Hin Hp. unfold resolved. cbn [path set_path].
    destruct (decide (i ∈ scalar_items)) as [Hs | Hs].
    + rewrite (pack_paths_scalar _ _ _ _ _ Hs), (is_empty_false _ Hp). reflexivity.
    + rewrite (pack_paths_blob _ _ _ _ _ Hs), (is_empty_false _ Hp), andb_false_r.
      reflexivity.
  - intros v f. unfold resolved. cbn [path set_path].
    rewrite pack_paths_blob by compute_done.
    rewrite (bool_decide_eq_false_2 (Aboot ∈ unpack_blob_items)) by compute_done.
    reflexivity.
  - vm_compute. reflexivity.
  - vm_compute. reflexivity.
Qed.

Lemma default_paths_witness :
  effective_prefix lib64 false "boot" "/tmp/boot.img" = "boot-" /\
  unpack_paths lib64 "out/" "boot.img-" (fun _ => "") Kernel
    = "out/boot.img-kernel" /\
  path (resolved lib64 pack_init "out.img") PageSize = "./out.img-page_size".
Proof.
  destruct (default_paths lib64) as (H1 & _ & _ & H4 & _ & H6 & _).
  split; [| split].
  - apply (H1 "boot" "/tmp/boot.img"). discriminate.
  - apply (H4 "out/" "boot.img-" (fun _ => "") Kernel).
    + compute_done.
    + reflexivity.
  - apply (H6 pack_init "out.img" PageSize).
    + compute_done.
    + discriminate.
    + reflexivity.
    + reflexivity.
Defined.

(** ** Hexadecimal digits *)

Ltac char_cases :=
  unfold isxdigit, xdigit_val, digit_val, isspace, is_sign, is_x in *;
  repeat match goal with
  | H : context [?a <=? ?b] |- _ => destruct (Z.leb_spec a b)
  | H : context [?a =? ?b] |- _ => destruct (Z.eqb_spec a b)
  | H : context [?a <? ?b] |- _ => destruct (Z.ltb_spec a b)
  | |- context [?a <=? ?b] => destruct (Z.leb_spec a b)
  | |- context [?a =? ?b] => destruct (Z.eqb_spec a b)
  | |- context [?a <? ?b] => destruct (Z.ltb_spec a b)
  end;
  cbn in *; try discriminate;
  repeat match goal with
  | H : Some _ = Some _ |- _ => inversion H; clear H
  end;
  try congruence; try lia.

Lemma xdigit_facts c :
  isxdigit c = true ->
  isspace c = false /\ is_sign c = false /\ is_x c = false /\
  exists d, xdigit_val c = Some d /\ digit_val 16 c = Some d /\ 0 <= d < 16.
Proof.
  intros H. repeat split; try (char_cases; fail).
  unfold isxdigit in H. destruct (xdigit_val c) as [d |] eqn:Hd; [| discriminate].
  assert (Hr : 0 <= d < 16) by (clear H; char_cases).
  exists d. split; [reflexivity |]. split; [| exact Hr].
  unfold digit_val. rewrite Hd.
  destruct (Z.ltb_spec d 16); [reflexivity | lia].
Qed.

Lemma not_xdigit_no_digit c : isxdigit c = false -> digit_val 16 c = None.
Proof.
  unfold isxdigit, digit_val. destruct (xdigit_val c); [discriminate | reflexivity].
Qed.

Lemma hex_acc_mono s a : all_xdigits s = true -> 0 <= a -> a <= hex_acc a s.
Proof.
  revert a. induction s as [| c r IH]; intros a Hs Ha; cbn [hex_acc]; [lia |].
  cbn [all_xdigits] in Hs. apply andb_prop in Hs as [Hc Hr].
  destruct (xdigit_facts c Hc) as (_ & _ & _ & d & Hd & _ & Hrange).
  rewrite Hd. cbn [from_option id].
  specialize (IH (a * 16 + d) Hr ltac:(lia)). lia.
Qed.

Lemma hex_acc_bound s a :
  all_xdigits s = true -> 0 <= a ->
  hex_acc a s < (a + 1) * 16 ^ Z.of_nat (String.length s).
Proof.
  revert a. induction s as [| c r IH]; intros a Hs Ha.
  - cbn. lia.
  - cbn [all_xdigits] in Hs. apply andb_prop in Hs as [Hc Hr].
    destruct (xdigit_facts c Hc) as (_ & _ & _ & d & Hd & _ & Hrange).
    cbn [hex_acc String.length]. rewrite Hd. cbn [from_option id].
    specialize (IH (a * 16 + d) Hr ltac:(lia)).
    rewrite Nat2Z.inj_succ, Z.pow_succ_r by lia.
    assert (Hp : 0 < 16 ^ Z.of_nat (String.length r))
      by (apply Z.pow_pos_nonneg; lia).
    nia.
Qed.

Lemma hex_value_uint32 s :
  all_xdigits s = true -> (String.length s <= 8)%nat ->
  is_uint32 (hex_value s).
Proof.
  intros Hs Hl. unfold is_uint32, hex_value, UINT32_MOD.
  pose proof (hex_acc_mono s 0 Hs ltac:(lia)).
  pose proof (hex_acc_bound s 0 Hs ltac:(lia)) as Hb.
  assert (16 ^ Z.of_nat (String.length s) <= 16 ^ 8)
    by (apply Z.pow_le_mono_r; lia).
  change (16 ^ 8) with (2 ^ 32) in *. lia.
Qed.

Lemma append_nil_r s : s +:+ "" = s.
Proof.
  induction s as [| c r IH]; [reflexivity |].
  change (String c r +:+ "") with (String c (r +:+ "")). rewrite IH. reflexivity.
Qed.

(** [strtoul]'s digit loop on a string of digits that stays in range. *)
Lemma strtoul_digits_all M s a n :
  all_xdigits s = true -> 0 <= a -> hex_acc a s <= M ->
  strtoul_digits M 16 s a false n
  = (hex_acc a s, false, (n + String.length s)%nat, "").
Proof.
  revert a n. induction s as [| c r IH]; intros a n Hs Ha HM.
  - cbn. rewrite Nat.add_0_r. reflexivity.
  - cbn [all_xdigits] in Hs. apply andb_prop in Hs as [Hc Hr].
    destruct (xdigit_facts c Hc) as (_ & _ & _ & d & Hd & Hdv & Hrange).
    cbn [strtoul_digits hex_acc String.length] in *. rewrite Hdv.
    rewrite Hd in *. cbn [from_option id] in *.
    pose proof (hex_acc_mono r (a * 16 + d) Hr ltac:(lia)).
    cbn [orb]. destruct (Z.ltb_spec M (a * 16 + d)); [lia |].
    rewrite (IH (a * 16 + d) (S n) Hr ltac:(lia) HM).
    rewrite Nat.add_succ_r. reflexivity.
Qed.

(** [fscanf]'s digit loop takes all the digits when the width allows. *)
Lemma scan_digits_all s rest width :
  all_xdigits s = true -> ends_number rest = true ->
  width < 0 \/ Z.of_nat (String.length s) <= width ->
  scan_digits 16 (s +:+ rest) width = (s, rest).
Proof.
  revert width. induction s as [| c r IH]; intros width Hs He Hw.
  - change ("" +:+ rest) with rest. destruct rest as [| c r]; [reflexivity |].
    cbn [scan_digits]. destruct (width =? 0); [reflexivity |].
    cbn [ends_number] in He. apply andb_prop in He as [He _].
    apply negb_true_iff in He. rewrite (not_xdigit_no_digit c He). reflexivity.
  - cbn [all_xdigits] in Hs. apply andb_prop in Hs as [Hc Hr].
    destruct (xdigit_facts c Hc) as (_ & _ & _ & d & _ & Hdv & _).
    change (String c r +:+ rest) with (String c (r +:+ rest)).
    cbn [scan_digits String.length] in *. rewrite Hdv.
    destruct (Z.eqb_spec width 0) as [E | E]; [lia |].
    rewrite (IH (dec_width width) Hr He); [reflexivity |].
    unfold dec_width. destruct (Z.ltb_spec 0 width); lia.
Qed.

Lemma strtoul_hex M s :
  all_xdigits s = true -> s <> "" -> hex_value s <= M ->
  strtoul M s 16 = (hex_value s, "", false).
Proof.
  intros Hs Hne HM. destruct s as [| c r]; [congruence |].
  pose proof Hs as Hs'. cbn [all_xdigits] in Hs'.
  apply andb_prop in Hs' as [Hc Hr].
  destruct (xdigit_facts c Hc) as (Hsp & Hsg & _ & _).
  unfold strtoul. cbn [skip_space]. rewrite Hsp, Hsg.
  assert (Hstrip : strip_0x 16 (String c r) = String c r).
  { unfold strip_0x. destruct r as [| c1 [| c2 r2]]; try reflexivity.
    cbn [all_xdigits] in Hr. apply andb_prop in Hr as [Hc1 _].
    destruct (xdigit_facts c1 Hc1) as (_ & _ & Hx & _).
    rewrite Hx, andb_false_r. reflexivity. }
  rewrite Hstrip.
  rewrite (strtoul_digits_all M (String c r) 0 0 Hs ltac:(lia) HM).
  reflexivity.
Qed.

(** [fscanf ("%08x")] on a file that starts with one to eight digits. *)
Lemma scan_08x_digits M digits rest :
  all_xdigits digits = true ->
  (1 <= String.length digits <= 8)%nat ->
  ends_number rest = true ->
  2 ^ 32 - 1 <= M ->
  scan_08x M (digits +:+ rest) = ScanOK (hex_value digits).
Proof.
  intros Hs Hlen He HM.
  pose proof (hex_value_uint32 digits Hs ltac:(lia)) as Hv.
  assert (HvM : hex_value digits <= M)
    by (unfold is_uint32, UINT32_MOD in Hv; lia).
  destruct digits as [| c r]; [cbn in Hlen; lia |].
  pose proof Hs as Hs'. cbn [all_xdigits] in Hs'.
  apply andb_prop in Hs' as [Hc Hr].
  destruct (xdigit_facts c Hc) as (Hsp & Hsg & _ & _).
  cbn [String.length] in Hlen.
  assert (Hto : strtoul M (String c r) 16 = (hex_value (String c r), "", false))
    by (apply strtoul_hex; [exact Hs | discriminate | exact HvM]).
  unfold scan_08x, scan_number.
  change (String c r +:+ rest) with (String c (r +:+ rest)).
  cbn [skip_space]. rewrite Hsp, Hsg.
  change (negb (8 =? 0)) with true. cbn [andb].
  destruct (Z.eqb_spec (char_code c) 48) as [E48 | E48].
  - assert (Ec : c = "0"%char) by (apply char_code_inj; exact E48).
    assert (Hnx : match r +:+ rest with
                  | String c2 _ => is_x c2 = false
                  | EmptyString => True
                  end).
    { destruct r as [| c1 r1].
      - change ("" +:+ rest) with rest. destruct rest as [| c2 r2]; [exact I |].
        cbn [ends_number] in He. apply andb_prop in He as [_ He].
        apply negb_true_iff, He.
      - change (String c1 r1 +:+ rest) with (String c1 (r1 +:+ rest)).
        cbn [all_xdigits] in Hr. apply andb_prop in Hr as [Hc1 _].
        apply (xdigit_facts c1 Hc1). }
    assert (Hd : scan_digits 16 (r +:+ rest) 7 = (r, rest))
      by (apply scan_digits_all; [exact Hr | exact He | right; lia]).
    assert (Hzero :
      match r +:+ rest with
      | String c2 r2 =>
          if negb (dec_width 8 =? 0) && is_x c2 && (16 =? 16)
          then ("0", r2, dec_width (dec_width 8))
          else ("0", r +:+ rest, dec_width 8)
      | EmptyString => ("0", r +:+ rest, dec_width 8)
      end = ("0", r +:+ rest, 7)).
    { destruct (r +:+ rest) as [| c2 r2]; [reflexivity |].
      rewrite Hnx. reflexivity. }
    rewrite Hzero, Hd. subst c.
    change ("" +:+ "0" +:+ r) with (String "0" r).
    change (is_empty (String "0" r)) with false.
    cbn [orb is_empty negb andb]. rewrite Hto.
    unfold string_eqb. rewrite bool_decide_eq_false_2 by discriminate.
    rewrite (to_uint32_small _ Hv). reflexivity.
  - assert (Hd : scan_digits 16 (String c (r +:+ rest)) 8 = (String c r, rest)).
    { apply (scan_digits_all (String c r) rest 8 Hs He). right.
      cbn [String.length]. lia. }
    rewrite Hd.
    change ("" +:+ "" +:+ String c r) with (String c r).
    cbn [orb is_empty negb andb]. rewrite Hto.
    unfold string_eqb. rewrite bool_decide_eq_false_2 by discriminate.
    rewrite (to_uint32_small _ Hv). reflexivity.
Qed.

Lemma scan_digits_xdigits s : forall width ds rest,
  scan_digits 16 s width = (ds, rest) -> all_xdigits ds = true.
Proof.
  induction s as [| c r IH]; intros width ds rest H.
  - inversion H. reflexivity.
  - cbn [scan_digits] in H. destruct (width =? 0); [inversion H; reflexivity |].
    destruct (digit_val 16 c) as [d |] eqn:Hd; [| inversion H; reflexivity].
    destruct (scan_digits 16 r (dec_width width)) as [ds' rest'] eqn:Hr.
    inversion H; subst. cbn [all_xdigits]. rewrite (IH _ _ _ Hr), andb_true_r.
    unfold isxdigit. unfold digit_val in Hd.
    destruct (xdigit_val c); [reflexivity | discriminate Hd].
Qed.

Lemma scan_digits_first c r width :
  isxdigit c = true -> width <> 0 ->
  exists ds rest, scan_digits 16 (String c r) width = (String c ds, rest).
Proof.
  intros Hc Hw. destruct (xdigit_facts c Hc) as (_ & _ & _ & d & _ & Hdv & _).
  cbn [scan_digits]. destruct (Z.eqb_spec width 0); [contradiction |].
  rewrite Hdv. destruct (scan_digits 16 r (dec_width width)) as [ds rest].
  exists ds, rest. reflexivity.
Qed.

Lemma strtoul_digits_total M s : forall a ovf n,
  all_xdigits s = true ->
  exists acc ovf',
    strtoul_digits M 16 s a ovf n = (acc, ovf', (n + String.length s)%nat, "").
Proof.
  induction s as [| c r IH]; intros a ovf n Hs.
  - exists a, ovf. cbn. rewrite Nat.add_0_r. reflexivity.
  - cbn [all_xdigits] in Hs. apply andb_prop in Hs as [Hc Hr].
    destruct (xdigit_facts c Hc) as (_ & _ & _ & d & _ & Hdv & _).
    cbn [strtoul_digits String.length]. rewrite Hdv.
    rewrite Nat.add_succ_r.
    destruct (ovf || (M <? a * 16 + d)); apply IH; exact Hr.
Qed.

Lemma strip_0x_xdigits s : all_xdigits s = true -> strip_0x 16 s = s.
Proof.
  intros Hs. unfold strip_0x. destruct s as [| c0 [| c1 [| c2 r]]]; try reflexivity.
  cbn [all_xdigits] in Hs. apply andb_prop in Hs as [_ Hs].
  apply andb_prop in Hs as [Hc1 _].
  destruct (xdigit_facts c1 Hc1) as (_ & _ & Hx & _).
  rewrite Hx, andb_false_r. reflexivity.
Qed.

Lemma sign_no_space c : is_sign c = true -> isspace c = false.
Proof. intros H. char_cases. Qed.

(** [strtoul] takes the whole of an optional sign with digits after it. *)
Lemma strtoul_signed M sg ds :
  sg = "" \/ (exists c, is_sign c = true /\ sg = String c "") ->
  all_xdigits ds = true -> ds <> "" ->
  exists num er, strtoul M (sg +:+ ds) 16 = (num, "", er).
Proof.
  intros Hsg Hs Hne.
  destruct (strtoul_digits_total M ds 0 false 0 Hs) as (acc & ovf & Hd).
  assert (Hlen : exists k, (0 + String.length ds)%nat = S k).
  { destruct ds as [| c r]; [congruence |]. exists (String.length r). reflexivity. }
  destruct Hlen as [k Hk]. rewrite Hk in Hd.
  destruct Hsg as [-> | (c & Hc & ->)].
  - change ("" +:+ ds) with ds. unfold strtoul.
    destruct ds as [| c r]; [congruence |].
    pose proof Hs as Hs'. cbn [all_xdigits] in Hs'.
    apply andb_prop in Hs' as [Hc _].
    destruct (xdigit_facts c Hc) as (Hsp & Hsgn & _ & _).
    cbn [skip_space]. rewrite Hsp, Hsgn, (strip_0x_xdigits _ Hs), Hd.
    destruct ovf; eexists _, _; reflexivity.
  - change (String c "" +:+ ds) with (String c ds). unfold strtoul.
    cbn [skip_space]. rewrite (sign_no_space c Hc), Hc.
    rewrite (strip_0x_xdigits _ Hs), Hd.
    destruct ovf; eexists _, _; reflexivity.
Qed.

(** The end of [fscanf]'s conversion when digits were kept. *)
Lemma scan_kept M sg ds :
  sg = "" \/ (exists c, is_sign c = true /\ sg = String c "") ->
  all_xdigits ds = true -> ds <> "" ->
  exists n, is_uint32 n /\
    (let buf := sg +:+ ds in
     if is_empty buf || (negb (is_empty sg) && is_empty ds)
     then ScanFail
     else
       let '(num, rest, _) := strtoul M buf 16 in
       if string_eqb rest buf then ScanFail else ScanOK (to_uint32 num))
    = ScanOK n.
Proof.
  intros Hsg Hs Hne.
  destruct (strtoul_signed M sg ds Hsg Hs Hne) as (num & er & Hto).
  exists (to_uint32 num). split; [apply to_uint32_range |].
  cbv zeta. rewrite Hto.
  assert (Hbuf : sg +:+ ds <> "").
  { destruct Hsg as [-> | (c & _ & ->)]; [exact Hne | discriminate]. }
  assert (He : is_empty ds = false) by (destruct ds; [congruence | reflexivity]).
  assert (Hb : is_empty (sg +:+ ds) = false)
    by (destruct (sg +:+ ds); [congruence | reflexivity]).
  rewrite Hb, He, andb_false_r. cbn [orb].
  unfold string_eqb. rewrite bool_decide_eq_false_2; [reflexivity |].
  intros E. apply Hbuf. symmetry. exact E.
Qed.

Ltac scan_finish M sg zero :=
  match goal with
  | |- context [scan_digits 16 ?s ?w] =>
      let ds := fresh "ds" in let rest := fresh "rest" in
      let Hds := fresh "Hds" in
      destruct (scan_digits 16 s w) as [ds rest] eqn:Hds;
      pose proof (scan_digits_xdigits _ _ _ _ Hds);
      apply (scan_kept M sg (zero +:+ ds))
  end.

Lemma scan_08x_accepts M content :
  lacks_number content = false ->
  exists n, is_uint32 n /\ scan_08x M content = ScanOK n.
Proof.
  unfold lacks_number, scan_08x, scan_number.
  destruct (skip_space content) as [| c r]; [discriminate |].
  destruct (is_sign c) eqn:Hsg.
  - destruct r as [| d r']; [discriminate |]. intros Hd.
    apply negb_false_iff in Hd. change (dec_width 8) with 7.
    cbv beta iota zeta.
    destruct (Z.eqb_spec (char_code d) 48) as [E | E].
    + change (negb (7 =? 0) && true) with true. cbv beta iota zeta.
      change (dec_width 7) with 6.
      destruct r' as [| c2 r2].
      * scan_finish M (String c "") "0"; [right; exists c; split; [exact Hsg | reflexivity] | assumption | discriminate].
      * destruct (is_x c2); cbn [negb andb Z.eqb Pos.eqb]; cbv beta iota zeta.
        -- scan_finish M (String c "") "0"; [right; exists c; split; [exact Hsg | reflexivity] | assumption | discriminate].
        -- scan_finish M (String c "") "0"; [right; exists c; split; [exact Hsg | reflexivity] | assumption | discriminate].
    + change (negb (7 =? 0) && false) with false. cbv beta iota zeta.
      destruct (scan_digits_first d r' 7 Hd ltac:(lia)) as (ds & rest & Hds).
      rewrite Hds.
      pose proof (scan_digits_xdigits _ _ _ _ Hds) as Hx.
      apply (scan_kept M (String c "") ("" +:+ String d ds));
        [right; exists c; split; [exact Hsg | reflexivity] | exact Hx | discriminate].
  - intros Hd. apply negb_false_iff in Hd. cbv beta iota zeta.
    destruct (Z.eqb_spec (char_code c) 48) as [E | E].
    + change (negb (8 =? 0) && true) with true. cbv beta iota zeta.
      change (dec_width 8) with 7.
      destruct r as [| c2 r2].
      * scan_finish M "" "0"; [left; reflexivity | assumption | discriminate].
      * destruct (is_x c2); cbn [negb andb Z.eqb Pos.eqb]; cbv beta iota zeta.
        -- scan_finish M "" "0"; [left; reflexivity | assumption | discriminate].
        -- scan_finish M "" "0"; [left; reflexivity | assumption | discriminate].
    + change (negb (8 =? 0) && false) with false. cbv beta iota zeta.
      destruct (scan_digits_first c r 8 Hd ltac:(lia)) as (ds & rest & Hds).
      rewrite Hds.
      pose proof (scan_digits_xdigits _ _ _ _ Hds) as Hx.
      apply (scan_kept M "" ("" +:+ String c ds));
        [left; reflexivity | exact Hx | discriminate].
Qed.

Lemma scan_08x_lacks M content :
  lacks_number content = true ->
  scan_08x M content = ScanEOF \/ scan_08x M content = ScanFail.
Proof.
  unfold lacks_number, scan_08x, scan_number.
  destruct (skip_space content) as [| c r]; [left; reflexivity |].
  intros H. right. destruct (is_sign c) eqn:Hsg.
  - change (dec_width 8) with 7. cbv beta iota zeta.
    destruct r as [| d r']; [reflexivity |].
    apply negb_true_iff in H.
    assert (H48 : (char_code d =? 48) = false).
    { apply Z.eqb_neq. intros E. char_cases. }
    rewrite H48, andb_false_r. cbv beta iota zeta.
    cbn [scan_digits]. change (7 =? 0) with false. cbv beta iota zeta.
    rewrite (not_xdigit_no_digit d H). reflexivity.
  - apply negb_true_iff in H.
    assert (H48 : (char_code c =? 48) = false).
    { apply Z.eqb_neq. intros E. clear Hsg. char_cases. }
    cbv beta iota zeta. rewrite H48, andb_false_r. cbv beta iota zeta.
    cbn [scan_digits]. change (8 =? 0) with false. cbv beta iota zeta.
    rewrite (not_xdigit_no_digit c H). reflexivity.
Qed.

(** [fscanf]'s digit loop stops when the width is used up. *)
Lemma scan_digits_exact s rest :
  all_xdigits s = true ->
  scan_digits 16 (s +:+ rest) (Z.of_nat (String.length s)) = (s, rest).
Proof.
  induction s as [| c r IH]; intros Hs.
  - change ("" +:+ rest) with rest. destruct rest; reflexivity.
  - cbn [all_xdigits] in Hs. apply andb_prop in Hs as [Hc Hr].
    destruct (xdigit_facts c Hc) as (_ & _ & _ & d & _ & Hdv & _).
    change (String c r +:+ rest) with (String c (r +:+ rest)).
    cbn [scan_digits String.length]. rewrite Hdv.
    destruct (Z.eqb_spec (Z.of_nat (S (String.length r))) 0) as [E | E]; [lia |].
    replace (dec_width (Z.of_nat (S (String.length r))))
      with (Z.of_nat (String.length r))
      by (unfold dec_width;
          destruct (Z.ltb_spec 0 (Z.of_nat (S (String.length r)))); lia).
    rewrite (IH Hr). reflexivity.
Qed.

(** [fscanf ("%08x")] on a file that starts with eight digits reads these
    eight and leaves the rest. *)
Lemma scan_08x_eight M digits rest :
  all_xdigits digits = true ->
  String.length digits = 8%nat ->
  2 ^ 32 - 1 <= M ->
  scan_08x M (digits +:+ rest) = ScanOK (hex_value digits).
Proof.
  intros Hs Hlen HM.
  pose proof (hex_value_uint32 digits Hs ltac:(lia)) as Hv.
  assert (HvM : hex_value digits <= M)
    by (unfold is_uint32, UINT32_MOD in Hv; lia).
  destruct digits as [| c r]; [discriminate Hlen |].
  pose proof Hs as Hs'. cbn [all_xdigits] in Hs'.
  apply andb_prop in Hs' as [Hc Hr].
  destruct (xdigit_facts c Hc) as (Hsp & Hsg & _ & _).
  cbn [String.length] in Hlen.
  assert (Hlr : String.length r = 7%nat) by lia.
  assert (Hto : strtoul M (String c r) 16 = (hex_value (String c r), "", false))
    by (apply strtoul_hex; [exact Hs | discriminate | exact HvM]).
  unfold scan_08x, scan_number.
  change (String c r +:+ rest) with (String c (r +:+ rest)).
  cbn [skip_space]. rewrite Hsp, Hsg.
  change (negb (8 =? 0)) with true. cbn [andb].
  destruct (Z.eqb_spec (char_code c) 48) as [E48 | E48].
  - assert (Ec : c = "0"%char) by (apply char_code_inj; exact E48).
    assert (Hd : scan_digits 16 (r +:+ rest) 7 = (r, rest)).
    { pose proof (scan_digits_exact r rest Hr) as Hx. rewrite Hlr in Hx.
      exact Hx. }
    destruct r as [| c1 r1]; [discriminate Hlr |].
    change (String c1 r1 +:+ rest) with (String c1 (r1 +:+ rest)) in *.
    cbn [all_xdigits] in Hr. apply andb_prop in Hr as [Hc1 _].
    destruct (xdigit_facts c1 Hc1) as (_ & _ & Hx1 & _).
    rewrite Hx1. change (dec_width 8) with 7.
    cbn [negb andb Z.eqb Pos.eqb]. rewrite Hd. subst c.
    change ("" +:+ "0" +:+ String c1 r1) with (String "0" (String c1 r1)).
    cbn [orb is_empty negb andb]. rewrite Hto.
    unfold string_eqb. rewrite bool_decide_eq_false_2 by discriminate.
    rewrite (to_uint32_small _ Hv). reflexivity.
  - assert (Hd : scan_digits 16 (String c (r +:+ rest)) 8 = (String c r, rest)).
    { pose proof (scan_digits_exact (String c r) rest Hs) as Hx.
      cbn [String.length] in Hx. rewrite Hlr in Hx. exact Hx. }
    rewrite Hd.
    change ("" +:+ "" +:+ String c r) with (String c r).
    cbn [orb is_empty negb andb]. rewrite Hto.
    unfold string_eqb. rewrite bool_decide_eq_false_2 by discriminate.
    rewrite (to_uint32_small _ Hv). reflexivity.
Qed.

(** ** C2: what a hexadecimal item file may hold *)

(** C2 as it is stated fails: a base file that holds [1234] is read as the
    base 0x1234 and pack succeeds. *)
Lemma short_hex_file_is_accepted :
  scan_08x ULONG_MAX_64 "1234" = ScanOK 4660 /\
  fst (pack_main lib64 ["pack"; "out.img"] short_base) = Next true /\
  printed stderr (log (snd (pack_main lib64 ["pack"; "out.img"] short_base)))
    = [] /\
  map kernelAddress
    (created (log (snd (pack_main lib64 ["pack"; "out.img"] short_base))))
    = [4660 + 32768].
Proof. repeat split; vm_compute; reflexivity. Qed.

Lemma hex_item_kind i :
  i ∈ hex_items ->
  bool_decide (i ∈ text_items) = false /\ bool_decide (i = PageSize) = false.
Proof.
  intros H.
  destruct i; first [split; reflexivity | exfalso; revert H; compute_done].
Qed.

(** C2, amended.  A hexadecimal item without a value option is read with
    [fscanf ("%08x")], whose 8 is a largest field width.  A file that starts
    with one to eight hexadecimal digits is accepted and gives the number
    the digits denote (so [1234] gives 0x1234), when the digits are eight,
    whatever follows them, or are followed by nothing or by a character
    that is neither a digit nor an [x].  Packing fails with the format
    error exactly when the file has no number: after the white space and
    an optional sign comes the end of the file or a character that is no
    hexadecimal digit.  Every other file is accepted and gives a 32-bit
    number. *)
Theorem hex_file_scanning (L : Lib) (i : item) (v : pack_vars) (w : world)
    (content : string) :
  i ∈ hex_items ->
  has_value v (OPT_VALUE i) = false ->
  path v i <> "" ->
  fs w !! path v i = Some (Regular content) ->
  2 ^ 32 - 1 <= ULONG_MAX L ->
  (forall digits rest,
     content = digits +:+ rest ->
     all_xdigits digits = true ->
     (1 <= String.length digits <= 8)%nat ->
     String.length digits = 8%nat \/ ends_number rest = true ->
     read_scalar L i v w
     = (Next (set_num i (hex_value digits) v),
        mkWorld (fs w) (errno w) (log w ++ [Fopen (path v i) "rb" true]))) /\
  (lacks_number content = true ->
   read_scalar L i v w
   = (Return false,
      mkWorld (fs w) (errno w)
        (log w ++ [Fopen (path v i) "rb" true]
               ++ [Print stderr (FormatError (path v i) "%08x")]))) /\
  (lacks_number content = false ->
   exists n, is_uint32 n /\
     read_scalar L i v w
     = (Next (set_num i n v),
        mkWorld (fs w) (errno w) (log w ++ [Fopen (path v i) "rb" true]))).
Proof.
  intros Hi Hv Hp Hf HM.
  destruct (hex_item_kind i Hi) as [Htext Hpage].
  assert (Hrun : read_scalar L i v w
    = match scan_08x (ULONG_MAX L) content with
      | ScanOK n =>
          (Next (set_num i n v),
           mkWorld (fs w) (errno w) (log w ++ [Fopen (path v i) "rb" true]))
      | _ =>
          (Return false,
           mkWorld (fs w) (errno w)
             (log w ++ [Fopen (path v i) "rb" true]
                    ++ [Print stderr (FormatError (path v i) "%08x")]))
      end).
  { unfold read_scalar, read_num, scan_item, scan_format.
    rewrite Htext, Hv, Hpage.
    rewrite (bind_Next _ _ _ _ _ (fopen_rb_regular _ _ _ Hp Hf)).
    destruct (scan_08x (ULONG_MAX L) content);
      unfold bind, fprintf, emit, return_, ret; cbn [fs log errno];
      rewrite <- ?app_assoc; reflexivity. }
  split; [| split].
  - intros digits rest -> Hd Hlen [H8 | He]; rewrite Hrun.
    + rewrite (scan_08x_eight _ _ _ Hd H8 HM). reflexivity.
    + rewrite (scan_08x_digits _ _ _ Hd Hlen He HM). reflexivity.
  - intros Hn. rewrite Hrun.
    destruct (scan_08x_lacks (ULONG_MAX L) content Hn) as [-> | ->];
      reflexivity.
  - intros Hn. rewrite Hrun.
    destruct (scan_08x_accepts (ULONG_MAX L) content Hn) as (n & Hr & ->).
    exists n. split; [exact Hr | reflexivity].
Qed.

Lemma hex_file_scanning_witness :
  hex_value "1234" = 4660 /\
  read_scalar lib64 Base with_short_base short_base
  = (Next (set_num Base (hex_value "1234") with_short_base),
     mkWorld (fs short_base) (errno short_base)
       (log short_base ++ [Fopen (path with_short_base Base) "rb" true])).
Proof.
  split; [reflexivity |].
  apply (proj1 (hex_file_scanning lib64 Base with_short_base short_base "1234"
    ltac:(compute_done) ltac:(vm_compute; reflexivity)
    ltac:(vm_compute; discriminate) ltac:(vm_compute; reflexivity)
    ltac:(vm_compute; discriminate)) "1234" "" eq_refl eq_refl).
  - cbn. lia.
  - right. reflexivity.
Defined.

(** * Further properties of the code *)

(** ** The text of a number: [printf] against [fscanf] and [strtoul] *)

Lemma char_code_digit_char d :
  0 <= d < 16 ->
  char_code (digit_char d) = if d <? 10 then 48 + d else 87 + d.
Proof.
  intros Hd. unfold char_code, digit_char.
  rewrite N_ascii_embedding.
  - apply Z2N.id. destruct (d <? 10); lia.
  - destruct (Z.ltb_spec d 10); lia.
Qed.

Lemma xdigit_val_digit_char d :
  0 <= d < 16 -> xdigit_val (digit_char d) = Some d.
Proof.
  intros Hd. unfold xdigit_val. rewrite (char_code_digit_char d Hd).
  destruct (Z.ltb_spec d 10).
  - replace ((48 <=? 48 + d) && (48 + d <=? 57)) with true
      by (symmetry; apply andb_true_intro; split; apply Z.leb_le; lia).
    f_equal. lia.
  - replace ((48 <=? 87 + d) && (87 + d <=? 57)) with false
      by (symmetry; apply andb_false_intro2, Z.leb_gt; lia).
    replace ((97 <=? 87 + d) && (87 + d <=? 102)) with true
      by (symmetry; apply andb_true_intro; split; apply Z.leb_le; lia).
    f_equal. lia.
Qed.

Lemma isxdigit_digit_char d : 0 <= d < 16 -> isxdigit (digit_char d) = true.
Proof. intros Hd. unfold isxdigit. rewrite (xdigit_val_digit_char d Hd). reflexivity. Qed.

Lemma hex_digits_all n v acc :
  all_xdigits (hex_digits n v acc) = all_xdigits acc.
Proof.
  revert v acc. induction n as [| k IH]; intros v acc; [reflexivity |].
  cbn [hex_digits]. rewrite IH. cbn [all_xdigits].
  rewrite isxdigit_digit_char; [reflexivity |]. apply Z.mod_pos_bound. lia.
Qed.

Lemma hex_digits_length n v acc :
  String.length (hex_digits n v acc) = (n + String.length acc)%nat.
Proof.
  revert v acc. induction n as [| k IH]; intros v acc; [reflexivity |].
  cbn [hex_digits]. rewrite IH. cbn [String.length]. lia.
Qed.

Lemma hex_acc_hex_digits n v acc a :
  hex_acc a (hex_digits n v acc)
  = hex_acc (a * 16 ^ Z.of_nat n + v mod 16 ^ Z.of_nat n) acc.
Proof.
  revert v acc a. induction n as [| k IH]; intros v acc a.
  - cbn [hex_digits Z.of_nat]. rewrite Z.pow_0_r, Z.mod_1_r. f_equal. lia.
  - cbn [hex_digits]. rewrite IH. cbn [hex_acc].
    rewrite xdigit_val_digit_char by (apply Z.mod_pos_bound; lia).
    cbn [from_option id]. f_equal.
    rewrite Nat2Z.inj_succ, Z.pow_succ_r by lia.
    rewrite (Z.rem_mul_r v 16 (16 ^ Z.of_nat k)) by lia.
    lia.
Qed.

Lemma fmt_08x_digits v :
  is_uint32 v ->
  all_xdigits (fmt_08x v) = true /\ String.length (fmt_08x v) = 8%nat /\
  hex_value (fmt_08x v) = v.
Proof.
  intros Hv. unfold fmt_08x. split; [| split].
  - apply hex_digits_all.
  - apply hex_digits_length.
  - unfold hex_value. rewrite hex_acc_hex_digits. cbn [hex_acc].
    change (16 ^ Z.of_nat 8) with UINT32_MOD.
    rewrite Z.mul_0_l, Z.add_0_l. apply Z.mod_small, Hv.
Qed.

(** A 32-bit number printed with ["%08x\n"], as unpack prints the
    base, the offsets and the addresses, is read back by
    [fscanf ("%08x")], as pack reads them, as the same number. *)
Lemma hex_text_round_trip (M v : Z) :
  is_uint32 v -> 2 ^ 32 - 1 <= M ->
  scan_08x M (fmt_08x v +:+ nl) = ScanOK v.
Proof.
  intros Hv HM. destruct (fmt_08x_digits v Hv) as (Ha & Hl & Hval).
  rewrite (scan_08x_digits M (fmt_08x v) nl Ha ltac:(lia) eq_refl HM), Hval.
  reflexivity.
Qed.

Lemma hex_text_round_trip_witness :
  scan_08x ULONG_MAX_32 (fmt_08x 4043309056 +:+ nl) = ScanOK 4043309056.
Proof.
  apply (hex_text_round_trip ULONG_MAX_32 4043309056).
  - unfold is_uint32. vm_compute. split; [discriminate | reflexivity].
  - vm_compute. discriminate.
Defined.

(** [strtoul]'s digit loop stops at the first character that is no digit. *)
Lemma strtoul_digits_rest M s rest a n :
  all_xdigits s = true -> ends_number rest = true ->
  0 <= a -> hex_acc a s <= M ->
  strtoul_digits M 16 (s +:+ rest) a false n
  = (hex_acc a s, false, (n + String.length s)%nat, rest).
Proof.
  revert a n. induction s as [| c r IH]; intros a n Hs He Ha HM.
  - change ("" +:+ rest) with rest. cbn [hex_acc String.length].
    rewrite Nat.add_0_r. destruct rest as [| c r]; [reflexivity |].
    cbn [ends_number] in He. apply andb_prop in He as [He _].
    apply negb_true_iff in He.
    cbn [strtoul_digits]. rewrite (not_xdigit_no_digit c He). reflexivity.
  - cbn [all_xdigits] in Hs. apply andb_prop in Hs as [Hc Hr].
    destruct (xdigit_facts c Hc) as (_ & _ & _ & d & Hd & Hdv & Hrange).
    change (String c r +:+ rest) with (String c (r +:+ rest)).
    cbn [strtoul_digits hex_acc String.length] in *. rewrite Hdv.
    rewrite Hd in *. cbn [from_option id] in *.
    pose proof (hex_acc_mono r (a * 16 + d) Hr ltac:(lia)).
    cbn [orb]. destruct (Z.ltb_spec M (a * 16 + d)); [lia |].
    rewrite (IH (a * 16 + d) (S n) Hr He ltac:(lia) HM).
    rewrite Nat.add_succ_r. reflexivity.
Qed.

(** [strtoul] in base 16 on digits followed by something else. *)
Lemma strtoul_hex_rest M s rest :
  all_xdigits s = true -> s <> "" -> ends_number rest = true ->
  hex_value s <= M ->
  strtoul M (s +:+ rest) 16 = (hex_value s, rest, false).
Proof.
  intros Hs Hne He HM. destruct s as [| c r]; [congruence |].
  pose proof Hs as Hs'. cbn [all_xdigits] in Hs'.
  apply andb_prop in Hs' as [Hc Hr].
  destruct (xdigit_facts c Hc) as (Hsp & Hsg & _ & _).
  unfold strtoul.
  change (String c r +:+ rest) with (String c (r +:+ rest)).
  cbn [skip_space]. rewrite Hsp, Hsg.
  assert (Hstrip : strip_0x 16 (String c (r +:+ rest)) = String c (r +:+ rest)).
  { unfold strip_0x.
    destruct (r +:+ rest) as [| c1 [| c2 r2]] eqn:Hrr; try reflexivity.
    assert (Hx : is_x c1 = false).
    { destruct r as [| c1' r'].
      - change ("" +:+ rest) with rest in Hrr. subst rest.
        cbn [ends_number] in He. apply andb_prop in He as [_ He].
        apply negb_true_iff, He.
      - change (String c1' r' +:+ rest) with (String c1' (r' +:+ rest)) in Hrr.
        inversion Hrr; subst c1'.
        cbn [all_xdigits] in Hr. apply andb_prop in Hr as [Hc1 _].
        apply (xdigit_facts c1 Hc1). }
    rewrite Hx, andb_false_r. reflexivity. }
  rewrite Hstrip.
  change (String c (r +:+ rest)) with (String c r +:+ rest).
  rewrite (strtoul_digits_rest M (String c r) rest 0 0 Hs He ltac:(lia) HM).
  reflexivity.
Qed.

Lemma str_to_uint32_hex_digits M digits :
  all_xdigits digits = true -> digits <> "" -> hex_value digits <= M ->
  str_to_uint32 M digits 16 = (Some (to_uint32 (hex_value digits)), 0).
Proof.
  intros Hs Hne HM.
  unfold str_to_uint32. rewrite (strtoul_hex M digits Hs Hne HM).
  destruct digits; [congruence | reflexivity].
Qed.

(** X1.  [str_to_uint32] in base 16 takes a literal as a whole or not at
    all: hexadecimal digits alone are accepted and give their value cut to
    32 bits, and the same digits followed by any character that is neither
    a digit nor an [x] are refused, with [errno] left at 0. *)
Theorem str_to_uint32_whole_literal (M : Z) (digits : string) :
  all_xdigits digits = true -> digits <> "" -> hex_value digits <= M ->
  str_to_uint32 M digits 16 = (Some (to_uint32 (hex_value digits)), 0) /\
  (forall c r, ends_number (String c r) = true ->
     str_to_uint32 M (digits +:+ String c r) 16 = (None, 0)).
Proof.
  intros Hs Hne HM. split.
  - apply str_to_uint32_hex_digits; assumption.
  - intros c r He. unfold str_to_uint32.
    rewrite (strtoul_hex_rest M digits (String c r) Hs Hne He HM).
    cbn [is_empty negb]. rewrite orb_true_r. reflexivity.
Qed.

Lemma str_to_uint32_whole_literal_witness :
  str_to_uint32 ULONG_MAX_32 "10000000" 16
    = (Some (to_uint32 (hex_value "10000000")), 0) /\
  (forall c r, ends_number (String c r) = true ->
     str_to_uint32 ULONG_MAX_32 ("10000000" +:+ String c r) 16 = (None, 0)).
Proof.
  apply (str_to_uint32_whole_literal ULONG_MAX_32 "10000000").
  - reflexivity.
  - discriminate.
  - vm_compute. discriminate.
Defined.

(** X2.  What [str_to_uint32] writes to [*out] is a 32-bit number, it
    writes nothing for the empty string, and it returns with [errno] 0
    whenever it accepts. *)
Theorem str_to_uint32_result (M : Z) (str : string) (radix n e : Z) :
  str_to_uint32 M str radix = (Some n, e) ->
  is_uint32 n /\ str <> "" /\ e = 0.
Proof.
  unfold str_to_uint32.
  destruct (strtoul M str radix) as [[num rest] erange].
  destruct erange; [discriminate |].
  destruct (is_empty str || negb (is_empty rest)) eqn:Hc; [discriminate |].
  intros H; inversion H; subst. split; [apply to_uint32_range |].
  split; [| reflexivity].
  intros ->. discriminate Hc.
Qed.

Lemma str_to_uint32_result_witness :
  is_uint32 0 /\ "100000000" <> "" /\ 0 = 0.
Proof.
  apply (str_to_uint32_result ULONG_MAX_64 "100000000" 16 0 0). reflexivity.
Defined.

(** X3.  The eight digits that unpack prints for a number are accepted as
    the literal of a value option and give the same number. *)
Theorem value_literal_round_trip (M v : Z) :
  is_uint32 v -> 2 ^ 32 - 1 <= M ->
  str_to_uint32 M (fmt_08x v) 16 = (Some v, 0).
Proof.
  intros Hv HM. destruct (fmt_08x_digits v Hv) as (Ha & Hl & Hval).
  assert (Hne : fmt_08x v <> "")
    by (intros E; rewrite E in Hl; discriminate Hl).
  assert (HvM : hex_value (fmt_08x v) <= M)
    by (rewrite Hval; unfold is_uint32, UINT32_MOD in Hv; lia).
  rewrite (str_to_uint32_hex_digits M (fmt_08x v) Ha Hne HvM).
  rewrite Hval, (to_uint32_small v Hv). reflexivity.
Qed.

Lemma value_literal_round_trip_witness :
  str_to_uint32 ULONG_MAX_64 (fmt_08x 32768) 16 = (Some 32768, 0).
Proof.
  apply (value_literal_round_trip ULONG_MAX_64 32768).
  - unfold is_uint32. vm_compute. split; [discriminate | reflexivity].
  - vm_compute. discriminate.
Defined.

(** ** Decimal digits *)

Lemma digit_facts c :
  isdigit c = true ->
  isspace c = false /\ is_sign c = false /\
  digit_val 10 c = Some (char_code c - 48) /\ 0 <= char_code c - 48 < 10.
Proof.
  unfold isdigit. intros H. apply andb_prop in H as [H1 H2].
  apply Z.leb_le in H1. apply Z.leb_le in H2.
  repeat split; try lia; try (char_cases; fail).
  unfold digit_val, xdigit_val.
  replace ((48 <=? char_code c) && (char_code c <=? 57)) with true
    by (symmetry; apply andb_true_intro; split; apply Z.leb_le; lia).
  destruct (Z.ltb_spec (char_code c - 48) 10); [reflexivity | lia].
Qed.

Lemma dec_acc_mono s a : all_digits s = true -> 0 <= a -> a <= dec_acc a s.
Proof.
  revert a. induction s as [| c r IH]; intros a Hs Ha; cbn [dec_acc]; [lia |].
  cbn [all_digits] in Hs. apply andb_prop in Hs as [Hc Hr].
  destruct (digit_facts c Hc) as (_ & _ & _ & Hrange).
  specialize (IH (a * 10 + (char_code c - 48)) Hr ltac:(lia)). lia.
Qed.

Lemma dec_acc_app s t a : dec_acc a (s +:+ t) = dec_acc (dec_acc a s) t.
Proof.
  revert a. induction s as [| c r IH]; intros a; [reflexivity |].
  change (String c r +:+ t) with (String c (r +:+ t)). cbn [dec_acc]. apply IH.
Qed.

Lemma all_digits_app s t :
  all_digits (s +:+ t) = all_digits s && all_digits t.
Proof.
  induction s as [| c r IH]; [reflexivity |].
  change (String c r +:+ t) with (String c (r +:+ t)). cbn [all_digits].
  rewrite IH, andb_assoc. reflexivity.
Qed.

Lemma append_assoc s t u : (s +:+ t) +:+ u = s +:+ (t +:+ u).
Proof.
  induction s as [| c r IH]; [reflexivity |].
  change ((String c r +:+ t) +:+ u) with (String c ((r +:+ t) +:+ u)).
  rewrite IH. reflexivity.
Qed.

Lemma strtoul_digits_dec M s rest a n :
  all_digits s = true -> ends_decimal rest = true ->
  0 <= a -> dec_acc a s <= M ->
  strtoul_digits M 10 (s +:+ rest) a false n
  = (dec_acc a s, false, (n + String.length s)%nat, rest).
Proof.
  revert a n. induction s as [| c r IH]; intros a n Hs He Ha HM.
  - change ("" +:+ rest) with rest. cbn [dec_acc String.length].
    rewrite Nat.add_0_r. destruct rest as [| c r]; [reflexivity |].
    cbn [ends_decimal] in He. apply negb_true_iff in He.
    cbn [strtoul_digits]. unfold digit_val.
    unfold isxdigit in He. destruct (xdigit_val c); [discriminate | reflexivity].
  - cbn [all_digits] in Hs. apply andb_prop in Hs as [Hc Hr].
    destruct (digit_facts c Hc) as (_ & _ & Hdv & Hrange).
    change (String c r +:+ rest) with (String c (r +:+ rest)).
    cbn [strtoul_digits dec_acc String.length] in *. rewrite Hdv.
    pose proof (dec_acc_mono r (a * 10 + (char_code c - 48)) Hr ltac:(lia)).
    cbn [orb]. destruct (Z.ltb_spec M (a * 10 + (char_code c - 48))); [lia |].
    rewrite (IH (a * 10 + (char_code c - 48)) (S n) Hr He ltac:(lia) HM).
    rewrite Nat.add_succ_r. reflexivity.
Qed.

Lemma scan_digits_dec s rest :
  all_digits s = true -> ends_decimal rest = true ->
  scan_digits 10 (s +:+ rest) (-1) = (s, rest).
Proof.
  induction s as [| c r IH]; intros Hs He.
  - change ("" +:+ rest) with rest. destruct rest as [| c r]; [reflexivity |].
    cbn [scan_digits]. change (-1 =? 0) with false. cbn match.
    cbn [ends_decimal] in He. apply negb_true_iff in He.
    unfold digit_val. unfold isxdigit in He.
    destruct (xdigit_val c); [discriminate | reflexivity].
  - cbn [all_digits] in Hs. apply andb_prop in Hs as [Hc Hr].
    destruct (digit_facts c Hc) as (_ & _ & Hdv & _).
    change (String c r +:+ rest) with (String c (r +:+ rest)).
    cbn [scan_digits]. change (-1 =? 0) with false. cbn match. rewrite Hdv.
    change (dec_width (-1)) with (-1). rewrite (IH Hr He). reflexivity.
Qed.

Lemma strtoul_dec M s :
  all_digits s = true -> s <> "" -> dec_value s <= M ->
  strtoul M s 10 = (dec_value s, "", false).
Proof.
  intros Hs Hne HM. destruct s as [| c r]; [congruence |].
  pose proof Hs as Hs'. cbn [all_digits] in Hs'.
  apply andb_prop in Hs' as [Hc Hr].
  destruct (digit_facts c Hc) as (Hsp & Hsg & _ & _).
  unfold strtoul. cbn [skip_space]. rewrite Hsp, Hsg.
  assert (Hstrip : strip_0x 10 (String c r) = String c r).
  { unfold strip_0x. destruct r as [| c1 [| c2 r2]]; reflexivity. }
  rewrite Hstrip.
  pose proof (strtoul_digits_dec M (String c r) "" 0 0 Hs eq_refl ltac:(lia) HM)
    as Hd.
  rewrite append_nil_r in Hd. rewrite Hd. reflexivity.
Qed.

(** [fscanf ("%u")] on a file that starts with decimal digits. *)
Lemma scan_u_digits M digits rest :
  all_digits digits = true -> digits <> "" ->
  ends_decimal rest = true ->
  dec_value digits <= M ->
  scan_u M (digits +:+ rest) = ScanOK (to_uint32 (dec_value digits)).
Proof.
  intros Hs Hne He HM.
  destruct digits as [| c r]; [congruence |].
  pose proof Hs as Hs'. cbn [all_digits] in Hs'.
  apply andb_prop in Hs' as [Hc Hr].
  destruct (digit_facts c Hc) as (Hsp & Hsg & _ & _).
  pose proof (strtoul_dec M (String c r) Hs Hne HM) as Hto.
  unfold scan_u, scan_number.
  change (String c r +:+ rest) with (String c (r +:+ rest)).
  cbn [skip_space]. rewrite Hsp, Hsg.
  change (negb (-1 =? 0)) with true. cbn [andb].
  pose proof (scan_digits_dec r rest Hr He) as Hd.
  destruct (Z.eqb_spec (char_code c) 48) as [E48 | E48].
  - assert (Ec : c = "0"%char) by (apply char_code_inj; exact E48).
    assert (Hzero :
      match r +:+ rest with
      | String c2 r2 =>
          if negb (dec_width (-1) =? 0) && is_x c2 && (10 =? 16)
          then ("0", r2, dec_width (dec_width (-1)))
          else ("0", r +:+ rest, dec_width (-1))
      | EmptyString => ("0", r +:+ rest, dec_width (-1))
      end = ("0", r +:+ rest, -1)).
    { destruct (r +:+ rest) as [| c2 r2]; [reflexivity |].
      change (10 =? 16) with false. rewrite andb_false_r. reflexivity. }
    rewrite Hzero, Hd. subst c.
    change ("" +:+ "0" +:+ r) with (String "0" r).
    cbn [orb is_empty negb andb]. rewrite Hto.
    unfold string_eqb. rewrite bool_decide_eq_false_2 by discriminate.
    reflexivity.
  - assert (Hd' : scan_digits 10 (String c (r +:+ rest)) (-1)
                  = (String c r, rest))
      by (apply (scan_digits_dec (String c r) rest Hs He)).
    rewrite Hd'.
    change ("" +:+ "" +:+ String c r) with (String c r).
    cbn [orb is_empty negb andb]. rewrite Hto.
    unfold string_eqb. rewrite bool_decide_eq_false_2 by discriminate.
    reflexivity.
Qed.

Lemma length_append s t :
  String.length (s +:+ t) = (String.length s + String.length t)%nat.
Proof.
  induction s as [| c r IH]; [reflexivity |].
  change (String c r +:+ t) with (String c (r +:+ t)). cbn [String.length].
  rewrite IH. reflexivity.
Qed.

Lemma decimal_digit_char d :
  0 <= d < 10 ->
  isdigit (digit_char d) = true /\ char_code (digit_char d) - 48 = d.
Proof.
  intros Hd. unfold isdigit.
  rewrite (char_code_digit_char d ltac:(lia)).
  destruct (Z.ltb_spec d 10); [| lia]. split; [| lia].
  apply andb_true_intro. split; apply Z.leb_le; lia.
Qed.

Lemma dec_digits_S k v acc :
  dec_digits (S k) v acc
  = if v / 10 =? 0 then String (digit_char (v mod 10)) acc
    else dec_digits k (v / 10) (String (digit_char (v mod 10)) acc).
Proof. reflexivity. Qed.

(** The digits that ["%u"] prints: at least one, and they denote the
    number. *)
Lemma dec_digits_spec k v acc :
  0 <= v < 10 ^ Z.of_nat (S k) ->
  exists s,
    dec_digits (S k) v acc = s +:+ acc /\ all_digits s = true /\ s <> "" /\
    forall a, dec_acc a s = a * 10 ^ Z.of_nat (String.length s) + v.
Proof.
  revert v acc. induction k as [| k IH]; intros v acc Hv.
  - change (10 ^ Z.of_nat 1) with 10 in Hv.
    destruct (decimal_digit_char (v mod 10) ltac:(apply Z.mod_pos_bound; lia))
      as [Hd Hc].
    exists (String (digit_char (v mod 10)) "").
    rewrite dec_digits_S, (Z.div_small v 10 Hv). cbn [Z.eqb].
    split; [reflexivity |]. split; [cbn [all_digits]; rewrite Hd; reflexivity |].
    split; [discriminate |].
    intros a. cbn [dec_acc String.length]. rewrite Hc, (Z.mod_small v 10 Hv).
    change (10 ^ Z.of_nat 1) with 10. lia.
  - destruct (decimal_digit_char (v mod 10) ltac:(apply Z.mod_pos_bound; lia))
      as [Hd Hc].
    rewrite (dec_digits_S (S k)).
    destruct (Z.eqb_spec (v / 10) 0) as [E | E].
    + exists (String (digit_char (v mod 10)) "").
      split; [reflexivity |].
      split; [cbn [all_digits]; rewrite Hd; reflexivity |].
      split; [discriminate |].
      intros a. cbn [dec_acc String.length]. rewrite Hc.
      change (10 ^ Z.of_nat 1) with 10.
      pose proof (Z.div_mod v 10 ltac:(lia)). lia.
    + assert (Hq : 0 <= v / 10 < 10 ^ Z.of_nat (S k)).
      { split; [apply Z.div_pos; lia |].
        apply Z.div_lt_upper_bound; [lia |].
        rewrite (Nat2Z.inj_succ (S k)), Z.pow_succ_r in Hv by lia. lia. }
      destruct (IH (v / 10) (String (digit_char (v mod 10)) acc) Hq)
        as (s & Hs & Hall & Hne & Hacc).
      exists (s +:+ String (digit_char (v mod 10)) "").
      split; [rewrite Hs, append_assoc; reflexivity |].
      split; [rewrite all_digits_app, Hall; cbn [all_digits andb];
              rewrite Hd; reflexivity |].
      split; [destruct s; [congruence | discriminate] |].
      intros a. rewrite dec_acc_app, Hacc. cbn [dec_acc]. rewrite Hc.
      rewrite length_append. cbn [String.length].
      rewrite Nat.add_1_r, Nat2Z.inj_succ, Z.pow_succ_r by lia.
      pose proof (Z.div_mod v 10 ltac:(lia)). lia.
Qed.

Lemma fmt_u_digits v :
  is_uint32 v ->
  all_digits (fmt_u v) = true /\ fmt_u v <> "" /\ dec_value (fmt_u v) = v.
Proof.
  intros Hv. unfold fmt_u.
  assert (Hr : 0 <= v < 10 ^ Z.of_nat 10)
    by (unfold is_uint32, UINT32_MOD in Hv; change (10 ^ Z.of_nat 10) with 10000000000; lia).
  destruct (dec_digits_spec 9 v "" Hr) as (s & Hs & Hall & Hne & Hacc).
  rewrite Hs, append_nil_r. split; [exact Hall |]. split; [exact Hne |].
  unfold dec_value. rewrite Hacc. lia.
Qed.

(** A 32-bit number printed with ["%u\n"], as unpack prints the page
    size, is read back by [fscanf ("%u")], as pack reads it, as the same
    number. *)
Lemma decimal_text_round_trip (M v : Z) :
  is_uint32 v -> 2 ^ 32 - 1 <= M ->
  scan_u M (fmt_u v +:+ nl) = ScanOK v.
Proof.
  intros Hv HM. destruct (fmt_u_digits v Hv) as (Ha & Hne & Hval).
  assert (HvM : dec_value (fmt_u v) <= M)
    by (rewrite Hval; unfold is_uint32, UINT32_MOD in Hv; lia).
  rewrite (scan_u_digits M (fmt_u v) nl Ha Hne eq_refl HvM), Hval.
  rewrite (to_uint32_small v Hv). reflexivity.
Qed.

Lemma decimal_text_round_trip_witness :
  scan_u ULONG_MAX_32 (fmt_u 4096 +:+ nl) = ScanOK 4096.
Proof.
  apply (decimal_text_round_trip ULONG_MAX_32 4096).
  - unfold is_uint32. vm_compute. split; [discriminate | reflexivity].
  - vm_compute. discriminate.
Defined.

(** ** The item files of unpack read back by pack *)

Lemma numeric_item_kind i :
  i ∈ numeric_items ->
  bool_decide (i ∈ text_items) = false /\
  (i = PageSize \/ (i ∈ hex_items /\ bool_decide (i = PageSize) = false)).
Proof.
  intros H.
  destruct i;
    first [split; [reflexivity | left; reflexivity]
          | split; [reflexivity | right; split; [compute_done | reflexivity]]
          | exfalso; revert H; compute_done].
Qed.

Lemma unpack_text_hex L bi i :
  i ∈ hex_items -> unpack_text L bi i = fmt_08x (unpack_num L bi i) +:+ nl.
Proof. intros H. destruct i; first [reflexivity | exfalso; revert H; compute_done]. Qed.

Lemma read_scalar_numeric (L : Lib) (bi : BootImage) (i : item)
    (v : pack_vars) (w : world) :
  i ∈ numeric_items ->
  is_uint32 (unpack_num L bi i) ->
  2 ^ 32 - 1 <= ULONG_MAX L ->
  has_value v (OPT_VALUE i) = false ->
  path v i <> "" ->
  fs w !! path v i = Some (Regular (unpack_text L bi i)) ->
  read_scalar L i v w
  = (Next (set_num i (unpack_num L bi i) v),
     mkWorld (fs w) (errno w) (log w ++ [Fopen (path v i) "rb" true])).
Proof.
  intros Hi Hn HM Hv Hp Hf.
  destruct (numeric_item_kind i Hi) as [Htext Hkind].
  unfold read_scalar, read_num, scan_item. rewrite Htext, Hv.
  rewrite (bind_Next _ _ _ _ _ (fopen_rb_regular _ _ _ Hp Hf)).
  destruct Hkind as [-> | [Hh Hpage]].
  - rewrite bool_decide_eq_true_2 by reflexivity.
    change (unpack_text L bi PageSize)
      with (fmt_u (unpack_num L bi PageSize) +:+ nl).
    destruct (fmt_u_digits _ Hn) as (Ha & Hne & Hval).
    rewrite (scan_u_digits (ULONG_MAX L) _ nl Ha Hne eq_refl)
      by (rewrite Hval; unfold is_uint32, UINT32_MOD in Hn; lia).
    rewrite Hval, (to_uint32_small _ Hn). reflexivity.
  - rewrite Hpage, (unpack_text_hex L bi i Hh).
    destruct (fmt_08x_digits _ Hn) as (Ha & Hl & Hval).
    rewrite (scan_08x_digits (ULONG_MAX L) _ nl Ha ltac:(lia) eq_refl HM), Hval.
    reflexivity.
Qed.

(** X4.  The file that unpack writes for a numeric item (the base, an offset,
    an address or the page size) is read back by pack's read step as the
    number unpack wrote, whenever that number is a 32-bit value. *)
Theorem numeric_item_round_trip (L : Lib) (bi : BootImage) (i : item)
    (v : pack_vars) (w : world) :
  i ∈ numeric_items ->
  is_uint32 (unpack_num L bi i) ->
  2 ^ 32 - 1 <= ULONG_MAX L ->
  has_value v (OPT_VALUE i) = false ->
  path v i <> "" ->
  fs w !! path v i = Some (Regular (unpack_text L bi i)) ->
  read_scalar L i v w
  = (Next (set_num i (unpack_num L bi i) v),
     mkWorld (fs w) (errno w) (log w ++ [Fopen (path v i) "rb" true])).
Proof. apply read_scalar_numeric. Qed.

Lemma numeric_item_round_trip_witness :
  unpack_num lib64 demo_image RamdiskOffset = 4043309056 /\
  read_scalar lib64 RamdiskOffset boot_img_vars after_unpack
  = (Next (set_num RamdiskOffset (unpack_num lib64 demo_image RamdiskOffset)
             boot_img_vars),
     mkWorld (fs after_unpack) (errno after_unpack)
       (log after_unpack
        ++ [Fopen (path boot_img_vars RamdiskOffset) "rb" true])).
Proof.
  split; [reflexivity |].
  apply (numeric_item_round_trip lib64 demo_image RamdiskOffset boot_img_vars
           after_unpack).
  - compute_done.
  - unfold is_uint32. vm_compute. split; [discriminate | reflexivity].
  - vm_compute. discriminate.
  - vm_compute. reflexivity.
  - vm_compute. discriminate.
  - vm_compute. reflexivity.
Defined.

Lemma c_str_no_nul s : no_nul (c_str s) = true.
Proof.
  induction s as [| c r IH]; [reflexivity |].
  cbn [c_str]. destruct (char_code c =? 0) eqn:E; [reflexivity |].
  cbn [no_nul]. rewrite E, IH. reflexivity.
Qed.

Lemma read_back_line n t :
  no_nul t = true ->
  erase_from_newline (c_str (fgets n (t +:+ nl)))
  = string_take n (erase_from_newline t).
Proof.
  revert t. induction n as [| k IH]; intros t Ht.
  - destruct t; reflexivity.
  - destruct t as [| c r].
    + change ("" +:+ nl) with (String newline "").
      cbn [fgets]. rewrite bool_decide_eq_true_2 by reflexivity. reflexivity.
    + change (String c r +:+ nl) with (String c (r +:+ nl)).
      cbn [no_nul] in Ht. apply andb_prop in Ht as [Hc Hr].
      apply negb_true_iff in Hc.
      cbn [fgets erase_from_newline].
      destruct (bool_decide (c = newline)) eqn:En.
      * cbn [c_str]. rewrite Hc. cbn [erase_from_newline]. rewrite En.
        reflexivity.
      * cbn [c_str]. rewrite Hc. cbn [erase_from_newline string_take].
        rewrite En, (IH r Hr). reflexivity.
Qed.

Lemma erase_no_newline s : no_newline s = true -> erase_from_newline s = s.
Proof.
  induction s as [| c r IH]; [reflexivity |].
  cbn [no_newline erase_from_newline]. intros H.
  apply andb_prop in H as [Hc Hr]. apply negb_true_iff in Hc.
  rewrite Hc, (IH Hr). reflexivity.
Qed.

Lemma c_str_id s : no_nul s = true -> c_str s = s.
Proof.
  induction s as [| c r IH]; [reflexivity |].
  cbn [no_nul c_str]. intros H.
  apply andb_prop in H as [Hc Hr]. apply negb_true_iff in Hc.
  rewrite Hc, (IH Hr). reflexivity.
Qed.

Lemma string_take_all n s : (String.length s <= n)%nat -> string_take n s = s.
Proof.
  revert s. induction n as [| k IH]; intros s H.
  - destruct s; [reflexivity | cbn in H; lia].
  - destruct s as [| c r]; [reflexivity |].
    cbn [String.length] in H. cbn [string_take]. rewrite IH by lia. reflexivity.
Qed.

Lemma string_take_length n s : (String.length (string_take n s) <= n)%nat.
Proof.
  revert s. induction n as [| k IH]; intros s; [destruct s; cbn; lia |].
  destruct s as [| c r]; [cbn; lia |].
  cbn [string_take String.length]. specialize (IH r). lia.
Qed.

Lemma unpack_text_text L bi i :
  i ∈ text_items -> unpack_text L bi i = c_str (image_text bi i) +:+ nl.
Proof. intros H. destruct i; first [reflexivity | exfalso; revert H; compute_done]. Qed.

Lemma read_scalar_text L bi i v w :
  i ∈ text_items ->
  has_value v (OPT_VALUE i) = false ->
  path v i <> "" ->
  fs w !! path v i = Some (Regular (unpack_text L bi i)) ->
  read_scalar L i v w
  = (Next (set_text i (read_back L bi i) v),
     mkWorld (fs w) (errno w) (log w ++ [Fopen (path v i) "rb" true])).
Proof.
  intros Hi Hv Hp Hf. unfold read_scalar, read_text, read_back.
  rewrite (bool_decide_eq_true_2 _ Hi), Hv.
  rewrite (bind_Next _ _ _ _ _ (fopen_rb_regular _ _ _ Hp Hf)).
  unfold read_line. rewrite (unpack_text_text L bi i Hi).
  rewrite (read_back_line _ _ (c_str_no_nul _)). reflexivity.
Qed.

(** X5.  The file that unpack writes for the command line or the board name
    is read back by pack as the text up to its first NUL or newline, cut to
    the field size less one ([BootArgsSize - 1], [BootNameSize - 1]); a
    text without NUL and newline that fits is read back unchanged. *)
Theorem text_item_round_trip (L : Lib) (bi : BootImage) (i : item)
    (v : pack_vars) (w : world) :
  i ∈ text_items ->
  has_value v (OPT_VALUE i) = false ->
  path v i <> "" ->
  fs w !! path v i = Some (Regular (unpack_text L bi i)) ->
  read_scalar L i v w
  = (Next (set_text i
             (string_take (Z.to_nat (text_size L i - 1))
                (erase_from_newline (c_str (image_text bi i)))) v),
     mkWorld (fs w) (errno w) (log w ++ [Fopen (path v i) "rb" true])) /\
  (no_nul (image_text bi i) = true -> no_newline (image_text bi i) = true ->
   Z.of_nat (String.length (image_text bi i)) <= text_size L i - 1 ->
   string_take (Z.to_nat (text_size L i - 1))
     (erase_from_newline (c_str (image_text bi i))) = image_text bi i).
Proof.
  intros Hi Hv Hp Hf. split.
  - exact (read_scalar_text L bi i v w Hi Hv Hp Hf).
  - intros Hn Hl Hlen.
    rewrite (c_str_id _ Hn), (erase_no_newline _ Hl).
    apply string_take_all. lia.
Qed.

Lemma text_item_round_trip_witness :
  read_scalar lib64 Cmdline boot_img_vars after_unpack
  = (Next (set_text Cmdline
             (string_take (Z.to_nat (text_size lib64 Cmdline - 1))
                (erase_from_newline (c_str (image_text demo_image Cmdline))))
             boot_img_vars),
     mkWorld (fs after_unpack) (errno after_unpack)
       (log after_unpack ++ [Fopen (path boot_img_vars Cmdline) "rb" true])) /\
  string_take (Z.to_nat (text_size lib64 Cmdline - 1))
    (erase_from_newline (c_str (image_text demo_image Cmdline)))
  = "console=ttyS0".
Proof.
  destruct (text_item_round_trip lib64 demo_image Cmdline boot_img_vars
    after_unpack ltac:(compute_done) ltac:(vm_compute; reflexivity)
    ltac:(vm_compute; discriminate) ltac:(vm_compute; reflexivity)) as [H1 H2].
  split; [exact H1 |].
  apply H2; [reflexivity | reflexivity | vm_compute; discriminate].
Defined.

(** ** Pack: defaults, fatal errors and what is written *)

Lemma read_scalar_missing L i v w :
  has_value v (OPT_VALUE i) = false -> missing w (path v i) ->
  read_scalar L i v w
  = (Next (scalar_default L i v),
     mkWorld (fs w) ENOENT (log w ++ [Fopen (path v i) "rb" false])).
Proof.
  intros Hv Hm. unfold read_scalar, scalar_default, read_text, read_num.
  rewrite Hv.
  destruct (bool_decide (i ∈ text_items));
    rewrite (bind_Next _ _ _ _ _ (fopen_rb_missing _ _ Hm)); reflexivity.
Qed.

Lemma opened_snoc l e :
  opened (l ++ [e])
  = opened l ++ match e with Fopen p _ true => [p] | _ => [] end.
Proof.
  unfold opened. rewrite omap_app. destruct e as [| ? ? []| | | |]; reflexivity.
Qed.

Lemma scalar_default_text L a v i :
  text (scalar_default L a v) i
  = if bool_decide (a ∈ text_items) && bool_decide (a = i)
    then default_text L i else text v i.
Proof.
  unfold scalar_default. destruct (bool_decide (a ∈ text_items)); cbn [andb text set_text set_num].
  - destruct (decide (a = i)) as [-> | Hne].
    + rewrite bool_decide_eq_true_2 by reflexivity. apply fn_lookup_insert.
    + rewrite bool_decide_eq_false_2 by exact Hne. apply fn_lookup_insert_ne, Hne.
  - reflexivity.
Qed.

Lemma scalar_default_num L a v i :
  num (scalar_default L a v) i
  = if negb (bool_decide (a ∈ text_items)) && bool_decide (a = i)
    then default_num L i else num v i.
Proof.
  unfold scalar_default. destruct (bool_decide (a ∈ text_items)); cbn [negb andb num set_text set_num].
  - reflexivity.
  - destruct (decide (a = i)) as [-> | Hne].
    + rewrite bool_decide_eq_true_2 by reflexivity. apply fn_lookup_insert.
    + rewrite bool_decide_eq_false_2 by exact Hne. apply fn_lookup_insert_ne, Hne.
Qed.

Lemma read_all_scalar_missing L l v w :
  (forall i, i ∈ l -> has_value v (OPT_VALUE i) = false /\ missing w (path v i)) ->
  exists v' w',
    read_all (read_scalar L) l v w = (Next v', w') /\
    fs w' = fs w /\ opened (log w') = opened (log w) /\
    path v' = path v /\ values v' = values v /\
    (forall i, i ∈ l -> i ∈ text_items -> text v' i = default_text L i) /\
    (forall i, i ∈ l -> i ∉ text_items -> num v' i = default_num L i) /\
    (forall i, i ∉ l -> text v' i = text v i /\ num v' i = num v i).
Proof.
  revert v w. induction l as [| a l IH]; intros v w H.
  - exists v, w. split; [reflexivity |].
    repeat (split; [reflexivity |]).
    split; [intros i Hi; apply elem_of_nil in Hi; destruct Hi |].
    split; [intros i Hi; apply elem_of_nil in Hi; destruct Hi |].
    intros i _. split; reflexivity.
  - destruct (H a ltac:(apply elem_of_cons; left; reflexivity)) as [Hv Hm].
    pose proof (read_scalar_missing L a v w Hv Hm) as Hstep.
    set (v1 := scalar_default L a v) in *.
    set (w1 := mkWorld (fs w) ENOENT (log w ++ [Fopen (path v a) "rb" false])) in *.
    assert (Hp1 : path v1 = path v)
      by (unfold v1, scalar_default; destruct (bool_decide (a ∈ text_items)); reflexivity).
    assert (Hv1 : values v1 = values v)
      by (unfold v1, scalar_default; destruct (bool_decide (a ∈ text_items)); reflexivity).
    destruct (IH v1 w1) as (v' & w' & Hrun & Hfs & Hop & Hp & Hva & Ht & Hn & Hk).
    { intros i Hi. destruct (H i ltac:(apply elem_of_cons; right; exact Hi))
        as [Hvi Hmi].
      split.
      - unfold has_value in *. rewrite Hv1. exact Hvi.
      - rewrite Hp1. destruct Hmi as [E | E]; [left | right]; exact E. }
    exists v', w'. cbn [read_all]. rewrite (bind_Next _ _ _ _ _ Hstep).
    split; [exact Hrun |]. split; [exact Hfs |].
    split; [rewrite Hop; unfold w1; cbn [log]; rewrite opened_snoc;
            apply app_nil_r |].
    split; [congruence |]. split; [congruence |].
    split; [| split].
    + intros i Hi Hti. destruct (decide (i ∈ l)) as [Hil | Hil];
        [exact (Ht i Hil Hti) |].
      apply elem_of_cons in Hi as [-> | Hi]; [| contradiction].
      rewrite (proj1 (Hk a Hil)). unfold v1. rewrite scalar_default_text.
      rewrite (bool_decide_eq_true_2 _ Hti), bool_decide_eq_true_2 by reflexivity.
      reflexivity.
    + intros i Hi Hti. destruct (decide (i ∈ l)) as [Hil | Hil];
        [exact (Hn i Hil Hti) |].
      apply elem_of_cons in Hi as [-> | Hi]; [| contradiction].
      rewrite (proj2 (Hk a Hil)). unfold v1. rewrite scalar_default_num.
      rewrite (bool_decide_eq_false_2 _ Hti), bool_decide_eq_true_2 by reflexivity.
      reflexivity.
    + intros i Hi.
      assert (Hia : a <> i)
        by (intros ->; apply Hi, elem_of_cons; left; reflexivity).
      assert (Hil : i ∉ l)
        by (intros Hin; apply Hi, elem_of_cons; right; exact Hin).
      destruct (Hk i Hil) as [Hkt Hkn]. rewrite Hkt, Hkn. unfold v1.
      rewrite scalar_default_text, scalar_default_num.
      rewrite (bool_decide_eq_false_2 (a = i)) by exact Hia.
      rewrite !andb_false_r. split; reflexivity.
Qed.

(** X6.  When none of the twelve scalar items has a value option or a file,
    the reading of the scalars goes on to the end, opens no file, and
    leaves every text and number at the codec's default; the image then has
    its kernel at [DefaultBase + DefaultKernelOffset]. *)
Theorem defaults_for_missing_scalars (L : Lib) (v : pack_vars) (w : world) :
  (forall i, i ∈ scalar_items ->
     has_value v (OPT_VALUE i) = false /\ missing w (path v i)) ->
  exists v' w',
    read_all (read_scalar L) scalar_items v w = (Next v', w') /\
    fs w' = fs w /\ opened (log w') = opened (log w) /\
    (forall i, i ∈ text_items -> text v' i = default_text L i) /\
    (forall i, i ∈ numeric_items -> num v' i = default_num L i) /\
    kernelAddress (pack_image L v')
    = add32 (DefaultBase L) (DefaultKernelOffset L).
Proof.
  intros H.
  destruct (read_all_scalar_missing L scalar_items v w H)
    as (v' & w' & Hrun & Hfs & Hop & _ & _ & Ht & Hn & _).
  assert (Hnum : forall i, i ∈ numeric_items -> num v' i = default_num L i).
  { intros i Hi. apply Hn.
    - unfold scalar_items. apply elem_of_app. right. exact Hi.
    - intros Hti. destruct (numeric_item_kind i Hi) as [Hf _].
      rewrite (bool_decide_eq_true_2 _ Hti) in Hf. discriminate Hf. }
  exists v', w'. split; [exact Hrun |]. split; [exact Hfs |].
  split; [exact Hop |].
  split; [intros i Hi; apply (Ht i (text_is_scalar i Hi) Hi) |].
  split; [exact Hnum |].
  unfold pack_image. cbn [setPayload setAddresses kernelAddress].
  rewrite (Hnum Base) by compute_done.
  rewrite (Hnum KernelOffset) by compute_done. reflexivity.
Qed.

Lemma defaults_for_missing_scalars_witness :
  exists v' w',
    read_all (read_scalar lib64) scalar_items out_img_vars
      (world0 kernel_and_ramdisk) = (Next v', w') /\
    fs w' = fs (world0 kernel_and_ramdisk) /\
    opened (log w') = opened (log (world0 kernel_and_ramdisk)) /\
    (forall i, i ∈ text_items -> text v' i = default_text lib64 i) /\
    (forall i, i ∈ numeric_items -> num v' i = default_num lib64 i) /\
    kernelAddress (pack_image lib64 v')
    = add32 (DefaultBase lib64) (DefaultKernelOffset lib64).
Proof.
  apply (defaults_for_missing_scalars lib64 out_img_vars
           (world0 kernel_and_ramdisk)).
  intros i Hi. split.
  - change (has_value pack_init (OPT_VALUE i) = false). apply has_value_init.
  - right. destruct i; first [vm_compute; reflexivity
                             | exfalso; revert Hi; compute_done].
Defined.

Lemma read_blob_unopenable i v w e :
  unopenable w (path v i) e ->
  read_blob i v w
  = (Return false,
     mkWorld (fs w) e
       (log w ++ [Fopen (path v i) "rb" false]
              ++ [Print stderr (PathError (path v i) e)])).
Proof.
  intros (Hp & He & Hf). unfold read_blob, read_file_data.
  unfold bind at 1 2. rewrite (fopen_rb_noaccess _ _ _ Hp Hf).
  unfold ret, get_errno, bind, fprintf, emit, return_; cbn [errno fs log].
  replace (e =? ENOENT) with false by (symmetry; apply Z.eqb_neq, He).
  cbn [negb]. rewrite orb_true_r. cbn [fs log errno].
  rewrite <- app_assoc. reflexivity.
Qed.

Lemma unopenable_quiet w w' p e :
  quiet w w' -> unopenable w p e -> unopenable w' p e.
Proof.
  intros [Hfs _] (Hp & He & H). split; [exact Hp |]. split; [exact He |].
  rewrite Hfs. exact H.
Qed.

Lemma read_all_blob_unopenable l v w v' w' i e :
  read_all read_blob l v w = (Next v', w') ->
  i ∈ l -> unopenable w (path v i) e -> False.
Proof.
  revert v w. induction l as [| j l IH]; intros v w H Hin Hu.
  - apply elem_of_nil in Hin. exact Hin.
  - cbn [read_all] in H.
    destruct (decide (j = i)) as [-> | Hne].
    + rewrite (bind_Return _ _ _ _ _ (read_blob_unopenable i v w e Hu)) in H.
      discriminate H.
    + apply bind_inv in H as [(v1 & w1 & H1 & H2) | (b & _ & E)];
        [| discriminate E].
      apply read_blob_frame in H1 as (Q1 & P1 & _).
      apply (IH _ _ H2).
      * apply elem_of_cons in Hin as [E | Hin]; [congruence | exact Hin].
      * rewrite P1. exact (unopenable_quiet _ _ _ _ Q1 Hu).
Qed.

(** X7.  A blob file that [fopen] cannot open, with an error other than
    "no such file" (no permission, say), makes pack return false without
    calling the codec and with every file as it was, for the optional
    blobs as for kernel and ramdisk. *)
Theorem unopenable_blob_is_fatal (L : Lib) (v : pack_vars) (f : string)
    (w : world) (i : item) (e : Z) (r : outcome bool) (w' : world) :
  i ∈ pack_blob_items ->
  unopenable w (path (resolved L v f) i) e ->
  pack_run L v [f] w = (r, w') ->
  r = Return false /\ fs w' = fs w /\ created (log w') = created (log w).
Proof.
  intros Hin Hu Hrun.
  apply pack_run_inv in Hrun
    as [[-> [Hfs Hc]] | (v1 & w1 & v2 & w2 & P1 & _ & Q1 & Hrd & _)].
  - repeat split; assumption.
  - exfalso. apply (read_all_blob_unopenable _ _ _ _ _ i e Hrd Hin).
    rewrite P1. exact (unopenable_quiet _ _ _ _ Q1 Hu).
Qed.

Lemma unopenable_blob_is_fatal_witness :
  fst (pack_run lib64 pack_init ["out.img"] dt_unopenable) = Return false /\
  fs (snd (pack_run lib64 pack_init ["out.img"] dt_unopenable))
    = fs dt_unopenable /\
  created (log (snd (pack_run lib64 pack_init ["out.img"] dt_unopenable)))
    = created (log dt_unopenable).
Proof.
  apply (unopenable_blob_is_fatal lib64 pack_init "out.img" dt_unopenable Dt
           EACCES).
  - compute_done.
  - split; [vm_compute; discriminate |].
    split; [discriminate |]. vm_compute. reflexivity.
  - apply surjective_pairing.
Defined.

(** ** Pack: how it ends *)

Lemma createFile_ok L bi f w b w' :
  createFile L bi f w = (Next b, w') ->
  b = match buildImage L bi with Some _ => true | None => false end.
Proof.
  unfold createFile, bind, emit, set_file, ret.
  destruct (buildImage L bi); [| destruct (leftOnFailure L bi)];
    intros H; inversion H; reflexivity.
Qed.

(** A run after the options ends in one of two ways: it returns false
    before the codec is called, with the files as they were, or it hands
    one image to the codec for its one operand, and the result is the
    codec's. *)
Lemma pack_run_ends L v args w r w' :
  pack_run L v args w = (r, w') ->
  (r = Return false /\ quiet w w') \/
  (exists f bi,
     args = [f] /\ created (log w') = created (log w) ++ [bi] /\
     r = match buildImage L bi with
         | Some _ => Next true
         | None => Return false
         end).
Proof.
  intros H.
  assert (Hcase : (exists f, args = [f]) \/ (forall f, args <> [f])).
  { destruct args as [| f [| g args]];
      [right; intros f; discriminate | left; exists f; reflexivity
      | right; intros f'; discriminate]. }
  destruct Hcase as [[f ->] | Hargs];
    [| left; exact (pack_run_usage _ _ _ _ _ _ H Hargs)].
  unfold pack_run in H.
  destruct (bool_decide (type v = Loki) && is_empty (path v Aboot)).
  { unfold bind, fprintf, emit, return_ in H. inversion H; subst.
    left. split; [reflexivity |]. unfold quiet. cbn [fs log].
    rewrite created_snoc, app_nil_r. split; reflexivity. }
  cbv zeta in H. change (set_path _ v) with (resolved L v f) in H.
  destruct (pack_listing_runs (resolved L v f) w) as (w0 & Hl & Q0 & _).
  rewrite (bind_Next _ _ _ _ _ Hl) in H.
  destruct (read_all (read_scalar L) scalar_items (resolved L v f) w0)
    as [[b | v1'] w1'] eqn:Hs.
  { rewrite (bind_Return _ _ _ _ _ Hs) in H. inversion H; subst.
    apply read_all_scalar_frame in Hs as (Qs & ->).
    left. split; [reflexivity | exact (quiet_trans _ _ _ Q0 Qs)]. }
  rewrite (bind_Next _ _ _ _ _ Hs) in H.
  apply read_all_scalar_frame in Hs as (Qs & _).
  destruct (read_all read_blob pack_blob_items v1' w1') as [[b | v2'] w2'] eqn:Hb.
  { rewrite (bind_Return _ _ _ _ _ Hb) in H. inversion H; subst.
    apply read_all_blob_frame in Hb as (Qb & ->).
    left. split; [reflexivity |].
    exact (quiet_trans _ _ _ Q0 (quiet_trans _ _ _ Qs Qb)). }
  rewrite (bind_Next _ _ _ _ _ Hb) in H.
  apply read_all_blob_frame in Hb as (Qb & _).
  assert (Q2 : quiet w w2')
    by exact (quiet_trans _ _ _ Q0 (quiet_trans _ _ _ Qs Qb)).
  destruct (createFile_log L (pack_image L v2') f w2') as (ok & w3 & Hcf & Hlog).
  rewrite (bind_Next _ _ _ _ _ Hcf) in H.
  pose proof (createFile_ok _ _ _ _ _ _ Hcf) as Hok.
  right. exists f, (pack_image L v2'). split; [reflexivity |].
  destruct (buildImage L (pack_image L v2')) as [c |]; subst ok;
    unfold bind, fprintf, emit, ret, return_ in H; inversion H; subst;
    cbn [log];
    (split; [rewrite created_snoc, app_nil_r, Hlog, created_snoc, (proj2 Q2);
             reflexivity
            | reflexivity]).
Qed.

(** ** Unpack: the writing of the files *)

Lemma written_event e :
  match e with Fopen p "wb" true => Some p | _ => None end = wrote e.
Proof.
  unfold wrote, string_eqb. destruct e as [| p mode ok | | | |]; try reflexivity.
  destruct ok; [| destruct (bool_decide (mode = "wb"));
                   repeat (match goal with
                           | |- context [match ?x with _ => _ end] => destruct x
                           end); reflexivity].
  destruct mode as [| [b0 b1 b2 b3 b4 b5 b6 b7] m];
    [rewrite bool_decide_eq_false_2 by discriminate; reflexivity |].
  destruct b0, b1, b2, b3, b4, b5, b6, b7;
    try (rewrite bool_decide_eq_false_2 by discriminate; reflexivity).
  destruct m as [| [c0 c1 c2 c3 c4 c5 c6 c7] m];
    [rewrite bool_decide_eq_false_2 by discriminate; reflexivity |].
  destruct c0, c1, c2, c3, c4, c5, c6, c7;
    try (rewrite bool_decide_eq_false_2 by discriminate; reflexivity).
  destruct m; [reflexivity |].
  rewrite bool_decide_eq_false_2 by discriminate. reflexivity.
Qed.

Lemma omap_pointwise {A B} (f g : A -> option B) (l : list A) :
  (forall x, f x = g x) -> omap f l = omap g l.
Proof.
  intros H. induction l as [| a l IH]; [reflexivity |].
  change (omap f (a :: l))
    with (match f a with Some y => y :: omap f l | None => omap f l end).
  change (omap g (a :: l))
    with (match g a with Some y => y :: omap g l | None => omap g l end).
  rewrite H, IH. reflexivity.
Qed.

Lemma written_wrote l : written l = omap wrote l.
Proof. apply omap_pointwise, written_event. Qed.

Lemma written_snoc l e :
  written (l ++ [e]) = written l ++ from_option (fun p => [p]) [] (wrote e).
Proof.
  rewrite !written_wrote, omap_app. f_equal.
Qed.

Lemma wrote_open p : wrote (Fopen p "wb" true) = Some p.
Proof. reflexivity. Qed.

Lemma writes_snoc l e :
  writes (l ++ [e]) = writes l ++ from_option (fun x => [x]) [] (sent e).
Proof. unfold writes. rewrite omap_app. f_equal. Qed.

(** One block opens its file at most once, and goes on only when the file
    was opened and the one call that writes to it reported success; it may
    fail after the file was opened. *)
Lemma write_block_step L path content i w r w' :
  write_block L path content i w = (r, w') ->
  (r = Next tt /\ written (log w') = written (log w) ++ [path i] /\
   writes (log w') = writes (log w) ++ [(path i, content i)]) \/
  (r = Return false /\
   (written (log w') = written (log w) \/
    written (log w') = written (log w) ++ [path i])).
Proof.
  unfold write_block, write_item, write_file, bind, fopen_wb.
  destruct (is_empty (path i)).
  - unfold ret, get_errno, fprintf, emit, return_.
    intros H; inversion H; subst; cbn [log]. right. split; [reflexivity |].
    left. rewrite !written_snoc. cbn [wrote from_option].
    rewrite !app_nil_r. reflexivity.
  - destruct (fs w !! path i) as [[e | c | e empty] |] eqn:Hf;
      cbn [fs log errno]; rewrite ?lookup_insert_eq, ?Hf;
      try destruct (negb (is_empty (content i)) && writeThrough L (content i));
      unfold ret, get_errno, fprintf, emit, return_;
      intros H; inversion H; subst; cbn [log];
      rewrite !written_snoc, ?writes_snoc, ?wrote_open;
      cbn [wrote sent from_option];
      rewrite ?app_nil_r;
      first [left; split; [reflexivity | split; reflexivity]
            | right; split; [reflexivity |]; first [left; reflexivity
                                                   | right; reflexivity]].
Qed.

(** A writing loop opens the files of its items in order and hands each
    its content: all of them when it reaches its end, and those of the
    first items, up to the one that failed, when it returns. *)
Lemma write_loop L path content l w r w' :
  for_each (write_block L path content) l w = (r, w') ->
  match r with
  | Next _ =>
      written (log w') = written (log w) ++ map path l /\
      writes (log w')
      = writes (log w) ++ map (fun i => (path i, content i)) l
  | Return b =>
      b = false /\
      exists k, (k <= length l)%nat /\
        written (log w') = written (log w) ++ map path (take k l)
  end.
Proof.
  revert w. induction l as [| a l IH]; intros w H.
  - inversion H; subst. cbn [map]. rewrite !app_nil_r. split; reflexivity.
  - cbn [for_each] in H.
    apply bind_inv in H as [([] & w1 & H1 & H2) | (b & H1 & ->)].
    + apply write_block_step in H1 as [(_ & Hw1 & Hs1) | [E _]];
        [| discriminate E].
      apply IH in H2. destruct r as [b | []].
      * destruct H2 as (-> & k & Hk & Hw). split; [reflexivity |].
        exists (S k). split; [cbn [length]; lia |].
        cbn [take map]. rewrite Hw, Hw1, <- app_assoc. reflexivity.
      * destruct H2 as [Hw Hs]. cbn [map].
        rewrite Hw, Hw1, Hs, Hs1, <- !app_assoc. split; reflexivity.
    + apply write_block_step in H1 as [[E _] | [E [Hw | Hw]]];
        [discriminate E | |]; inversion E; subst b; (split; [reflexivity |]).
      * exists 0%nat. split; [lia |]. cbn [take map].
        rewrite app_nil_r. exact Hw.
      * exists 1%nat. split; [cbn [length]; lia |]. cbn [take map].
        destruct l; exact Hw.
Qed.

(** ** Unpack: the option loop and the run after it *)

Lemma unpack_option_Next c a v w v' w' :
  unpack_option c a v w = (Next v', w') -> w' = w.
Proof.
  unfold unpack_option.
  repeat match goal with
  | |- context [if ?x =? ?y then _ else _] => destruct (x =? y)
  | |- context [match List.find ?f ?l with _ => _ end] => destruct (List.find f l)
  end;
  unfold bind, fprintf, emit, return_, ret; intros H; inversion H; reflexivity.
Qed.

Lemma unpack_option_Return c a v w b w' :
  unpack_option c a v w = (Return b, w') ->
  w' = mkWorld (fs w) (errno w)
         (log w ++ [Print (if b then stdout else stderr) UnpackUsage]) /\
  (b = true -> c = char_code "h").
Proof.
  unfold unpack_option.
  repeat match goal with
  | |- context [if ?x =? ?y then _ else _] => destruct (Z.eqb_spec x y)
  | |- context [match List.find ?f ?l with _ => _ end] => destruct (List.find f l)
  end;
  unfold bind, fprintf, emit, return_, ret; intros H; inversion H; subst;
  (split; [reflexivity |]);
  first [intros; first [assumption | reflexivity] | discriminate].
Qed.

Lemma unpack_options_Next evs v w v' w' :
  unpack_options evs v w = (Next v', w') -> w' = w.
Proof.
  revert v w. induction evs as [| [c a] r IH]; intros v w H.
  - inversion H; reflexivity.
  - cbn [unpack_options] in H.
    apply bind_inv in H as [(v1 & w1 & H1 & H2) | (b & _ & E)];
      [| discriminate E].
    apply unpack_option_Next in H1. apply IH in H2. congruence.
Qed.

Lemma unpack_options_Return evs v w b w' :
  unpack_options evs v w = (Return b, w') ->
  w' = mkWorld (fs w) (errno w)
         (log w ++ [Print (if b then stdout else stderr) UnpackUsage]) /\
  (b = true -> exists a, (char_code "h", a) ∈ evs).
Proof.
  revert v w. induction evs as [| [c a] r IH]; intros v w H.
  - discriminate H.
  - cbn [unpack_options] in H.
    apply bind_inv in H as [(v1 & w1 & H1 & H2) | (b' & H1 & E)].
    + apply unpack_option_Next in H1. subst w1.
      apply IH in H2 as [Hw Hb]. split; [exact Hw |].
      intros Eb. destruct (Hb Eb) as [a' Ha']. exists a'.
      apply elem_of_cons. right. exact Ha'.
    + inversion E; subst b'; clear E.
      apply unpack_option_Return in H1 as [Hw Hb]. split; [exact Hw |].
      intros Eb. exists a. rewrite <- (Hb Eb). apply elem_of_cons. left.
      reflexivity.
Qed.

Lemma unpack_main_body L argv w evs input v w1 :
  getopt_long argv unpack_optstring unpack_long_options = (evs, [input]) ->
  unpack_options evs unpack_init w = (Next v, w1) ->
  unpack_main L argv w = unpack_body L v input w.
Proof.
  intros Hget Ho. pose proof (unpack_options_Next _ _ _ _ _ Ho) as ->.
  unfold unpack_main. rewrite Hget, (bind_Next _ _ _ _ _ Ho).
  unfold unpack_body, unpack_resolved, write_block, write_file_fmt,
    write_file_data.
  reflexivity.
Qed.

Lemma for_each_prints_log {A} (f : A -> prog unit) (l : list A) w :
  (forall a, exists s m, f a = fprintf s m) ->
  exists l', for_each f l w
             = (Next tt, mkWorld (fs w) (errno w) (log w ++ l')) /\
             Forall (fun e => is_print e = true) l'.
Proof.
  intros Hf. revert w. induction l as [| a l IH]; intros w.
  - exists []. rewrite app_nil_r. destruct w. split; [reflexivity | constructor].
  - cbn [for_each]. destruct (Hf a) as (s & m & ->).
    destruct (IH (mkWorld (fs w) (errno w) (log w ++ [Print s m])))
      as (l' & Hrun & Hall).
    exists (Print s m :: l'). split.
    + unfold bind, fprintf at 1, emit. rewrite Hrun. cbn [fs errno log].
      rewrite <- app_assoc. reflexivity.
    + constructor; [reflexivity | exact Hall].
Qed.

Lemma emit_run e w :
  emit e w = (Next tt, mkWorld (fs w) (errno w) (log w ++ [e])).
Proof. reflexivity. Qed.

Lemma loadFile_run L input w :
  loadFile L input w
  = (Next (loaded L w input),
     mkWorld (fs w) (errno w) (log w ++ [LoadFile input])).
Proof.
  unfold loadFile, loaded, bind, emit. cbn [fs errno log].
  destruct (fs w !! input) as [[e | c | e empty] |]; reflexivity.
Qed.

(** The run of unpack up to the loading of the image: it prints, asks for
    the directory and loads; no file is written. *)
Lemma unpack_body_start L v input w :
  exists l0,
    Forall no_output l0 /\
    unpack_body L v input w
    = if createDirectories L (effective_dir (u_output_dir v)) then
        match loaded L w input with
        | Some bi =>
            (for_each (write_block L (unpack_resolved L v input)
                         (unpack_text L bi)) scalar_items ;;;
             for_each (write_block L (unpack_resolved L v input)
                         (fun i => string_of_list_byte (image_blob bi i)))
               unpack_blob_items ;;;
             fprintf stdout Done ;;; ret true)
              (mkWorld (fs w) (errno w) (log w ++ l0))
        | None =>
            (Return false,
             mkWorld (fs w) (errno w)
               (log w ++ l0 ++ [Print stderr (LoadError input)]))
        end
      else
        (Return false,
         mkWorld (fs w) (errno w)
           (log w ++ l0
                  ++ [Print stderr
                        (MkdirError (effective_dir (u_output_dir v)))])).
Proof.
  unfold unpack_body. cbv zeta.
  set (path := unpack_resolved L v input).
  set (dir := effective_dir (u_output_dir v)).
  destruct (for_each_prints_log
    (fun i => fprintf stdout (ItemPath i (path i))) unpack_items
    (mkWorld (fs w) (errno w) (log w ++ [Print stdout (FilesHeader true)])))
    as (l1 & Hrun & Hall).
  { intros i. eexists _, _. reflexivity. }
  cbn [fs errno log] in Hrun.
  assert (Hnw : forall l, Forall (fun e => is_print e = true) l ->
                          Forall no_output l).
  { intros l H. induction H as [| e l' He _ IH]; constructor; [| exact IH].
    destruct e; try discriminate He. split; reflexivity. }
  unfold fprintf at 1.
  rewrite (bind_Next _ _ _ _ _ (emit_run _ w)).
  rewrite (bind_Next _ _ _ _ _ Hrun).
  rewrite (bind_Next _ _ _ _ _ (emit_run _ _)). cbn [fs errno log].
  destruct (createDirectories L dir) eqn:Hmk.
  - exists ([Print stdout (FilesHeader true)] ++ l1
            ++ [Mkdirs dir; LoadFile input]).
    split.
    { apply Forall_app. split; [repeat constructor |].
      apply Forall_app. split; [apply Hnw, Hall | repeat constructor]. }
    rewrite (bind_Next _ _ _ _ _ (loadFile_run L input _)).
    cbn [fs errno log]. unfold loaded at 1. cbn [fs].
    fold (loaded L w input).
    replace ((((log w ++ [Print stdout (FilesHeader true)]) ++ l1)
             ++ [Mkdirs dir]) ++ [LoadFile input])
      with (log w ++ [Print stdout (FilesHeader true)] ++ l1
                  ++ [Mkdirs dir; LoadFile input])
      by (rewrite <- !app_assoc; reflexivity).
    destruct (loaded L w input) as [bi |]; [reflexivity |].
    unfold bind, fprintf, emit, return_; cbn [fs errno log].
    rewrite <- !app_assoc. reflexivity.
  - exists ([Print stdout (FilesHeader true)] ++ l1 ++ [Mkdirs dir]).
    split.
    { apply Forall_app. split; [repeat constructor |].
      apply Forall_app. split; [apply Hnw, Hall | repeat constructor]. }
    unfold bind, fprintf, emit, return_; cbn [fs errno log].
    rewrite <- !app_assoc. reflexivity.
Qed.

Lemma written_none l l' :
  Forall no_output l' -> written (l ++ l') = written l.
Proof.
  intros H. rewrite !written_wrote, omap_app.
  assert (E : omap wrote l' = []).
  { induction H as [| e l'' [He _] _ IH]; [reflexivity |].
    change (omap wrote (e :: l''))
      with (match wrote e with
            | Some y => y :: omap wrote l''
            | None => omap wrote l''
            end).
    rewrite He. exact IH. }
  rewrite E. apply app_nil_r.
Qed.

Lemma writes_none l l' :
  Forall no_output l' -> writes (l ++ l') = writes l.
Proof.
  intros H. unfold writes. rewrite omap_app.
  assert (E : omap sent l' = []).
  { induction H as [| e l'' [_ He] _ IH]; [reflexivity |].
    change (omap sent (e :: l''))
      with (match sent e with
            | Some y => y :: omap sent l''
            | None => omap sent l''
            end).
    rewrite He. exact IH. }
  rewrite E. apply app_nil_r.
Qed.

Lemma item_content_scalar L bi i :
  i ∈ scalar_items -> item_content L bi i = unpack_text L bi i.
Proof. intros H. unfold item_content. rewrite (bool_decide_eq_true_2 _ H). reflexivity. Qed.

Lemma item_content_blob L bi i :
  i ∈ unpack_blob_items ->
  item_content L bi i = string_of_list_byte (image_blob bi i).
Proof.
  intros H. unfold item_content.
  rewrite bool_decide_eq_false_2; [reflexivity |].
  intros Hs. exact (scalar_not_blob i Hs H).
Qed.

(** What unpack hands to the file of an item. *)
Lemma item_contents L bi (path : item -> string) :
  map (fun i => (path i, item_content L bi i)) unpack_items
  = map (fun i => (path i, unpack_text L bi i)) scalar_items
    ++ map (fun i => (path i, string_of_list_byte (image_blob bi i)))
         unpack_blob_items.
Proof.
  unfold unpack_items. rewrite map_app. reflexivity.
Qed.

(** The whole run of unpack. *)
Lemma unpack_main_run L argv w r w' :
  unpack_main L argv w = (r, w') ->
  (r = Next true /\
   exists evs input v bi,
     getopt_long argv unpack_optstring unpack_long_options = (evs, [input]) /\
     unpack_options evs unpack_init w = (Next v, w) /\
     createDirectories L (effective_dir (u_output_dir v)) = true /\
     loaded L w input = Some bi /\
     written (log w')
     = written (log w) ++ map (unpack_resolved L v input) unpack_items /\
     writes (log w')
     = writes (log w)
       ++ map (fun i => (unpack_resolved L v input i, item_content L bi i))
            unpack_items) \/
  (r = Return false /\
   exists k, (k <= length unpack_items)%nat /\
     written (log w') = written (log w) ++ take k (unpack_plan L argv w) /\
     (unpack_ready L argv w = false -> k = 0%nat)).
Proof.
  intros Hrun. unfold unpack_plan, unpack_ready.
  destruct (getopt_long argv unpack_optstring unpack_long_options)
    as [evs args] eqn:Hget.
  assert (Hstop : forall l0 m e,
    Forall no_output l0 ->
    written (log (mkWorld (fs w) e (log w ++ l0 ++ [Print stderr m])))
    = written (log w)).
  { intros l0 m e H. cbn [log]. apply written_none.
    apply Forall_app. split; [exact H | repeat constructor]. }
  destruct (unpack_options evs unpack_init w) as [[b | v] w1] eqn:Ho.
  - unfold unpack_main in Hrun. rewrite Hget in Hrun.
    rewrite (bind_Return _ _ _ _ _ Ho) in Hrun. inversion Hrun; subst.
    apply unpack_options_Return in Ho as [-> Hb]. right. destruct b.
    { exfalso. destruct (Hb eq_refl) as [a Hin].
      apply (unpack_never_sees_help argv a). rewrite Hget. exact Hin. }
    split; [reflexivity |]. exists 0%nat. split; [lia |].
    split; [| reflexivity].
    cbn [take]. rewrite app_nil_r. apply (Hstop [] UnpackUsage). constructor.
  - pose proof (unpack_options_Next _ _ _ _ _ Ho) as ->.
    destruct args as [| input [| g args]].
    + unfold unpack_main in Hrun. rewrite Hget in Hrun.
      rewrite (bind_Next _ _ _ _ _ Ho) in Hrun.
      unfold bind, fprintf, emit, return_ in Hrun. inversion Hrun; subst.
      right. split; [reflexivity |]. exists 0%nat. split; [lia |].
      split; [| reflexivity].
      cbn [take]. rewrite app_nil_r. apply (Hstop [] UnpackUsage). constructor.
    + rewrite (unpack_main_body L argv w evs input v w Hget Ho) in Hrun.
      destruct (unpack_body_start L v input w) as (l0 & Hl0 & Hbody).
      rewrite Hbody in Hrun. clear Hbody.
      destruct (createDirectories L (effective_dir (u_output_dir v))) eqn:Hmk.
      2:{ inversion Hrun; subst. right. split; [reflexivity |].
          exists 0%nat. split; [lia |]. split; [| reflexivity].
          cbn [take]. rewrite app_nil_r. apply (Hstop l0 _ _ Hl0). }
      destruct (loaded L w input) as [bi |] eqn:Hld.
      2:{ inversion Hrun; subst. right. split; [reflexivity |].
          exists 0%nat. split; [lia |]. split; [| reflexivity].
          cbn [take]. rewrite app_nil_r. apply (Hstop l0 _ _ Hl0). }
      cbn [andb].
      assert (Hw0 : written (log w ++ l0) = written (log w))
        by (apply written_none, Hl0).
      assert (Hs0 : writes (log w ++ l0) = writes (log w))
        by (apply writes_none, Hl0).
      assert (Hsplit : map (unpack_resolved L v input) unpack_items
                       = map (unpack_resolved L v input) scalar_items
                         ++ map (unpack_resolved L v input) unpack_blob_items)
        by (unfold unpack_items; apply map_app).
      apply bind_inv in Hrun as [([] & wa & H1 & Hrun) | (b & H1 & ->)].
      * apply write_loop in H1 as [H1 S1]. cbn [log] in H1, S1.
        rewrite Hw0 in H1. rewrite Hs0 in S1.
        apply bind_inv in Hrun as [([] & wb & H2 & Hrun) | (b & H2 & ->)].
        -- apply write_loop in H2 as [H2 S2].
           unfold bind, fprintf, emit, ret in Hrun. inversion Hrun; subst.
           left. split; [reflexivity |]. exists evs, input, v, bi.
           split; [reflexivity |]. split; [exact Ho |].
           split; [exact Hmk |]. split; [exact Hld |].
           cbn [log]. rewrite written_snoc, writes_snoc.
           change (wrote (Print stdout Done)) with (@None string).
           change (sent (Print stdout Done)) with (@None (string * string)).
           cbn [from_option]. rewrite !app_nil_r. split.
           ++ rewrite H2, H1, Hsplit, app_assoc. reflexivity.
           ++ rewrite S2, S1, item_contents, app_assoc. reflexivity.
        -- apply write_loop in H2 as (-> & k & Hk & Hw2).
           right. split; [reflexivity |].
           exists (length scalar_items + k)%nat.
           split; [unfold unpack_items; rewrite length_app; lia |].
           split; [| discriminate].
           rewrite firstn_map. unfold unpack_items.
           rewrite firstn_app_2, map_app, Hw2, H1, app_assoc. reflexivity.
      * apply write_loop in H1 as (-> & k & Hk & Hw1).
        cbn [log] in Hw1. rewrite Hw0 in Hw1.
        right. split; [reflexivity |]. exists k.
        split; [unfold unpack_items; rewrite length_app; lia |].
        split; [| discriminate].
        rewrite firstn_map. unfold unpack_items.
        rewrite take_app_le by exact Hk. exact Hw1.
    + unfold unpack_main in Hrun. rewrite Hget in Hrun.
      rewrite (bind_Next _ _ _ _ _ Ho) in Hrun.
      unfold bind, fprintf, emit, return_ in Hrun. inversion Hrun; subst.
      right. split; [reflexivity |]. exists 0%nat. split; [lia |].
      split; [| reflexivity].
      cbn [take]. rewrite app_nil_r. apply (Hstop [] UnpackUsage). constructor.
Qed.

(** X8.  When unpack returns true, its command line had exactly one
    operand, the output directory was made, the codec parsed the input
    file, and the files that unpack opened for writing are exactly those
    of the 21 items at their resolved paths, one for each item, in the
    order of the schema: the twelve scalars, then the nine blobs.  Each of
    them was handed, in one call that reported success, the text or the
    bytes of its item. *)
Theorem unpack_writes_every_item (L : Lib) (argv : list string)
    (w w' : world) :
  unpack_main L argv w = (Next true, w') ->
  exists evs input v bi,
    getopt_long argv unpack_optstring unpack_long_options = (evs, [input]) /\
    unpack_options evs unpack_init w = (Next v, w) /\
    createDirectories L (effective_dir (u_output_dir v)) = true /\
    loaded L w input = Some bi /\
    written (log w')
    = written (log w) ++ map (unpack_resolved L v input) unpack_items /\
    writes (log w')
    = writes (log w)
      ++ map (fun i => (unpack_resolved L v input i, item_content L bi i))
           unpack_items.
Proof.
  intros H.
  destruct (unpack_main_run L argv w _ _ H) as [[_ Hok] | [E _]];
    [exact Hok | discriminate E].
Qed.

Lemma unpack_writes_every_item_witness :
  exists evs input v bi,
    getopt_long ["unpack"; "boot.img"; "-o"; "out/"] unpack_optstring
      unpack_long_options = (evs, [input]) /\
    unpack_options evs unpack_init boot_img = (Next v, boot_img) /\
    createDirectories lib64 (effective_dir (u_output_dir v)) = true /\
    loaded lib64 boot_img input = Some bi /\
    written (log after_unpack)
    = written (log boot_img) ++ map (unpack_resolved lib64 v input) unpack_items /\
    writes (log after_unpack)
    = writes (log boot_img)
      ++ map (fun i => (unpack_resolved lib64 v input i,
                        item_content lib64 bi i)) unpack_items.
Proof.
  apply (unpack_writes_every_item lib64 ["unpack"; "boot.img"; "-o"; "out/"]
           boot_img after_unpack).
  unfold after_unpack. vm_compute. reflexivity.
Defined.

(** X9.  Unpack returns true only at its end: every other run returns
    false (there is no successful return from the option loop).  The
    files it has then opened for writing are the first [k] of those it
    was to write, in order, for some [k] up to 21: the file of the item
    that failed is among them when it could be opened and the writing
    failed.  When the command line is refused, the directory cannot be
    made or the input cannot be parsed, no file is opened for writing. *)
Theorem unpack_stops_at_first_error (L : Lib) (argv : list string)
    (w w' : world) (r : outcome bool) :
  unpack_main L argv w = (r, w') ->
  r <> Next true ->
  r = Return false /\
  exists k, (k <= length unpack_items)%nat /\
    written (log w') = written (log w) ++ take k (unpack_plan L argv w) /\
    (unpack_ready L argv w = false -> k = 0%nat).
Proof.
  intros H Hne.
  destruct (unpack_main_run L argv w _ _ H) as [[E _] | Hstop];
    [contradiction | exact Hstop].
Qed.

Lemma unpack_stops_at_first_error_witness :
  fst (unpack_main lib64 ["unpack"; "boot.img"; "-o"; "out/"] base_unwritable)
  = Return false /\
  exists k, (k <= length unpack_items)%nat /\
    written (log (snd (unpack_main lib64 ["unpack"; "boot.img"; "-o"; "out/"]
                         base_unwritable)))
    = written (log base_unwritable)
      ++ take k (unpack_plan lib64 ["unpack"; "boot.img"; "-o"; "out/"]
                   base_unwritable) /\
    (unpack_ready lib64 ["unpack"; "boot.img"; "-o"; "out/"] base_unwritable
     = false -> k = 0%nat).
Proof.
  apply (unpack_stops_at_first_error lib64
           ["unpack"; "boot.img"; "-o"; "out/"] base_unwritable).
  - apply surjective_pairing.
  - vm_compute. discriminate.
Defined.

(** ** Pack as a whole *)

(** Pack ends in one of two ways. *)
Lemma pack_main_cases L argv w r w' :
  pack_main L argv w = (r, w') ->
  (r = Return false /\ fs w' = fs w /\
   created (log w') = created (log w)) \/
  (exists f bi,
     snd (getopt_long argv pack_optstring pack_long_options) = [f] /\
     created (log w') = created (log w) ++ [bi] /\
     r = match buildImage L bi with
         | Some _ => Next true
         | None => Return false
         end).
Proof.
  unfold pack_main.
  destruct (getopt_long argv pack_optstring pack_long_options)
    as [evs args] eqn:Hget.
  intros H. apply bind_inv in H as [(v & w1 & Ho & Hr) | (b & Ho & ->)].
  - apply pack_options_Next in Ho as (Hfs & Hlog & _).
    apply pack_run_ends in Hr
      as [[-> [Hf Hc]] | (f & bi & -> & Hc & ->)].
    + left. split; [reflexivity |]. split; congruence.
    + right. exists f, bi. split; [reflexivity |].
      split; [rewrite Hc, Hlog; reflexivity | reflexivity].
  - apply pack_options_Return in Ho as (Hfs & [m Hm] & Hb). destruct b.
    + exfalso. destruct (Hb eq_refl) as [a Ha].
      apply (pack_never_sees_help argv a). rewrite Hget. exact Ha.
    + left. split; [reflexivity |]. split; [exact Hfs |].
      rewrite Hm, created_snoc. apply app_nil_r.
Qed.

(** X10.  Pack ends in one of two ways.  Either it returns false without
    having called the codec, and then every file is as it was.  Or its
    command line had exactly one operand and it handed one image to the
    codec, as its last step: it then returns true when the codec built
    the image and false when it did not.  True is never returned from the
    option loop. *)
Theorem pack_ends_in_two_ways (L : Lib) (argv : list string) (w w' : world)
    (r : outcome bool) :
  pack_main L argv w = (r, w') ->
  (r = Return false /\ fs w' = fs w /\
   created (log w') = created (log w)) \/
  (exists f bi,
     snd (getopt_long argv pack_optstring pack_long_options) = [f] /\
     created (log w') = created (log w) ++ [bi] /\
     r = match buildImage L bi with
         | Some _ => Next true
         | None => Return false
         end).
Proof. apply pack_main_cases. Qed.

Lemma pack_ends_in_two_ways_witness :
  (fst (pack_main lib64 ["pack"; "out.img"] (world0 kernel_and_ramdisk))
   = Return false /\
   fs (snd (pack_main lib64 ["pack"; "out.img"] (world0 kernel_and_ramdisk)))
   = fs (world0 kernel_and_ramdisk) /\
   created (log (snd (pack_main lib64 ["pack"; "out.img"]
                        (world0 kernel_and_ramdisk))))
   = created (log (world0 kernel_and_ramdisk))) \/
  (exists f bi,
     snd (getopt_long ["pack"; "out.img"] pack_optstring pack_long_options)
     = [f] /\
     created (log (snd (pack_main lib64 ["pack"; "out.img"]
                          (world0 kernel_and_ramdisk))))
     = created (log (world0 kernel_and_ramdisk)) ++ [bi] /\
     fst (pack_main lib64 ["pack"; "out.img"] (world0 kernel_and_ramdisk))
     = match buildImage lib64 bi with
       | Some _ => Next true
       | None => Return false
       end).
Proof.
  apply (pack_ends_in_two_ways lib64 ["pack"; "out.img"]
           (world0 kernel_and_ramdisk)).
  apply surjective_pairing.
Defined.

(** ** An option that [getopt_long] does not know *)

Lemma pack_option_unknown L a v w :
  pack_option L opt_unknown a v w
  = (Return false,
     mkWorld (fs w) (errno w) (log w ++ [Print stderr PackUsage])).
Proof. reflexivity. Qed.

Lemma unpack_option_unknown a v w :
  unpack_option opt_unknown a v w
  = (Return false,
     mkWorld (fs w) (errno w) (log w ++ [Print stderr UnpackUsage])).
Proof. reflexivity. Qed.

Lemma pack_options_unknown L evs a v w :
  (opt_unknown, a) ∈ evs ->
  exists b w', pack_options L evs v w = (Return b, w').
Proof.
  revert v w. induction evs as [| [c x] evs IH]; intros v w H.
  - apply elem_of_nil in H. destruct H.
  - cbn [pack_options].
    destruct (pack_option L c x v w) as [[b | v1] w1] eqn:E.
    + exists b, w1. apply (bind_Return _ _ _ _ _ E).
    + rewrite (bind_Next _ _ _ _ _ E).
      apply elem_of_cons in H as [H | H]; [| exact (IH v1 w1 H)].
      inversion H; subst. rewrite pack_option_unknown in E. discriminate E.
Qed.

Lemma unpack_options_unknown evs a v w :
  (opt_unknown, a) ∈ evs ->
  exists b w', unpack_options evs v w = (Return b, w').
Proof.
  revert v w. induction evs as [| [c x] evs IH]; intros v w H.
  - apply elem_of_nil in H. destruct H.
  - cbn [unpack_options].
    destruct (unpack_option c x v w) as [[b | v1] w1] eqn:E.
    + exists b, w1. apply (bind_Return _ _ _ _ _ E).
    + rewrite (bind_Next _ _ _ _ _ E).
      apply elem_of_cons in H as [H | H]; [| exact (IH v1 w1 H)].
      inversion H; subst. rewrite unpack_option_unknown in E. discriminate E.
Qed.

Lemma printed_stdout_snoc l m :
  printed stdout (l ++ [Print stderr m]) = printed stdout l.
Proof. unfold printed. rewrite omap_app. apply app_nil_r. Qed.

(** X11.  When [getopt_long] reports an unknown option or a missing argument
    anywhere on the command line of pack, pack returns false from its
    option loop: it opens no file, hands no image to the codec, changes no
    file and prints nothing to stdout, whatever the other options and the
    operands are. *)
Theorem unknown_option_stops_pack (L : Lib) (argv : list string) (a : string)
    (w : world) :
  (opt_unknown, a)
    ∈ fst (getopt_long argv pack_optstring pack_long_options) ->
  exists w',
    pack_main L argv w = (Return false, w') /\
    fs w' = fs w /\
    fopens (log w') = fopens (log w) /\
    created (log w') = created (log w) /\
    printed stdout (log w') = printed stdout (log w).
Proof.
  intros H. unfold pack_main.
  destruct (getopt_long argv pack_optstring pack_long_options)
    as [evs args] eqn:Hget.
  cbn [fst] in H.
  destruct (pack_options_unknown L evs a pack_init w H) as (b & w' & Ho).
  rewrite (bind_Return _ _ _ _ _ Ho).
  apply pack_options_Return in Ho as (Hfs & [m Hm] & Hb). destruct b.
  - exfalso. destruct (Hb eq_refl) as [x Hx].
    apply (pack_never_sees_help argv x). rewrite Hget. exact Hx.
  - exists w'. split; [reflexivity |]. split; [exact Hfs |]. rewrite Hm.
    split; [rewrite fopens_snoc; apply app_nil_r |].
    split; [rewrite created_snoc; apply app_nil_r |].
    apply printed_stdout_snoc.
Qed.

Lemma unknown_option_stops_pack_witness :
  exists w',
    pack_main lib64 ["pack"; "-x"; "out.img"] (world0 kernel_and_ramdisk)
    = (Return false, w') /\
    fs w' = fs (world0 kernel_and_ramdisk) /\
    fopens (log w') = fopens (log (world0 kernel_and_ramdisk)) /\
    created (log w') = created (log (world0 kernel_and_ramdisk)) /\
    printed stdout (log w') = printed stdout (log (world0 kernel_and_ramdisk)).
Proof.
  apply (unknown_option_stops_pack lib64 ["pack"; "-x"; "out.img"] "").
  vm_compute. apply list_elem_of_here.
Defined.

(** X12.  When [getopt_long] reports an unknown option or a missing
    argument anywhere on the command line of unpack, unpack prints its
    usage to stderr and returns false, and does nothing else: no
    directory is made, the input file is not loaded and no file is
    written. *)
Theorem unknown_option_stops_unpack (L : Lib) (argv : list string)
    (a : string) (w : world) :
  (opt_unknown, a)
    ∈ fst (getopt_long argv unpack_optstring unpack_long_options) ->
  unpack_main L argv w
  = (Return false,
     mkWorld (fs w) (errno w) (log w ++ [Print stderr UnpackUsage])).
Proof.
  intros H. unfold unpack_main.
  destruct (getopt_long argv unpack_optstring unpack_long_options)
    as [evs args] eqn:Hget.
  cbn [fst] in H.
  destruct (unpack_options_unknown evs a unpack_init w H) as (b & w' & Ho).
  rewrite (bind_Return _ _ _ _ _ Ho).
  apply unpack_options_Return in Ho as (-> & Hb). destruct b.
  - exfalso. destruct (Hb eq_refl) as [x Hx].
    apply (unpack_never_sees_help argv x). rewrite Hget. exact Hx.
  - reflexivity.
Qed.

Lemma unknown_option_stops_unpack_witness :
  unpack_main lib64 ["unpack"; "boot.img"; "--output"] boot_img
  = (Return false,
     mkWorld (fs boot_img) (errno boot_img)
       (log boot_img ++ [Print stderr UnpackUsage])).
Proof.
  apply (unknown_option_stops_unpack lib64 ["unpack"; "boot.img"; "--output"] "").
  vm_compute. apply list_elem_of_here.
Defined.

(** ** The numbers that pack reads and does not use *)

Lemma pack_image_same L v v' :
  text v' Cmdline = text v Cmdline -> text v' Board = text v Board ->
  num v' PageSize = num v PageSize -> num v' Base = num v Base ->
  num v' KernelOffset = num v KernelOffset ->
  num v' RamdiskOffset = num v RamdiskOffset ->
  num v' SecondOffset = num v SecondOffset ->
  num v' TagsOffset = num v TagsOffset ->
  blob v' = blob v -> type v' = type v ->
  pack_image L v' = pack_image L v.
Proof.
  intros A B C D E F G H I J. unfold pack_image.
  rewrite A, B, C, D, E, F, G, H, I, J. reflexivity.
Qed.

(** X13.  The ipl, rpm and appsbl addresses and the entry point are parsed
    from their value options and read from their files like the other
    numbers, but no setter is called with them: neither the value option
    nor the read step of one of these items changes the image that pack
    hands to the codec. *)
Theorem addresses_read_but_not_used (L : Lib) (i : item) (v : pack_vars)
    (w : world) :
  i ∈ unused_items ->
  (forall lit v' w',
     pack_option L (OPT_VALUE i) lit v w = (Next v', w') ->
     pack_image L v' = pack_image L v) /\
  (forall v' w',
     read_scalar L i v w = (Next v', w') ->
     pack_image L v' = pack_image L v).
Proof.
  intros Hi. split.
  - intros lit v' w' H.
    apply pack_option_Next in H as (_ & _ & [_ _ Ht Hn Hb Hty]).
    assert (Hc : forall X, X ∈ scalar_items ->
                   X ∉ unused_items ->
                   bool_decide (OPT_VALUE i = OPT_VALUE X) = false).
    { intros X HX HnX. apply bool_decide_eq_false_2. intros E.
      apply HnX. rewrite <- (OPT_VALUE_inj i X); [exact Hi | | exact E].
      revert Hi. clear. intros Hi.
      destruct i; first [compute_done | exfalso; revert Hi; compute_done]. }
    assert (Hnum : forall X, X ∈ scalar_items -> X ∉ text_items ->
                     X ∉ unused_items -> num v' X = num v X).
    { intros X HX HtX HuX. specialize (Hn X HX HtX).
      rewrite (Hc X HX HuX) in Hn. exact Hn. }
    assert (Htext : forall X, X ∈ text_items -> text v' X = text v X).
    { intros X HX. rewrite (Ht X HX).
      rewrite (Hc X (text_is_scalar X HX)); [reflexivity |].
      revert HX. clear. intros HX.
      destruct X; first [compute_done | exfalso; revert HX; compute_done]. }
    assert (Hty' : type v' = type v).
    { destruct (Z.eqb_spec (OPT_VALUE i) (char_code "t")) as [E | _];
        [| exact Hty].
      exfalso. revert Hi E. clear. intros Hi.
      destruct i; first [discriminate | exfalso; revert Hi; compute_done]. }
    apply pack_image_same; try assumption;
      first [apply Htext; compute_done
            | apply Hnum; compute_done].
  - intros v' w' H.
    destruct i; try (exfalso; revert Hi; compute_done);
      match type of H with
      | read_scalar ?L ?i ?v ?w = _ =>
          change (read_scalar L i v w) with (read_num L i v w) in H
      end;
      unfold read_num in H; crunch H; reflexivity.
Qed.

Lemma addresses_read_but_not_used_witness :
  (forall lit v' w',
     pack_option lib64 (OPT_VALUE Entrypoint) lit pack_init (world0 [])
     = (Next v', w') ->
     pack_image lib64 v' = pack_image lib64 pack_init) /\
  (forall v' w',
     read_scalar lib64 Entrypoint pack_init (world0 []) = (Next v', w') ->
     pack_image lib64 v' = pack_image lib64 pack_init).
Proof.
  apply (addresses_read_but_not_used lib64 Entrypoint pack_init (world0 [])).
  compute_done.
Defined.

(** ** The exit status *)

Lemma unpack_main_cases L argv w r w' :
  unpack_main L argv w = (r, w') -> r = Next true \/ r = Return false.
Proof.
  intros H.
  destruct (unpack_main_run L argv w _ _ H) as [[E _] | [E _]];
    [left | right]; exact E.
Qed.

Lemma exit_status_success (r : outcome bool * world) :
  (fst r = Next true \/ fst r = Return false) ->
  exit_status r (fun b => b) = EXIT_SUCCESS <-> fst r = Next true.
Proof.
  unfold exit_status. intros [E | E]; rewrite E; cbn; split;
    first [reflexivity | discriminate].
Qed.

(** X15.  The exit status is [EXIT_SUCCESS] exactly when the command is
    [unpack] or [pack] and the sub-command ran to its end: no command, an
    unknown command, and every early return of a sub-command give
    [EXIT_FAILURE]. *)
Theorem main_exit_status (L : Lib) (argv : list string) (w : world) :
  fst (main L argv w) = EXIT_SUCCESS <->
  exists a command rest,
    argv = a :: command :: rest /\
    ((command = "unpack" /\
      fst (unpack_main L (command :: rest) w) = Next true) \/
     (command = "pack" /\
      fst (pack_main L (command :: rest) w) = Next true)).
Proof.
  assert (Hu : forall args,
    fst (unpack_main L args w) = Next true \/
    fst (unpack_main L args w) = Return false).
  { intros args. apply (unpack_main_cases L args w _ (snd (unpack_main L args w))).
    apply surjective_pairing. }
  assert (Hp : forall args,
    fst (pack_main L args w) = Next true \/
    fst (pack_main L args w) = Return false).
  { intros args.
    destruct (pack_main_cases L args w _ (snd (pack_main L args w))
                (surjective_pairing _)) as [[E _] | (f & bi & _ & _ & E)];
      [right; exact E |].
    rewrite E. destruct (buildImage L bi); [left | right]; reflexivity. }
  destruct argv as [| a [| command rest]].
  - split; [discriminate | intros (a & c & r & E & _); discriminate E].
  - split; [discriminate | intros (a' & c & r & E & _); discriminate E].
  - unfold main, string_eqb. cbn [tail].
    destruct (bool_decide_reflect (command = "unpack")) as [Eu | Nu].
    + cbn [fst]. rewrite (exit_status_success _ (Hu _)). split.
      * intros H. exists a, command, rest. split; [reflexivity |].
        left. split; assumption.
      * intros (a' & c & r & E & [[_ H] | [Ec H]]); inversion E; subst;
          first [assumption | congruence].
    + destruct (bool_decide_reflect (command = "pack")) as [Ep | Np].
      * cbn [fst]. rewrite (exit_status_success _ (Hp _)). split.
        -- intros H. exists a, command, rest. split; [reflexivity |].
           right. split; assumption.
        -- intros (a' & c & r & E & [[Ec H] | [_ H]]); inversion E; subst;
             first [assumption | congruence].
      * cbn [fst]. split; [discriminate |].
        intros (a' & c & r & E & [[Ec _] | [Ec _]]); inversion E; subst;
          congruence.
Qed.

(** ** The long option [--noprefix] *)

(** X16.  The tables of long options give [--noprefix] a required argument:
    the argument after [--noprefix] is taken as its argument, so a command
    line of [--noprefix] and one file has no operand left, and unpack and
    pack print their usage to stderr and return false without opening the
    file. *)
Theorem noprefix_long_option_takes_argument (L : Lib) (file : string)
    (w : world) :
  unpack_main L ["unpack"; "--noprefix"; file] w
  = (Return false,
     mkWorld (fs w) (errno w) (log w ++ [Print stderr UnpackUsage])) /\
  pack_main L ["pack"; "--noprefix"; file] w
  = (Return false,
     mkWorld (fs w) (errno w) (log w ++ [Print stderr PackUsage])).
Proof. split; reflexivity. Qed.

(** ** Pack on the files that unpack wrote *)

Lemma read_scalar_back L bi i v w :
  i ∈ scalar_items ->
  (i ∈ numeric_items -> is_uint32 (unpack_num L bi i)) ->
  2 ^ 32 - 1 <= ULONG_MAX L ->
  has_value v (OPT_VALUE i) = false -> path v i <> "" ->
  fs w !! path v i = Some (Regular (unpack_text L bi i)) ->
  read_scalar L i v w
  = (Next (scalar_read_back L bi i v),
     mkWorld (fs w) (errno w) (log w ++ [Fopen (path v i) "rb" true])).
Proof.
  intros Hi Hn HM Hv Hp Hf. unfold scalar_read_back.
  unfold scalar_items in Hi. apply elem_of_app in Hi as [Ht | Hnum].
  - rewrite (bool_decide_eq_true_2 _ Ht). apply read_scalar_text; assumption.
  - change (i ∈ numeric_items) in Hnum.
    destruct (numeric_item_kind i Hnum) as [-> _].
    apply read_scalar_numeric; auto.
Qed.

Lemma scalar_read_back_text L bi a v i :
  text (scalar_read_back L bi a v) i
  = if bool_decide (a ∈ text_items) && bool_decide (a = i)
    then read_back L bi i else text v i.
Proof.
  unfold scalar_read_back.
  destruct (bool_decide (a ∈ text_items)); cbn [andb text set_text set_num].
  - destruct (decide (a = i)) as [-> | Hne].
    + rewrite bool_decide_eq_true_2 by reflexivity. apply fn_lookup_insert.
    + rewrite bool_decide_eq_false_2 by exact Hne.
      apply fn_lookup_insert_ne, Hne.
  - reflexivity.
Qed.

Lemma scalar_read_back_num L bi a v i :
  num (scalar_read_back L bi a v) i
  = if negb (bool_decide (a ∈ text_items)) && bool_decide (a = i)
    then unpack_num L bi i else num v i.
Proof.
  unfold scalar_read_back.
  destruct (bool_decide (a ∈ text_items));
    cbn [negb andb num set_text set_num].
  - reflexivity.
  - destruct (decide (a = i)) as [-> | Hne].
    + rewrite bool_decide_eq_true_2 by reflexivity. apply fn_lookup_insert.
    + rewrite bool_decide_eq_false_2 by exact Hne.
      apply fn_lookup_insert_ne, Hne.
Qed.

Lemma scalar_read_back_frame L bi a v :
  path (scalar_read_back L bi a v) = path v /\
  values (scalar_read_back L bi a v) = values v /\
  blob (scalar_read_back L bi a v) = blob v /\
  type (scalar_read_back L bi a v) = type v.
Proof.
  unfold scalar_read_back. destruct (bool_decide (a ∈ text_items));
    repeat split; reflexivity.
Qed.

(** The reading of scalar items whose files hold what unpack wrote. *)
Lemma read_all_scalars_back L bi l v w :
  2 ^ 32 - 1 <= ULONG_MAX L ->
  (forall i, i ∈ numeric_items -> is_uint32 (unpack_num L bi i)) ->
  (forall i, i ∈ l ->
     i ∈ scalar_items /\ has_value v (OPT_VALUE i) = false /\
     path v i <> "" /\
     fs w !! path v i = Some (Regular (unpack_text L bi i))) ->
  exists v' w',
    read_all (read_scalar L) l v w = (Next v', w') /\
    quiet w w' /\ path v' = path v /\ blob v' = blob v /\
    type v' = type v /\
    (forall i, i ∈ l -> i ∈ text_items -> text v' i = read_back L bi i) /\
    (forall i, i ∈ l -> i ∉ text_items -> num v' i = unpack_num L bi i) /\
    (forall i, i ∉ l -> text v' i = text v i /\ num v' i = num v i).
Proof.
  intros HM Hn. revert v w. induction l as [| a l IH]; intros v w H.
  - exists v, w. split; [reflexivity |]. split; [apply quiet_refl |].
    repeat (split; [reflexivity |]).
    split; [intros i Hi; apply elem_of_nil in Hi; destruct Hi |].
    split; [intros i Hi; apply elem_of_nil in Hi; destruct Hi |].
    intros i _. split; reflexivity.
  - destruct (H a ltac:(apply elem_of_cons; left; reflexivity))
      as (Hs & Hv & Hp & Hf).
    pose proof (read_scalar_back L bi a v w Hs (Hn a) HM Hv Hp Hf) as Hstep.
    destruct (scalar_read_back_frame L bi a v) as (Hp1 & Hv1 & Hb1 & Ht1).
    set (v1 := scalar_read_back L bi a v) in *.
    set (w1 := mkWorld (fs w) (errno w)
                 (log w ++ [Fopen (path v a) "rb" true])) in *.
    destruct (IH v1 w1)
      as (v' & w' & Hrun & Hq & Hpa & Hbl & Hty & Ht & Hnu & Hk).
    { intros i Hi.
      destruct (H i ltac:(apply elem_of_cons; right; exact Hi))
        as (Hsi & Hvi & Hpi & Hfi).
      split; [exact Hsi |].
      split; [unfold has_value in *; rewrite Hv1; exact Hvi |].
      rewrite Hp1. split; assumption. }
    exists v', w'. cbn [read_all]. rewrite (bind_Next _ _ _ _ _ Hstep).
    split; [exact Hrun |].
    split.
    { apply (quiet_trans w w1 w'); [| exact Hq].
      unfold quiet, w1; cbn [fs log]. rewrite created_snoc, app_nil_r.
      split; reflexivity. }
    split; [congruence |]. split; [congruence |]. split; [congruence |].
    split; [| split].
    + intros i Hi Hti. destruct (decide (i ∈ l)) as [Hil | Hil];
        [exact (Ht i Hil Hti) |].
      apply elem_of_cons in Hi as [-> | Hi]; [| contradiction].
      rewrite (proj1 (Hk a Hil)). unfold v1. rewrite scalar_read_back_text.
      rewrite (bool_decide_eq_true_2 _ Hti), bool_decide_eq_true_2
        by reflexivity.
      reflexivity.
    + intros i Hi Hti. destruct (decide (i ∈ l)) as [Hil | Hil];
        [exact (Hnu i Hil Hti) |].
      apply elem_of_cons in Hi as [-> | Hi]; [| contradiction].
      rewrite (proj2 (Hk a Hil)). unfold v1. rewrite scalar_read_back_num.
      rewrite (bool_decide_eq_false_2 _ Hti), bool_decide_eq_true_2
        by reflexivity.
      reflexivity.
    + intros i Hi.
      assert (Hne : a <> i)
        by (intros ->; apply Hi, elem_of_cons; left; reflexivity).
      assert (Hil : i ∉ l)
        by (intros Hil; apply Hi, elem_of_cons; right; exact Hil).
      destruct (Hk i Hil) as [Et En]. rewrite Et, En. unfold v1.
      rewrite scalar_read_back_text, scalar_read_back_num.
      rewrite (bool_decide_eq_false_2 _ Hne), !andb_false_r.
      split; reflexivity.
Qed.

(** The reading of blob items of which each has a file with known bytes,
    or no file and no need of one. *)
Lemma read_all_blobs_back (d : item -> list byte) l v w :
  (forall i, i ∈ l ->
     (path v i <> "" /\
      fs w !! path v i = Some (Regular (string_of_list_byte (d i)))) \/
     (required_blob i = false /\ missing w (path v i) /\ d i = blob v i)) ->
  exists v' w',
    read_all read_blob l v w = (Next v', w') /\
    quiet w w' /\ path v' = path v /\ text v' = text v /\ num v' = num v /\
    type v' = type v /\
    (forall i, i ∈ l -> blob v' i = d i) /\
    (forall i, i ∉ l -> blob v' i = blob v i).
Proof.
  revert v w. induction l as [| a l IH]; intros v w H.
  - exists v, w. split; [reflexivity |]. split; [apply quiet_refl |].
    repeat (split; [reflexivity |]).
    split; [intros i Hi; apply elem_of_nil in Hi; destruct Hi |].
    intros i _. reflexivity.
  - assert (Hstep : exists v1 w1,
      read_blob a v w = (Next v1, w1) /\ quiet w w1 /\
      path v1 = path v /\ text v1 = text v /\ num v1 = num v /\
      type v1 = type v /\ blob v1 a = d a /\
      (forall i, i <> a -> blob v1 i = blob v i)).
    { destruct (H a ltac:(apply elem_of_cons; left; reflexivity))
        as [[Hp Hf] | (Hr & Hm & Hd)].
      - eexists _, _. split; [apply (read_blob_regular a v w _ Hp Hf) |].
        split; [unfold quiet; cbn [fs log]; rewrite created_snoc, app_nil_r;
                split; reflexivity |].
        repeat (split; [reflexivity |]).
        rewrite list_byte_of_string_of_list_byte. cbn [blob set_blob].
        split; [apply fn_lookup_insert |].
        intros i Hi. apply fn_lookup_insert_ne. congruence.
      - eexists _, _. split; [apply (read_blob_missing_optional a v w Hr Hm) |].
        split; [unfold quiet; cbn [fs log]; rewrite created_snoc, app_nil_r;
                split; reflexivity |].
        repeat (split; [reflexivity |]).
        split; [symmetry; exact Hd | intros i _; reflexivity]. }
    destruct Hstep as (v1 & w1 & Hrb & Hq1 & Hp1 & Hx1 & Hn1 & Ht1 & Ha & Ho).
    destruct (IH v1 w1)
      as (v' & w' & Hrun & Hq & Hpa & Hte & Hnu & Hty & Hin & Hout).
    { intros i Hi.
      destruct (H i ltac:(apply elem_of_cons; right; exact Hi))
        as [[Hp Hf] | (Hr & Hm & Hd)].
      - left. rewrite Hp1, (proj1 Hq1). split; assumption.
      - right. split; [exact Hr |]. rewrite Hp1.
        split; [exact (missing_quiet _ _ _ Hq1 Hm) |].
        destruct (decide (i = a)) as [-> | Hne];
          [rewrite Ha; reflexivity | rewrite (Ho i Hne); exact Hd]. }
    exists v', w'. cbn [read_all]. rewrite (bind_Next _ _ _ _ _ Hrb).
    split; [exact Hrun |].
    split; [exact (quiet_trans _ _ _ Hq1 Hq) |].
    split; [congruence |]. split; [congruence |]. split; [congruence |].
    split; [congruence |]. split.
    + intros i Hi. destruct (decide (i ∈ l)) as [Hil | Hil];
        [exact (Hin i Hil) |].
      apply elem_of_cons in Hi as [-> | Hi]; [| contradiction].
      rewrite (Hout a Hil). exact Ha.
    + intros i Hi.
      assert (Hne : i <> a)
        by (intros ->; apply Hi, elem_of_cons; left; reflexivity).
      assert (Hil : i ∉ l)
        by (intros Hil; apply Hi, elem_of_cons; right; exact Hil).
      rewrite (Hout i Hil). exact (Ho i Hne).
Qed.

(** X17.  Pack on the files that unpack wrote.  When no scalar item has a
    value option, the type is not loki, every numeric item of the image
    that was unpacked is a 32-bit value, the 21 resolved paths hold what
    unpack wrote for the image and aboot has no file, pack reads every
    file and hands the codec one image, made of: the two texts up to their
    first NUL or newline and cut to their field sizes, the twelve numbers
    as unpack printed them, the nine blobs byte for byte, and the aboot
    blob and the type that the variables had. *)
Theorem pack_reads_what_unpack_wrote (L : Lib) (bi : BootImage)
    (v : pack_vars) (f : string) (w w' : world) (r : outcome bool) :
  type v <> Loki ->
  2 ^ 32 - 1 <= ULONG_MAX L ->
  (forall i, i ∈ numeric_items -> is_uint32 (unpack_num L bi i)) ->
  (forall i, i ∈ scalar_items -> has_value v (OPT_VALUE i) = false) ->
  (forall i, i ∈ unpack_items ->
     path (resolved L v f) i <> "" /\
     fs w !! path (resolved L v f) i = Some (Regular (item_content L bi i))) ->
  missing w (path (resolved L v f) Aboot) ->
  pack_run L v [f] w = (r, w') ->
  exists v2,
    created (log w') = created (log w) ++ [pack_image L v2] /\
    (forall i, i ∈ text_items -> text v2 i = read_back L bi i) /\
    (forall i, i ∈ numeric_items -> num v2 i = unpack_num L bi i) /\
    (forall i, i ∈ unpack_blob_items -> blob v2 i = image_blob bi i) /\
    blob v2 Aboot = blob v Aboot /\ type v2 = type v /\
    (r = Next true <-> buildImage L (pack_image L v2) <> None).
Proof.
  intros Hty HM Hn Hval Hfiles Hab H.
  assert (Hloki : bool_decide (type v = Loki) && is_empty (path v Aboot)
                  = false)
    by (rewrite (bool_decide_eq_false_2 _ Hty); reflexivity).
  unfold pack_run in H.
  destruct (bool_decide (type v = Loki) && is_empty (path v Aboot));
    [discriminate Hloki |].
  cbv zeta in H. change (set_path _ v) with (resolved L v f) in H.
  set (v0 := resolved L v f) in *.
  destruct (pack_listing_runs v0 w) as (w0 & Hl & Q0 & _).
  rewrite (bind_Next _ _ _ _ _ Hl) in H.
  destruct (read_all_scalars_back L bi scalar_items v0 w0 HM Hn)
    as (v1 & w1 & Hs & Q1 & Hp1 & Hb1 & Ht1 & Htext & Hnum & _).
  { intros i Hi. split; [exact Hi |].
    split; [exact (Hval i Hi) |].
    destruct (Hfiles i ltac:(unfold unpack_items; apply elem_of_app; left;
                               exact Hi)) as [Hp Hf].
    split; [exact Hp |].
    rewrite (proj1 Q0), Hf, (item_content_scalar L bi i Hi). reflexivity. }
  rewrite (bind_Next _ _ _ _ _ Hs) in H.
  assert (Q01 : quiet w w1) by exact (quiet_trans _ _ _ Q0 Q1).
  destruct (read_all_blobs_back (blobs_read_back bi v) pack_blob_items v1 w1)
    as (v2 & w2 & Hb & Q2 & Hp2 & Hx2 & Hn2 & Ht2 & Hblob & _).
  { intros i Hi. rewrite Hp1, (proj1 Q01). unfold blobs_read_back.
    destruct (decide (i ∈ unpack_blob_items)) as [Hu | Hu].
    - left. rewrite (bool_decide_eq_true_2 _ Hu).
      destruct (Hfiles i ltac:(unfold unpack_items; apply elem_of_app; right;
                                 exact Hu)) as [Hp Hf].
      split; [exact Hp |].
      rewrite Hf, (item_content_blob L bi i Hu). reflexivity.
    - right. rewrite (bool_decide_eq_false_2 _ Hu).
      assert (i = Aboot) as ->
        by (destruct i; first [reflexivity
                              | exfalso; apply Hu; compute_done
                              | exfalso; revert Hi; compute_done]).
      split; [reflexivity |].
      split; [exact (missing_quiet _ _ _ Q01 Hab) |].
      rewrite Hb1. reflexivity. }
  rewrite (bind_Next _ _ _ _ _ Hb) in H.
  destruct (createFile_log L (pack_image L v2) f w2) as (ok & w3 & Hcf & Hlog).
  rewrite (bind_Next _ _ _ _ _ Hcf) in H.
  assert (Q02 : quiet w w2) by exact (quiet_trans _ _ _ Q01 Q2).
  exists v2.
  assert (Hcr : created (log w') = created (log w) ++ [pack_image L v2]).
  { destruct ok; unfold bind, fprintf, emit, ret, return_ in H;
      inversion H; subst; cbn [log];
      rewrite created_snoc, app_nil_r, Hlog, created_snoc, (proj2 Q02);
      reflexivity. }
  split; [exact Hcr |].
  split; [intros i Hi; rewrite Hx2; apply Htext;
          [exact (text_is_scalar i Hi) | exact Hi] |].
  split.
  { intros i Hi. rewrite Hn2. apply Hnum.
    - unfold scalar_items. apply elem_of_app. right. exact Hi.
    - intros Hti. destruct (numeric_item_kind i Hi) as [Hk _].
      rewrite (bool_decide_eq_true_2 _ Hti) in Hk. discriminate Hk. }
  split.
  { intros i Hi. rewrite (Hblob i).
    - unfold blobs_read_back. rewrite (bool_decide_eq_true_2 _ Hi). reflexivity.
    - revert Hi. clear. intros Hi.
      destruct i; first [compute_done | exfalso; revert Hi; compute_done]. }
  split.
  { rewrite (Hblob Aboot) by compute_done. reflexivity. }
  split; [rewrite Ht2, Ht1; reflexivity |].
  pose proof (createFile_ok _ _ _ _ _ _ Hcf) as Hok.
  destruct (buildImage L (pack_image L v2)) as [c |]; subst ok;
    unfold bind, fprintf, emit, ret, return_ in H; inversion H; subst.
  - split; [intros _; discriminate | reflexivity].
  - split; [discriminate | intros Hne; exfalso; apply Hne; reflexivity].
Qed.

Lemma pack_reads_what_unpack_wrote_witness :
  exists v2,
    created (log (snd (pack_run lib64
                         (parsed lib64 ["pack"; "boot.img"; "-i"; "out/"])
                         ["boot.img"] after_unpack)))
    = created (log after_unpack) ++ [pack_image lib64 v2] /\
    (forall i, i ∈ text_items -> text v2 i = read_back lib64 demo_image i) /\
    (forall i, i ∈ numeric_items ->
       num v2 i = unpack_num lib64 demo_image i) /\
    (forall i, i ∈ unpack_blob_items ->
       blob v2 i = image_blob demo_image i) /\
    blob v2 Aboot
    = blob (parsed lib64 ["pack"; "boot.img"; "-i"; "out/"]) Aboot /\
    type v2 = type (parsed lib64 ["pack"; "boot.img"; "-i"; "out/"]) /\
    (fst (pack_run lib64 (parsed lib64 ["pack"; "boot.img"; "-i"; "out/"])
            ["boot.img"] after_unpack) = Next true <->
     buildImage lib64 (pack_image lib64 v2) <> None).
Proof.
  apply (pack_reads_what_unpack_wrote lib64 demo_image
           (parsed lib64 ["pack"; "boot.img"; "-i"; "out/"]) "boot.img"
           after_unpack).
  - vm_compute. discriminate.
  - vm_compute. discriminate.
  - intros i Hi.
    destruct i; first [unfold is_uint32; vm_compute;
                         split; [discriminate | reflexivity]
                      | exfalso; revert Hi; compute_done].
  - intros i Hi.
    destruct i; first [vm_compute; reflexivity
                      | exfalso; revert Hi; compute_done].
  - intros i Hi.
    destruct i; first [split; [vm_compute; discriminate
                              | vm_compute; reflexivity]
                      | exfalso; revert Hi; compute_done].
  - right. vm_compute. reflexivity.
  - apply surjective_pairing.
Defined.
